(** * openhtf run data: a shallow embedding of [openhtf/rundata.py]

    The module stores a seven-field record about a running station as a JSON
    file named after the station, reads such files back, probes the recorded
    pid with signal 0 and enumerates a run directory.

    Conventions of the embedding:
    - a Python [str] and the content of a text file are sequences of code
      points ([text]); ASCII literals are written [lit "..."];
    - a Python value is a [pyval]; the universe covers what [json.loads] can
      return (None, bool, int, float, str, list, dict with str keys);
    - [json.dumps] and [json.loads] follow CPython 3's [json] package with the
      C scanner, for the arguments the module passes;
    - the limits of the interpreter (memory, the depth of recursion, the
      cap on the digits of an [int]) are outside the model;
    - exceptions are values of [exn] carried by [result];
    - the file system and the process table are explicit state. *)

From Stdlib Require Import List NArith ZArith String Ascii Bool Lia.
From Stdlib Require Import Permutation Sorted DecimalFacts DecimalPos DecimalN DecimalZ.
Import ListNotations.

Local Open Scope N_scope.

(** ** Text *)

Definition text := list N.

Definition lit (s : string) : text := map N_of_ascii (list_ascii_of_string s).

Definition QUOTE : N := 34.
Definition BACKSLASH : N := 92.
Definition NEWLINE : N := 10.
Definition SPACE : N := 32.

Fixpoint text_eqb (a b : text) : bool :=
  match a, b with
  | [], [] => true
  | x :: a', y :: b' => (x =? y) && text_eqb a' b'
  | _, _ => false
  end.

(** Python compares [str] lexicographically by code point. *)
Fixpoint text_leb (a b : text) : bool :=
  match a, b with
  | [], _ => true
  | _ :: _, [] => false
  | x :: a', y :: b' =>
      if x <? y then true else if y <? x then false else text_leb a' b'
  end.

Definition text_ltb (a b : text) : bool := negb (text_leb b a).

Fixpoint starts_with (p s : text) : bool :=
  match p, s with
  | [], _ => true
  | x :: p', y :: s' => (x =? y) && starts_with p' s'
  | _ :: _, [] => false
  end.

(** ** Python values *)

Unset Elimination Schemes.
Inductive pyval : Type :=
| PNone
| PBool (b : bool)
| PInt (z : Z)
| PFloat (lexeme : text)
    (* a float, kept as the literal it was read from; float arithmetic and
       [float.__repr__] are outside the model *)
| PStr (s : text)
| PList (l : list pyval)
| PDict (items : list (text * pyval)).
Set Elimination Schemes.

Section PyvalInd.
Variable P : pyval -> Prop.
Hypothesis HNone : P PNone.
Hypothesis HBool : forall b, P (PBool b).
Hypothesis HInt : forall z, P (PInt z).
Hypothesis HFloat : forall l, P (PFloat l).
Hypothesis HStr : forall s, P (PStr s).
Hypothesis HList : forall l, Forall P l -> P (PList l).
Hypothesis HDict : forall items, Forall (fun kv => P (snd kv)) items -> P (PDict items).

Fixpoint pyval_ind (v : pyval) : P v :=
  match v with
  | PNone => HNone
  | PBool b => HBool b
  | PInt z => HInt z
  | PFloat l => HFloat l
  | PStr s => HStr s
  | PList l =>
      HList l ((fix go (l : list pyval) : Forall P l :=
                  match l with
                  | [] => Forall_nil _
                  | x :: l' => Forall_cons _ (pyval_ind x) (go l')
                  end) l)
  | PDict items =>
      HDict items
        ((fix go (l : list (text * pyval)) : Forall (fun kv => P (snd kv)) l :=
            match l with
            | [] => Forall_nil _
            | kv :: l' => Forall_cons _ (pyval_ind (snd kv)) (go l')
            end) items)
  end.
End PyvalInd.

(** ** Exceptions *)

Inductive errno := ENOENT | EACCES | EISDIR | ENOTDIR | ESRCH | EPERM.

Inductive exn :=
| OSError (e : errno)        (* IOError is OSError *)
| JSONDecodeError            (* a ValueError raised by json.loads *)
| TypeError
| ValueError
| OverflowError.

Inductive result (A : Type) :=
| Ok (a : A)
| Raise (e : exn).
Arguments Ok {A} a.
Arguments Raise {A} e.

Definition bind {A B} (m : result A) (f : A -> result B) : result B :=
  match m with
  | Ok a => f a
  | Raise e => Raise e
  end.

Notation "x <- m ;; k" := (bind m (fun x => k))
  (at level 61, m at next level, right associativity).

(** ** json.dumps(d, sort_keys=True, indent=4, separators=(',', ': ')) *)

Definition hexdigit (d : N) : N := if d <? 10 then 48 + d else 87 + d.

(** ['\\u{0:04x}'.format(n)] *)
Definition u_escape (n : N) : text :=
  [BACKSLASH; 117;
   hexdigit ((n / 4096) mod 16); hexdigit ((n / 256) mod 16);
   hexdigit ((n / 16) mod 16); hexdigit (n mod 16)].

(** The replacement of one character matched by [ESCAPE_ASCII] (a backslash,
    a double quote, or anything outside the range from space to tilde), and
    the character itself otherwise. *)
Definition escape_char (c : N) : text :=
  if c =? QUOTE then [BACKSLASH; QUOTE]
  else if c =? BACKSLASH then [BACKSLASH; BACKSLASH]
  else if c =? 10 then [BACKSLASH; 110]
  else if c =? 13 then [BACKSLASH; 114]
  else if c =? 9 then [BACKSLASH; 116]
  else if c =? 8 then [BACKSLASH; 98]
  else if c =? 12 then [BACKSLASH; 102]
  else if (32 <=? c) && (c <=? 126) then [c]
  else if c <? 65536 then u_escape c
  else
    let n := c - 65536 in
    u_escape (N.lor 55296 (N.land (N.shiftr n 10) 1023))
      ++ u_escape (N.lor 56320 (N.land n 1023)).

Definition encode_basestring_ascii (s : text) : text :=
  QUOTE :: flat_map escape_char s ++ [QUOTE].

Fixpoint uint_text (u : Decimal.uint) : text :=
  match u with
  | Decimal.Nil => []
  | Decimal.D0 u' => 48 :: uint_text u'
  | Decimal.D1 u' => 49 :: uint_text u'
  | Decimal.D2 u' => 50 :: uint_text u'
  | Decimal.D3 u' => 51 :: uint_text u'
  | Decimal.D4 u' => 52 :: uint_text u'
  | Decimal.D5 u' => 53 :: uint_text u'
  | Decimal.D6 u' => 54 :: uint_text u'
  | Decimal.D7 u' => 55 :: uint_text u'
  | Decimal.D8 u' => 56 :: uint_text u'
  | Decimal.D9 u' => 57 :: uint_text u'
  end.

(** [int.__repr__] *)
Definition int_repr (z : Z) : text :=
  match Z.to_int z with
  | Decimal.Pos u => uint_text u
  | Decimal.Neg u => 45 :: uint_text u
  end.

Definition insert_by_key {A} (kv : text * A) : list (text * A) -> list (text * A) :=
  fix ins (l : list (text * A)) :=
    match l with
    | [] => [kv]
    | h :: t => if text_leb (fst kv) (fst h) then kv :: l else h :: ins t
    end.

(** [sorted(dct.items())] on a dict, whose keys are distinct. *)
Definition sort_by_key {A} (l : list (text * A)) : list (text * A) :=
  fold_right insert_by_key [] l.

Definition item_separator : text := lit ",".
Definition key_separator : text := lit ": ".

Definition newline_indent (level : nat) : text :=
  NEWLINE :: repeat SPACE (4 * level).

(** The chunks of a non-empty container between its brackets: every chunk on
    a line of its own at [level + 1], the closing bracket at [level]. *)
Definition join_chunks (level : nat) (chunks : list text) : text :=
  match chunks with
  | [] => []
  | c :: cs =>
      newline_indent (S level) ++ c
        ++ flat_map (fun c' => item_separator ++ newline_indent (S level) ++ c') cs
        ++ newline_indent level
  end.

Definition member_chunk (kt : text * text) : text :=
  encode_basestring_ascii (fst kt) ++ key_separator ++ snd kt.

(** [_iterencode] at [_current_indent_level = level]. *)
Fixpoint iterencode (level : nat) (v : pyval) {struct v} : text :=
  match v with
  | PNone => lit "null"
  | PBool true => lit "true"
  | PBool false => lit "false"
  | PInt z => int_repr z
  | PFloat l => l
  | PStr s => encode_basestring_ascii s
  | PList [] => lit "[]"
  | PList l => lit "[" ++ join_chunks level (map (iterencode (S level)) l) ++ lit "]"
  | PDict [] => lit "{}"
  | PDict items =>
      lit "{"
        ++ join_chunks level
             (map member_chunk
                (sort_by_key
                   (map (fun kv => (fst kv, iterencode (S level) (snd kv))) items)))
        ++ lit "}"
  end.

Definition dumps (v : pyval) : text := iterencode 0 v.

(** ** The record *)

Record RunData := mkRunData {
  station_name : pyval;
  cell_count : pyval;
  test_type : pyval;
  test_version : pyval;
  http_host : pyval;
  http_port : pyval;
  pid : pyval
}.

Definition fields : list text :=
  [lit "station_name"; lit "cell_count"; lit "test_type"; lit "test_version";
   lit "http_host"; lit "http_port"; lit "pid"].

(** [self._asdict()]: an ordered dict in field order. *)
Definition _asdict (r : RunData) : list (text * pyval) :=
  [(lit "station_name", station_name r); (lit "cell_count", cell_count r);
   (lit "test_type", test_type r); (lit "test_version", test_version r);
   (lit "http_host", http_host r); (lit "http_port", http_port r);
   (lit "pid", pid r)].

(** [d[k] = v] on an ordered dict: an existing key keeps its position. *)
Fixpoint setitem (k : text) (v : pyval) (d : list (text * pyval)) : list (text * pyval) :=
  match d with
  | [] => [(k, v)]
  | (k', v') :: d' => if text_eqb k k' then (k, v) :: d' else (k', v') :: setitem k v d'
  end.

Definition AsJson (self : RunData) : text :=
  let d := _asdict self in
  let d := setitem (lit "http_host") (http_host self) d in
  dumps (PDict d).

(** ** json.loads *)

Definition is_ws (c : N) : bool :=
  (c =? 32) || (c =? 9) || (c =? 10) || (c =? 13).

Fixpoint skip_ws (s : text) : text :=
  match s with
  | c :: s' => if is_ws c then skip_ws s' else s
  | [] => []
  end.

Definition hexval (c : N) : option N :=
  if (48 <=? c) && (c <=? 57) then Some (c - 48)
  else if (97 <=? c) && (c <=? 102) then Some (c - 87)
  else if (65 <=? c) && (c <=? 70) then Some (c - 55)
  else None.

Definition hex4 (a b c d : N) : option N :=
  match hexval a, hexval b, hexval c, hexval d with
  | Some x, Some y, Some z, Some w => Some (((x * 16 + y) * 16 + z) * 16 + w)
  | _, _, _, _ => None
  end.

Definition is_high_surrogate (c : N) : bool := (55296 <=? c) && (c <=? 56319).
Definition is_low_surrogate (c : N) : bool := (56320 <=? c) && (c <=? 57343).
Definition join_surrogates (hi lo : N) : N :=
  65536 + N.lor (N.shiftl (hi - 55296) 10) (lo - 56320).

(** The escapes other than [\u]. *)
Definition unescape (e : N) : option N :=
  if e =? QUOTE then Some QUOTE
  else if e =? BACKSLASH then Some BACKSLASH
  else if e =? 47 then Some 47
  else if e =? 98 then Some 8
  else if e =? 102 then Some 12
  else if e =? 110 then Some 10
  else if e =? 114 then Some 13
  else if e =? 116 then Some 9
  else None.

Definition push (c : N) (r : option (text * text)) : option (text * text) :=
  match r with
  | Some (str, rest) => Some (c :: str, rest)
  | None => None
  end.

(** [scanstring] in strict mode, from just after the opening quote: the
    string read and the text after the closing quote. *)
Fixpoint scanstring (s : text) : option (text * text) :=
  match s with
  | [] => None
  | c :: s1 =>
      if c =? QUOTE then Some ([], s1)
      else if c =? BACKSLASH then
        match s1 with
        | [] => None
        | e :: s2 =>
            if e =? 117 then
              match s2 with
              | h1 :: h2 :: h3 :: h4 :: s3 =>
                  match hex4 h1 h2 h3 h4 with
                  | None => None
                  | Some uni =>
                      if is_high_surrogate uni then
                        match s3 with
                        | b :: u :: g1 :: g2 :: g3 :: g4 :: s4 =>
                            if (b =? BACKSLASH) && (u =? 117) then
                              match hex4 g1 g2 g3 g4 with
                              | None => None
                              | Some uni2 =>
                                  if is_low_surrogate uni2
                                  then push (join_surrogates uni uni2) (scanstring s4)
                                  else push uni (scanstring s3)
                              end
                            else push uni (scanstring s3)
                        | _ => push uni (scanstring s3)
                        end
                      else push uni (scanstring s3)
                  end
              | _ => None
              end
            else
              match unescape e with
              | Some ch => push ch (scanstring s2)
              | None => None
              end
        end
      else if c <? 32 then None
      else push c (scanstring s1)
  end.

Definition is_digit (c : N) : bool := (48 <=? c) && (c <=? 57).

Definition digit_of (c : N) (u : Decimal.uint) : Decimal.uint :=
  match c - 48 with
  | 0 => Decimal.D0 u
  | 1 => Decimal.D1 u
  | 2 => Decimal.D2 u
  | 3 => Decimal.D3 u
  | 4 => Decimal.D4 u
  | 5 => Decimal.D5 u
  | 6 => Decimal.D6 u
  | 7 => Decimal.D7 u
  | 8 => Decimal.D8 u
  | _ => Decimal.D9 u
  end.

(** The longest run of ASCII digits at the head of [s]. *)
Fixpoint scan_digits (s : text) : Decimal.uint * text :=
  match s with
  | c :: s' =>
      if is_digit c
      then let (u, r) := scan_digits s' in (digit_of c u, r)
      else (Decimal.Nil, s)
  | [] => (Decimal.Nil, [])
  end.

(** A fraction: a dot followed by at least one digit. *)
Definition scan_frac (s : text) : text * text :=
  match s with
  | dot :: d :: s' =>
      if (dot =? 46) && is_digit d
      then let (u, r) := scan_digits (d :: s') in (dot :: uint_text u, r)
      else ([], s)
  | _ => ([], s)
  end.

(** An exponent: [e] or [E], an optional sign and at least one digit. *)
Definition scan_exp (s : text) : text * text :=
  match s with
  | e :: s' =>
      if (e =? 101) || (e =? 69) then
        let (sign, s'') :=
          match s' with
          | c :: t => if (c =? 45) || (c =? 43) then ([c], t) else ([], s')
          | [] => ([], s')
          end in
        let (u, r) := scan_digits s'' in
        match u with
        | Decimal.Nil => ([], s)
        | _ => (e :: sign ++ uint_text u, r)
        end
      else ([], s)
  | [] => ([], s)
  end.

(** After the integer part [u] (negated when [neg]): an int when neither a
    fraction nor an exponent follows, a float otherwise. *)
Definition finish_number (neg : bool) (u : Decimal.uint) (s : text) : pyval * text :=
  let (frac, s1) := scan_frac s in
  let (exp, s2) := scan_exp s1 in
  match frac, exp with
  | [], [] =>
      (PInt (Z.of_int (if neg then Decimal.Neg u else Decimal.Pos u)), s2)
  | _, _ =>
      (PFloat ((if neg then [45] else []) ++ uint_text u ++ frac ++ exp), s2)
  end.

(** An optional minus sign, then a single zero or a digit run that does not
    start with zero, then what [finish_number] reads after it. *)
Definition match_number (s : text) : option (pyval * text) :=
  let (neg, s1) :=
    match s with
    | c :: s' => if c =? 45 then (true, s') else (false, s)
    | [] => (false, s)
    end in
  match s1 with
  | c :: s2 =>
      if c =? 48 then Some (finish_number neg (Decimal.D0 Decimal.Nil) s2)
      else if is_digit c then
        let (u, r) := scan_digits s1 in Some (finish_number neg u r)
      else None
  | [] => None
  end.

(** [dict(pairs)]: a repeated key keeps its first position and takes the
    last value. *)
Definition dict_of_pairs (pairs : list (text * pyval)) : list (text * pyval) :=
  fold_left (fun d kv => setitem (fst kv) (snd kv) d) pairs [].

(** [_CONSTANTS.__getitem__], the default [parse_constant]. *)
Definition _CONSTANTS (name : text) : option pyval :=
  if text_eqb name (lit "NaN") then Some (PFloat (lit "NaN"))
  else if text_eqb name (lit "Infinity") then Some (PFloat (lit "Infinity"))
  else if text_eqb name (lit "-Infinity") then Some (PFloat (lit "-Infinity"))
  else None.

Section Scanner.

(** The hook of the scanner for the three names that JSON does not have;
    [None] stands for a hook that raises. *)
Variable parse_constant : text -> option pyval.

Definition constant (name : text) (s : text) : option (pyval * text) :=
  match parse_constant name with
  | Some v => Some (v, skipn (List.length name) s)
  | None => None
  end.

(** [scan_once] reads one value at the head of [s]; [parse_elements] and
    [parse_members] read the rest of an array and of an object from the start
    of an element and of a key.  [fuel] bounds the nesting and the number of
    elements; [loads] passes more than any text can use. *)
Fixpoint scan_once (fuel : nat) (s : text) {struct fuel} : option (pyval * text) :=
  match fuel with
  | O => None
  | S fuel' =>
      match s with
      | [] => None
      | c :: s' =>
          if c =? QUOTE then
            match scanstring s' with
            | Some (str, r) => Some (PStr str, r)
            | None => None
            end
          else if c =? 123 then
            match skip_ws s' with
            | [] => None
            | c' :: r =>
                if c' =? 125 then Some (PDict [], r)
                else
                  match parse_members fuel' (c' :: r) with
                  | Some (pairs, r') => Some (PDict (dict_of_pairs pairs), r')
                  | None => None
                  end
            end
          else if c =? 91 then
            match skip_ws s' with
            | [] => None
            | c' :: r =>
                if c' =? 93 then Some (PList [], r)
                else
                  match parse_elements fuel' (c' :: r) with
                  | Some (l, r') => Some (PList l, r')
                  | None => None
                  end
            end
          else if starts_with (lit "null") s then Some (PNone, skipn 4 s)
          else if starts_with (lit "true") s then Some (PBool true, skipn 4 s)
          else if starts_with (lit "false") s then Some (PBool false, skipn 5 s)
          else if starts_with (lit "NaN") s then constant (lit "NaN") s
          else if starts_with (lit "Infinity") s then constant (lit "Infinity") s
          else if starts_with (lit "-Infinity") s then constant (lit "-Infinity") s
          else match_number s
      end
  end

with parse_elements (fuel : nat) (s : text) {struct fuel} : option (list pyval * text) :=
  match fuel with
  | O => None
  | S fuel' =>
      match scan_once fuel' s with
      | None => None
      | Some (v, r) =>
          match skip_ws r with
          | [] => None
          | c :: r' =>
              if c =? 93 then Some ([v], r')
              else if c =? 44 then
                match parse_elements fuel' (skip_ws r') with
                | Some (l, r'') => Some (v :: l, r'')
                | None => None
                end
              else None
          end
      end
  end

with parse_members (fuel : nat) (s : text) {struct fuel}
  : option (list (text * pyval) * text) :=
  match fuel with
  | O => None
  | S fuel' =>
      match s with
      | [] => None
      | c :: s1 =>
          if c =? QUOTE then
            match scanstring s1 with
            | None => None
            | Some (key, r1) =>
                match skip_ws r1 with
                | [] => None
                | c2 :: r2 =>
                    if c2 =? 58 then
                      match scan_once fuel' (skip_ws r2) with
                      | None => None
                      | Some (v, r3) =>
                          match skip_ws r3 with
                          | [] => None
                          | c4 :: r4 =>
                              if c4 =? 125 then Some ([(key, v)], r4)
                              else if c4 =? 44 then
                                match parse_members fuel' (skip_ws r4) with
                                | Some (pairs, r5) => Some ((key, v) :: pairs, r5)
                                | None => None
                                end
                              else None
                          end
                      end
                    else None
                end
            end
          else None
      end
  end.

(** [json.loads(s, parse_constant=...)]: leading white space, one value,
    trailing white space and nothing else. *)
Definition loads_with (s : text) : result pyval :=
  match scan_once (S (2 * List.length s)) (skip_ws s) with
  | Some (v, r) =>
      match skip_ws r with
      | [] => Ok v
      | _ :: _ => Raise JSONDecodeError
      end
  | None => Raise JSONDecodeError
  end.

End Scanner.

(** [json.loads(s)] *)
Definition loads (s : text) : result pyval := loads_with _CONSTANTS s.

(** ** Construction from keywords and decoding *)

Fixpoint getitem (k : text) (d : list (text * pyval)) : option pyval :=
  match d with
  | [] => None
  | (k', v) :: d' => if text_eqb k k' then Some v else getitem k d'
  end.

(** [cls( **d )]: [d] must be a mapping, every key of it a field, and every
    field a key of it. *)
Definition RunData_kwargs (d : pyval) : result RunData :=
  match d with
  | PDict items =>
      if forallb (fun kv => existsb (text_eqb (fst kv)) fields) items then
        match getitem (lit "station_name") items, getitem (lit "cell_count") items,
              getitem (lit "test_type") items, getitem (lit "test_version") items,
              getitem (lit "http_host") items, getitem (lit "http_port") items,
              getitem (lit "pid") items with
        | Some a, Some b, Some c, Some d, Some e, Some f, Some g =>
            Ok (mkRunData a b c d e f g)
        | _, _, _, _, _, _, _ => Raise TypeError
        end
      else Raise TypeError
  | _ => Raise TypeError
  end.

(** The two statements of [FromFile] after the file is read. *)
Definition decode (data : text) : result RunData :=
  d <- loads data ;;
  RunData_kwargs d.

(** ** The file system

    A tree of directories and regular files.  The entries of a directory are
    kept in the order in which [os.listdir] reports them.  Permissions are
    abstracted to one bit per node: whether this process may use it (read or
    rewrite a file; search, list or add to a directory).  Symbolic links and
    text encodings are outside the model. *)

Unset Elimination Schemes.
Inductive node :=
| File (access : bool) (data : text)
| Dir (access : bool) (entries : list (text * node)).
Set Elimination Schemes.

Record filesystem := mkFS {
  root : node;
  cwd : list text   (* the names from the root to the working directory *)
}.

Fixpoint lookup (name : text) (entries : list (text * node)) : option node :=
  match entries with
  | [] => None
  | (n, c) :: es => if text_eqb name n then Some c else lookup name es
  end.

(** The node reached from [n] by a list of names. *)
Fixpoint get (n : node) (path : list text) : option node :=
  match path with
  | [] => Some n
  | name :: path' =>
      match n with
      | Dir _ es =>
          match lookup name es with
          | Some c => get c path'
          | None => None
          end
      | File _ _ => None
      end
  end.

Definition SLASH : N := 47.

(** [p.split('/')] *)
Fixpoint split (p : text) : list text :=
  match p with
  | [] => [[]]
  | c :: p' =>
      if c =? SLASH then [] :: split p'
      else
        match split p' with
        | comp :: rest => (c :: comp) :: rest
        | [] => [[c]]
        end
  end.

Definition is_dot (comp : text) : bool := text_eqb comp [] || text_eqb comp (lit ".").
Definition is_dotdot (comp : text) : bool := text_eqb comp (lit "..").

(** Path resolution: from the directory at [cur], follow the components. *)
Fixpoint walk (rt : node) (cur : list text) (comps : list text) : result (list text) :=
  match comps with
  | [] => Ok cur
  | comp :: comps' =>
      match get rt cur with
      | Some (Dir true es) =>
          if is_dot comp then walk rt cur comps'
          else if is_dotdot comp then walk rt (removelast cur) comps'
          else
            match lookup comp es with
            | Some _ => walk rt (cur ++ [comp]) comps'
            | None => Raise (OSError ENOENT)
            end
      | Some (Dir false _) => Raise (OSError EACCES)
      | Some (File _ _) => Raise (OSError ENOTDIR)
      | None => Raise (OSError ENOENT)
      end
  end.

Definition has_nul (p : text) : bool := existsb (N.eqb 0) p.

Definition start (fs : filesystem) (p : text) : list text :=
  match p with
  | c :: _ => if c =? SLASH then [] else cwd fs
  | [] => cwd fs
  end.

(** The place a path names, as the names from the root. *)
Definition locate (fs : filesystem) (p : text) : result (list text) :=
  if has_nul p then Raise ValueError
  else
    match p with
    | [] => Raise (OSError ENOENT)
    | _ :: _ => walk (root fs) (start fs p) (split p)
    end.

(** [with open(p) as f: data = f.read()] *)
Definition read_file (fs : filesystem) (p : text) : result text :=
  cp <- locate fs p ;;
  match get (root fs) cp with
  | Some (File true data) => Ok data
  | Some (File false _) => Raise (OSError EACCES)
  | Some (Dir _ _) => Raise (OSError EISDIR)
  | None => Raise (OSError ENOENT)
  end.

Fixpoint put (name data : text) (es : list (text * node)) : list (text * node) :=
  match es with
  | [] => [(name, File true data)]
  | (n, c) :: es' =>
      if text_eqb name n then (n, File true data) :: es'
      else (n, c) :: put name data es'
  end.

(** The tree with the entries of the directory at [path] replaced. *)
Fixpoint update (n : node) (path : list text)
    (f : list (text * node) -> list (text * node)) : node :=
  match path with
  | [] =>
      match n with
      | Dir a es => Dir a (f es)
      | File _ _ => n
      end
  | name :: path' =>
      match n with
      | Dir a es =>
          Dir a (map (fun e => if text_eqb name (fst e)
                               then (fst e, update (snd e) path' f) else e) es)
      | File _ _ => n
      end
  end.

(** [with open(p, 'w') as f: f.write(data)]: the file is created or
    truncated, then written.  When the directory part of the path cannot be
    resolved the call fails with the error of the resolution; for a path
    that ends in a slash the operating system may report [EISDIR] in its
    place. *)
Definition write_file (fs : filesystem) (p data : text) : result filesystem :=
  if has_nul p then Raise ValueError
  else
    match p with
    | [] => Raise (OSError ENOENT)
    | _ :: _ =>
        let comps := split p in
        parent <- walk (root fs) (start fs p) (removelast comps) ;;
        let name := last comps [] in
        match get (root fs) parent with
        | Some (Dir true es) =>
            if is_dot name || is_dotdot name then Raise (OSError EISDIR)
            else
              match lookup name es with
              | Some (File false _) => Raise (OSError EACCES)
              | Some (Dir _ _) => Raise (OSError EISDIR)
              | Some (File true _) | None =>
                  Ok (mkFS (update (root fs) parent (put name data)) (cwd fs))
              end
        | Some (Dir false _) => Raise (OSError EACCES)
        | Some (File _ _) => Raise (OSError ENOTDIR)
        | None => Raise (OSError ENOENT)
        end
    end.

(** [os.path.isfile(p)]: false on any error. *)
Definition isfile (fs : filesystem) (p : text) : bool :=
  match locate fs p with
  | Ok cp =>
      match get (root fs) cp with
      | Some (File _ _) => true
      | _ => false
      end
  | Raise _ => false
  end.

(** [os.listdir(p)] *)
Definition listdir (fs : filesystem) (p : text) : result (list text) :=
  cp <- locate fs p ;;
  match get (root fs) cp with
  | Some (Dir true es) => Ok (map fst es)
  | Some (Dir false _) => Raise (OSError EACCES)
  | Some (File _ _) => Raise (OSError ENOTDIR)
  | None => Raise (OSError ENOENT)
  end.

Definition ends_with_slash (p : text) : bool :=
  match rev p with
  | c :: _ => c =? SLASH
  | [] => false
  end.

(** [os.path.join(a, b)] of [posixpath]. *)
Definition os_path_join (a b : text) : text :=
  match b with
  | c :: _ =>
      if c =? SLASH then b
      else if (match a with [] => true | _ :: _ => false end) || ends_with_slash a
      then a ++ b
      else a ++ SLASH :: b
  | [] =>
      if (match a with [] => true | _ :: _ => false end) || ends_with_slash a
      then a ++ b
      else a ++ SLASH :: b
  end.

(** ** Processes *)

Record process := mkProcess {
  p_pid : Z;
  p_pgid : Z;
  p_uid : N
}.

Record system := mkSystem {
  procs : list process;
  self_pgid : Z;       (* the process group of the caller *)
  self_pid : Z;
  euid : N             (* the effective user of the caller *)
}.

Definition may_signal (sys : system) (p : process) : bool :=
  (euid sys =? 0) || (euid sys =? p_uid p).

(** The processes [kill(pid, sig)] addresses. *)
Definition targets (sys : system) (pid : Z) : list process :=
  if (0 <? pid)%Z then filter (fun p => (p_pid p =? pid)%Z) (procs sys)
  else if (pid =? 0)%Z then filter (fun p => (p_pgid p =? self_pgid sys)%Z) (procs sys)
  else if (pid =? -1)%Z
  then filter (fun p => negb (p_pid p =? 1)%Z && negb (p_pid p =? self_pid sys)%Z) (procs sys)
  else filter (fun p => (p_pgid p =? - pid)%Z) (procs sys).

(** [kill(pid, 0)]: nothing is sent, existence and permission are checked. *)
Definition kill0 (sys : system) (pid : Z) : result unit :=
  match targets sys pid with
  | [] => Raise (OSError ESRCH)
  | ts => if existsb (may_signal sys) ts then Ok tt else Raise (OSError EPERM)
  end.

Definition PID_MIN : Z := - 2147483648.
Definition PID_MAX : Z := 2147483647.

(** [os.kill(pid, 0)]: the argument is converted to a C [pid_t] first. *)
Definition os_kill0 (sys : system) (pid : pyval) : result unit :=
  match pid with
  | PInt z =>
      if ((PID_MIN <=? z) && (z <=? PID_MAX))%Z then kill0 sys z
      else Raise OverflowError
  | PBool b => kill0 sys (if b then 1 else 0)%Z
  | _ => Raise TypeError
  end.

(** ** The methods of [RunData] and [EnumerateRunDirectory] *)

Definition FromFile (fs : filesystem) (filename : text) : result RunData :=
  data <- read_file fs filename ;;
  d <- loads data ;;
  RunData_kwargs d.

Definition SaveToFile (self : RunData) (fs : filesystem) (directory : text)
  : result (filesystem * text) :=
  match station_name self with
  | PStr name =>
      let filename := os_path_join directory name in
      fs' <- write_file fs filename (AsJson self) ;;
      Ok (fs', filename)
  | _ => Raise TypeError
  end.

Definition IsAlive (self : RunData) (sys : system) : result bool :=
  match os_kill0 sys (pid self) with
  | Ok _ => Ok true
  | Raise (OSError _) => Ok false
  | Raise e => Raise e
  end.

(** The list comprehension of [EnumerateRunDirectory]: the paths are visited
    in order and the first exception ends the evaluation. *)
Fixpoint load_files (fs : filesystem) (filepaths : list text) : result (list RunData) :=
  match filepaths with
  | [] => Ok []
  | filepath :: rest =>
      if isfile fs filepath then
        r <- FromFile fs filepath ;;
        rs <- load_files fs rest ;;
        Ok (r :: rs)
      else load_files fs rest
  end.

Definition EnumerateRunDirectory (fs : filesystem) (directory : text)
  : result (list RunData) :=
  filenames <- listdir fs directory ;;
  let filepaths := map (os_path_join directory) filenames in
  load_files fs filepaths.

(** * Notions used in the statements *)

(** ** Orders on keys *)

Definition key_le {A} (x y : text * A) : Prop := text_leb (fst x) (fst y) = true.

Fixpoint ascending (ks : list text) : bool :=
  match ks with
  | [] => true
  | k1 :: t =>
      match t with
      | [] => true
      | k2 :: _ => text_ltb k1 k2
      end && ascending t
  end.

(** ** The layout of [AsJson]

    The canonical form as the specification words it: an opening brace, the
    seven pairs in ascending key order, each on a line of its own behind four
    spaces, the key in quotes, a colon and a space before the value, a comma
    after every pair but the last, and the closing brace on the last line. *)





Definition example_record : RunData :=
  mkRunData (PStr (lit "st")) (PInt 4) (PStr (lit "t")) (PStr (lit "v"))
    (PStr (lit "localhost")) (PInt 8080) (PInt 12345).

(** ** Processes of the examples *)

(** The caller is process 4242 of user 1000; process 1 belongs to user 0. *)
Definition example_system : system :=
  mkSystem [mkProcess 1 1 0; mkProcess 4242 4242 1000] 4242 4242 1000.

Definition record_of_pid (p : pyval) : RunData :=
  mkRunData (PStr (lit "st")) (PInt 4) (PStr (lit "t")) (PStr (lit "v"))
    (PStr (lit "localhost")) (PInt 8080) p.

(** A process with this pid is in the table. *)
Definition process_exists (sys : system) (z : Z) : Prop :=
  exists p, In p (procs sys) /\ p_pid p = z.

(** A process with this pid is in the table and the caller may signal it. *)
Definition process_reachable (sys : system) (z : Z) : Prop :=
  exists p, In p (procs sys) /\ p_pid p = z /\ may_signal sys p = true.

(** ** Values that JSON represents exactly

    A Unicode scalar value is a code point that is not a surrogate; a text of
    scalar values is what a UTF-8 file can hold. *)

Definition is_scalar_value (c : N) : bool :=
  (c <? 55296) || ((57343 <? c) && (c <? 1114112)).

Definition is_text (s : text) : bool := forallb is_scalar_value s.

(** Null, booleans, integers, texts, and lists and dictionaries of such
    values.  A float is left out, its text form being outside the model; a
    dictionary is taken with its keys in ascending order, the order being
    no part of its value. *)
Fixpoint representable (v : pyval) : bool :=
  match v with
  | PNone | PBool _ | PInt _ => true
  | PFloat _ => false
  | PStr s => is_text s
  | PList l => forallb representable l
  | PDict items =>
      ascending (map fst items)
      && forallb (fun kv => is_text (fst kv) && representable (snd kv)) items
  end.

(** A record with all seven fields populated with such values. *)
Definition valid_record (r : RunData) : bool :=
  representable (station_name r) && representable (cell_count r)
  && representable (test_type r) && representable (test_version r)
  && representable (http_host r) && representable (http_port r)
  && representable (pid r).

(** The number of values in a value, and one more for every member of a
    container. *)
Fixpoint size (v : pyval) : nat :=
  match v with
  | PList l => S (fold_right (fun x n => S (size x + n)) O l)
  | PDict items => S (fold_right (fun kv n => S (size (snd kv) + n)) O items)
  | _ => 1
  end.

(** What may follow a number: nothing, or a character that cannot extend
    it. *)
Definition ends_number (s : text) : bool :=
  match s with
  | [] => true
  | c :: _ => negb (is_digit c || (c =? 46) || (c =? 101) || (c =? 69))
  end.

(** What [join_chunks] writes after the first chunk. *)
Definition more_chunks (level : nat) (cs : list text) : text :=
  flat_map (fun c' => item_separator ++ newline_indent (S level) ++ c') cs
    ++ newline_indent level.

(** A member of an object at a level: the key, the separator, the value. *)
Definition member_text (level : nat) (kv : text * pyval) : text :=
  encode_basestring_ascii (fst kv) ++ key_separator ++ iterencode level (snd kv).

(** The first character of a text is neither white space nor a closing
    bracket. *)
Definition starts_value (s : text) : bool :=
  match s with
  | c :: _ => negb (is_ws c) && negb (c =? 93) && negb (c =? 125)
  | [] => false
  end.

Definition list_size (l : list pyval) : nat :=
  fold_right (fun x n => S (size x + n)) O l.

Definition items_size (items : list (text * pyval)) : nat :=
  fold_right (fun kv n => S (size (snd kv) + n)) O items.

(** The scanner reads the encoding of [v] back, whatever sensible text
    follows it, at any level and with any fuel from [size v] on. *)
Definition scans_back (parse_constant : text -> option pyval) (v : pyval) : Prop :=
  forall (fuel level : nat) (rest : text),
    (size v <= fuel)%nat -> ends_number rest = true ->
    scan_once parse_constant fuel (iterencode level v ++ rest) = Some (v, rest).

(** The items of [_asdict] in the order in which [json.dumps] writes them. *)
Definition sorted_items (r : RunData) : list (text * pyval) :=
  [(lit "cell_count", cell_count r); (lit "http_host", http_host r);
   (lit "http_port", http_port r); (lit "pid", pid r);
   (lit "station_name", station_name r); (lit "test_type", test_type r);
   (lit "test_version", test_version r)].

(** ** Texts and records of the examples *)

(** A hook that raises for every name, as [parse_constant] may. *)
Definition reject_constant (name : text) : option pyval := None.

(** A record whose cell count is the float that is not a number. *)
Definition nan_record : RunData :=
  mkRunData (PStr (lit "st")) (PFloat (lit "NaN")) (PStr (lit "t")) (PStr (lit "v"))
    (PStr (lit "localhost")) (PInt 8080) (PInt 12345).

(** The members of [example_record] on one line, in field order. *)
Definition example_text_field_order : text :=
  lit "{" ++ encode_basestring_ascii (lit "station_name") ++ lit ":"
    ++ encode_basestring_ascii (lit "st") ++ lit ","
    ++ encode_basestring_ascii (lit "cell_count") ++ lit ":4,"
    ++ encode_basestring_ascii (lit "test_type") ++ lit ":"
    ++ encode_basestring_ascii (lit "t") ++ lit ","
    ++ encode_basestring_ascii (lit "test_version") ++ lit ":"
    ++ encode_basestring_ascii (lit "v") ++ lit ","
    ++ encode_basestring_ascii (lit "http_host") ++ lit ":"
    ++ encode_basestring_ascii (lit "localhost") ++ lit ","
    ++ encode_basestring_ascii (lit "http_port") ++ lit ":8080,"
    ++ encode_basestring_ascii (lit "pid") ++ lit ":12345}".

(** ** File names and directories

    A plain name is what a directory entry can be called: not empty, not
    [.] or [..], without a slash and without a NUL. *)

Definition plain_name (name : text) : bool :=
  negb (is_dot name) && negb (is_dotdot name)
  && negb (existsb (N.eqb SLASH) name) && negb (has_nul name).

(** [open(name, 'w')] is allowed in a directory with these entries: the name
    is free or is that of a file this process may rewrite. *)
Definition may_write (name : text) (es : list (text * node)) : bool :=
  match lookup name es with
  | Some (File true _) | None => true
  | Some (File false _) | Some (Dir _ _) => false
  end.

(** The path names a directory this process may use, with these entries. *)
Definition is_directory (fs : filesystem) (p : text) (es : list (text * node)) : Prop :=
  exists dp, locate fs p = Ok dp /\ get (root fs) dp = Some (Dir true es).

Definition is_regular (n : node) : bool :=
  match n with
  | File _ _ => true
  | Dir _ _ => false
  end.

(** ** File systems of the examples *)

Definition record_of_station (name : text) : RunData :=
  mkRunData (PStr name) (PInt 4) (PStr (lit "t")) (PStr (lit "v"))
    (PStr (lit "localhost")) (PInt 8080) (PInt 12345).

Definition record_named (name : string) : RunData := record_of_station (lit name).

(** A run directory that lists [b] before [a], and a subdirectory last. *)
Definition run_entries : list (text * node) :=
  [(lit "b", File true (AsJson (record_named "b")));
   (lit "a", File true (AsJson (record_named "a")));
   (lit "not-a-file", Dir true [])].

Definition example_fs : filesystem :=
  mkFS (Dir true [(lit "run", Dir true run_entries)]) [].

(** A run directory with a record, a file that is not JSON, and another
    record. *)
Definition broken_entries : list (text * node) :=
  [(lit "a", File true (AsJson (record_named "a")));
   (lit "bad", File true (lit "{"));
   (lit "b", File true (AsJson (record_named "b")))].

Definition broken_fs : filesystem :=
  mkFS (Dir true [(lit "run", Dir true broken_entries)]) [].

(** A run directory in which the file of station [st] holds something
    else. *)
Definition stale_fs : filesystem :=
  mkFS (Dir true [(lit "run", Dir true [(lit "st", File true (lit "old"))])]) [].

(** ** Further notions *)

(** The values [os.kill] takes for a pid: an [int], of which [bool] is a
    subclass. *)
Definition is_int (v : pyval) : bool :=
  match v with
  | PInt _ | PBool _ => true
  | _ => false
  end.

(** A process of the caller's group that the caller may signal. *)
Definition group_reachable (sys : system) : Prop :=
  exists p, In p (procs sys) /\ p_pgid p = self_pgid sys /\ may_signal sys p = true.

(** The keys of an object are field names, and every field of the record is
    the value of its key. *)
Definition holds_record (items : list (text * pyval)) (r : RunData) : Prop :=
  (forall k, In k (map fst items) -> In k fields)
  /\ Forall (fun kv => getitem (fst kv) items = Some (snd kv)) (_asdict r).

(** A line break or a printable ASCII character. *)
Definition printable (c : N) : bool :=
  (c =? 10) || ((32 <=? c) && (c <=? 126)).

Definition ascii_text (s : text) : Prop := Forall (fun c => printable c = true) s.

(** No float anywhere in the value. *)
Fixpoint float_free (v : pyval) : bool :=
  match v with
  | PFloat _ => false
  | PList l => forallb float_free l
  | PDict items => forallb (fun kv => float_free (snd kv)) items
  | _ => true
  end.

(** ** The JSON grammar

    The grammar of ECMA-404 in the form json.org gives it, rule by rule and
    under the names it has there.  For a rule [x], [x s r] reads: a text that
    the rule derives stands at the head of [s], and [r] is what follows it.
    With [names] the three names [NaN], [Infinity] and [-Infinity], which
    JSON does not have, count as values as well. *)

Definition onenine (c : N) : Prop := 49 <= c <= 57.

Definition digit (c : N) : Prop := c = 48 \/ onenine c.

Definition hex (c : N) : Prop := digit c \/ 65 <= c <= 70 \/ 97 <= c <= 102.

Inductive ws : text -> text -> Prop :=
| ws_empty s : ws s s
| ws_space s r : ws s r -> ws (32 :: s) r
| ws_linefeed s r : ws s r -> ws (10 :: s) r
| ws_return s r : ws s r -> ws (13 :: s) r
| ws_tab s r : ws s r -> ws (9 :: s) r.

Inductive digits : text -> text -> Prop :=
| digits_one c s : digit c -> digits (c :: s) s
| digits_more c s r : digit c -> digits s r -> digits (c :: s) r.

Inductive integer : text -> text -> Prop :=
| integer_digit c s : digit c -> integer (c :: s) s
| integer_digits c s r : onenine c -> digits s r -> integer (c :: s) r
| integer_minus_digit c s : digit c -> integer (45 :: c :: s) s
| integer_minus_digits c s r : onenine c -> digits s r -> integer (45 :: c :: s) r.

Inductive fraction : text -> text -> Prop :=
| fraction_empty s : fraction s s
| fraction_digits s r : digits s r -> fraction (46 :: s) r.

Inductive sign : text -> text -> Prop :=
| sign_empty s : sign s s
| sign_plus s : sign (43 :: s) s
| sign_minus s : sign (45 :: s) s.

Inductive exponent : text -> text -> Prop :=
| exponent_empty s : exponent s s
| exponent_E s s1 r : sign s s1 -> digits s1 r -> exponent (69 :: s) r
| exponent_e s s1 r : sign s s1 -> digits s1 r -> exponent (101 :: s) r.

Inductive number : text -> text -> Prop :=
| number_parts s s1 s2 r :
    integer s s1 -> fraction s1 s2 -> exponent s2 r -> number s r.

(** The letters of the two-character escapes: the quotation mark, the
    backslash, the slash, and b, f, n, r, t. *)
Definition escape_letter (c : N) : Prop := In c [34; 92; 47; 98; 102; 110; 114; 116].

Inductive characters : text -> text -> Prop :=
| characters_empty s : characters s s
| characters_plain c s r :
    32 <= c <= 1114111 -> c <> 34 -> c <> 92 ->
    characters s r -> characters (c :: s) r
| characters_escape c s r :
    escape_letter c -> characters s r -> characters (92 :: c :: s) r
| characters_u h1 h2 h3 h4 s r :
    hex h1 -> hex h2 -> hex h3 -> hex h4 ->
    characters s r -> characters (92 :: 117 :: h1 :: h2 :: h3 :: h4 :: s) r.

Inductive jstring : text -> text -> Prop :=
| jstring_quoted s r : characters s (34 :: r) -> jstring (34 :: s) r.

Inductive value (names : bool) : text -> text -> Prop :=
| value_object s r : object names s r -> value names s r
| value_array s r : array names s r -> value names s r
| value_string s r : jstring s r -> value names s r
| value_number s r : number s r -> value names s r
| value_true s : value names (lit "true" ++ s) s
| value_false s : value names (lit "false" ++ s) s
| value_null s : value names (lit "null" ++ s) s
| value_NaN s : names = true -> value names (lit "NaN" ++ s) s
| value_Infinity s : names = true -> value names (lit "Infinity" ++ s) s
| value_minus_Infinity s : names = true -> value names (lit "-Infinity" ++ s) s

with object (names : bool) : text -> text -> Prop :=
| object_empty s r : ws s (125 :: r) -> object names (123 :: s) r
| object_members s r : members names s (125 :: r) -> object names (123 :: s) r

with members (names : bool) : text -> text -> Prop :=
| members_one s r : member names s r -> members names s r
| members_more s s1 r :
    member names s (44 :: s1) -> members names s1 r -> members names s r

with member (names : bool) : text -> text -> Prop :=
| member_pair s s1 s2 s3 r :
    ws s s1 -> jstring s1 s2 -> ws s2 (58 :: s3) -> element names s3 r ->
    member names s r

with array (names : bool) : text -> text -> Prop :=
| array_empty s r : ws s (93 :: r) -> array names (91 :: s) r
| array_elements s r : elements names s (93 :: r) -> array names (91 :: s) r

with elements (names : bool) : text -> text -> Prop :=
| elements_one s r : element names s r -> elements names s r
| elements_more s s1 r :
    element names s (44 :: s1) -> elements names s1 r -> elements names s r

with element (names : bool) : text -> text -> Prop :=
| element_value s s1 s2 r :
    ws s s1 -> value names s1 s2 -> ws s2 r -> element names s r.

(** A JSON text is an element with nothing after it. *)
Definition json (names : bool) (s : text) : Prop := element names s [].

(** The code points of a [str]. *)
Definition is_str (s : text) : bool := forallb (fun c => c <=? 1114111) s.

(** What may stand after an element: nothing, a comma or a closing
    bracket. *)
Definition closes (r : text) : bool :=
  match r with
  | [] => true
  | c :: _ => (c =? 44) || (c =? 93) || (c =? 125)
  end.

Scheme value_mut := Minimality for value Sort Prop
  with object_mut := Minimality for object Sort Prop
  with members_mut := Minimality for members Sort Prop
  with member_mut := Minimality for member Sort Prop
  with array_mut := Minimality for array Sort Prop
  with elements_mut := Minimality for elements Sort Prop
  with element_mut := Minimality for element Sort Prop.

Combined Scheme grammar_ind from value_mut, object_mut, members_mut, member_mut,
  array_mut, elements_mut, element_mut.

(** ** Equality of records

    [r1 == r2] on two records is the equality of tuples: the fields are
    compared in turn with [==].  On the values of the model [==] holds between
    two integers or booleans of the same numeric value ([True == 1]), two
    equal strings, two lists of the same length with equal elements and two
    dictionaries with the same keys and equal values under every key, and
    [None == None]; values of different kinds are unequal.  How a float
    compares with a number depends on its numeric value, which the model does
    not have: [None] stands for an answer that the model leaves open. *)











(** * Properties *)

(** ** Text comparison *)

Lemma text_eqb_eq (a b : text) : text_eqb a b = true <-> a = b.
Proof.
  revert b; induction a as [|x a IH]; intros [|y b]; simpl; split;
    try congruence; try discriminate.
  - intros H. apply andb_true_iff in H as [H1 H2].
    apply N.eqb_eq in H1. apply IH in H2. congruence.
  - intros H. injection H as -> ->. rewrite N.eqb_refl. simpl. now apply IH.
Qed.

Lemma text_eqb_refl (a : text) : text_eqb a a = true.
Proof. now apply text_eqb_eq. Qed.

Lemma text_eqb_neq (a b : text) : text_eqb a b = false <-> a <> b.
Proof.
  split.
  - intros H E. apply text_eqb_eq in E. congruence.
  - intros H. destruct (text_eqb a b) eqn:E; [|reflexivity].
    apply text_eqb_eq in E. contradiction.
Qed.

Lemma text_leb_refl (a : text) : text_leb a a = true.
Proof.
  induction a as [|x a IH]; simpl; [reflexivity|].
  now rewrite N.ltb_irrefl.
Qed.

Lemma text_leb_total (a b : text) : text_leb a b = false -> text_leb b a = true.
Proof.
  revert b; induction a as [|x a IH]; intros [|y b]; simpl; try congruence.
  destruct (N.ltb_spec x y), (N.ltb_spec y x); try congruence; try lia.
  apply IH.
Qed.

Lemma text_leb_trans (a b c : text) :
  text_leb a b = true -> text_leb b c = true -> text_leb a c = true.
Proof.
  revert b c; induction a as [|x a IH]; intros [|y b] [|z c]; simpl;
    try congruence.
  destruct (N.ltb_spec x y), (N.ltb_spec y x), (N.ltb_spec y z),
    (N.ltb_spec z y), (N.ltb_spec x z), (N.ltb_spec z x);
    try congruence; try lia.
  apply IH.
Qed.

Lemma text_leb_antisym (a b : text) :
  text_leb a b = true -> text_leb b a = true -> a = b.
Proof.
  revert b; induction a as [|x a IH]; intros [|y b]; simpl; try congruence.
  destruct (N.ltb_spec x y), (N.ltb_spec y x); try congruence; try lia.
  intros H1 H2. assert (x = y) by lia. subst. f_equal. now apply IH.
Qed.

Lemma text_ltb_leb (a b : text) : text_ltb a b = true -> text_leb a b = true.
Proof.
  unfold text_ltb. intros H. apply text_leb_total.
  now destruct (text_leb b a).
Qed.

Lemma text_ltb_irrefl (a : text) : text_ltb a a = false.
Proof. unfold text_ltb. now rewrite text_leb_refl. Qed.

Lemma text_ltb_trans (a b c : text) :
  text_ltb a b = true -> text_ltb b c = true -> text_ltb a c = true.
Proof.
  unfold text_ltb. intros H1 H2.
  destruct (text_leb c a) eqn:E; [|reflexivity].
  assert (text_leb b a = true).
  { apply text_leb_trans with c; [|exact E].
    apply text_leb_total. now destruct (text_leb c b). }
  rewrite H in H1. discriminate.
Qed.

(** ** Sorting by key *)

Section Sorting.

Context {A : Type}.

Lemma insert_by_key_perm (kv : text * A) (l : list (text * A)) :
  Permutation (kv :: l) (insert_by_key kv l).
Proof.
  induction l as [|h t IH]; simpl; [reflexivity|].
  destruct (text_leb (fst kv) (fst h)); [reflexivity|].
  rewrite perm_swap. now constructor.
Qed.

Lemma sort_by_key_perm (l : list (text * A)) : Permutation l (sort_by_key l).
Proof.
  induction l as [|h t IH]; simpl; [constructor|].
  rewrite <- insert_by_key_perm. now constructor.
Qed.

Lemma insert_by_key_sorted (kv : text * A) (l : list (text * A)) :
  StronglySorted key_le l -> StronglySorted key_le (insert_by_key kv l).
Proof.
  induction 1 as [|h t Ht IH Hh]; simpl.
  - repeat constructor.
  - destruct (text_leb (fst kv) (fst h)) eqn:E.
    + constructor; [now constructor|].
      constructor; [exact E|].
      eapply Forall_impl; [|exact Hh].
      intros y Hy. unfold key_le in *. now apply text_leb_trans with (fst h).
    + constructor; [exact IH|].
      eapply Permutation_Forall; [apply insert_by_key_perm|].
      constructor; [|exact Hh].
      now apply text_leb_total.
Qed.

Lemma sort_by_key_sorted (l : list (text * A)) : StronglySorted key_le (sort_by_key l).
Proof.
  induction l as [|h t IH]; simpl; [constructor|].
  now apply insert_by_key_sorted.
Qed.

(** Two sorted arrangements of the same items with distinct keys are the same
    list. *)
Lemma sorted_perm_unique (l1 l2 : list (text * A)) :
  NoDup (map fst l1) -> StronglySorted key_le l1 -> StronglySorted key_le l2 ->
  Permutation l1 l2 -> l1 = l2.
Proof.
  revert l2; induction l1 as [|x l1 IH]; intros l2 Hnd H1 H2 Hp.
  - now apply Permutation_nil in Hp.
  - destruct l2 as [|y l2].
    { symmetry in Hp. now apply Permutation_nil in Hp. }
    inversion H1 as [|? ? H1' Hx]; subst.
    inversion H2 as [|? ? H2' Hy]; subst.
    inversion Hnd as [|? ? Hnx Hnd']; subst.
    assert (Exy : x = y).
    { assert (Hin : In x (y :: l2)) by (eapply Permutation_in; [exact Hp|now left]).
      destruct Hin as [E|Hin]; [congruence|].
      assert (Hin' : In y (x :: l1)).
      { eapply Permutation_in; [symmetry; exact Hp|now left]. }
      destruct Hin' as [E|Hin']; [congruence|].
      rewrite Forall_forall in Hx, Hy.
      assert (fst x = fst y).
      { apply text_leb_antisym; [now apply Hx|now apply Hy]. }
      exfalso. apply Hnx. rewrite H. now apply in_map. }
    subst y. f_equal. apply IH; auto.
    now apply Permutation_cons_inv in Hp.
Qed.

Lemma sort_by_key_perm_eq (l1 l2 : list (text * A)) :
  NoDup (map fst l1) -> Permutation l1 l2 -> sort_by_key l1 = sort_by_key l2.
Proof.
  intros Hnd Hp. apply sorted_perm_unique.
  - eapply Permutation_NoDup; [|exact Hnd].
    apply Permutation_map, sort_by_key_perm.
  - apply sort_by_key_sorted.
  - apply sort_by_key_sorted.
  - rewrite <- sort_by_key_perm, <- sort_by_key_perm. exact Hp.
Qed.

End Sorting.

(** ** Keys in ascending order *)

Lemma ascending_below (k : text) (ks : list text) :
  ascending (k :: ks) = true -> Forall (fun k' => text_ltb k k' = true) ks.
Proof.
  revert k; induction ks as [|k2 ks IH]; intros k H; [constructor|].
  simpl in H. apply andb_true_iff in H as [H1 H2].
  constructor; [exact H1|].
  eapply Forall_impl; [|apply IH, H2].
  intros k' Hk'. now apply text_ltb_trans with k2.
Qed.

Lemma ascending_tail (k : text) (ks : list text) :
  ascending (k :: ks) = true -> ascending ks = true.
Proof. simpl. intros H. now apply andb_true_iff in H as [_ H]. Qed.

Lemma ascending_NoDup (ks : list text) : ascending ks = true -> NoDup ks.
Proof.
  induction ks as [|k ks IH]; intros H; constructor.
  - intros Hin. apply ascending_below in H.
    rewrite Forall_forall in H. apply H in Hin.
    now rewrite text_ltb_irrefl in Hin.
  - now apply IH, ascending_tail with k.
Qed.

Lemma sort_by_key_ascending {A} (l : list (text * A)) :
  ascending (map fst l) = true -> sort_by_key l = l.
Proof.
  induction l as [|[k v] l IH]; intros H; [reflexivity|].
  simpl. rewrite IH by now apply ascending_tail with k.
  destruct l as [|[k2 v2] l]; [reflexivity|].
  simpl in *. apply andb_true_iff in H as [H _].
  now rewrite (text_ltb_leb _ _ H).
Qed.

Lemma NoDup_fields : NoDup fields.
Proof.
  cbv. repeat (constructor; [simpl; intuition discriminate|]). constructor.
Qed.


(** ** The layout of [AsJson] *)











Lemma AsJson_asdict (r : RunData) : AsJson r = dumps (PDict (_asdict r)).
Proof. destruct r. reflexivity. Qed.

(** C10: the assignment to the [http_host] entry in [AsJson] changes nothing:
    the text is the one [json.dumps] gives for [_asdict()] itself with the
    same arguments. *)
Theorem AsJson_without_reassignment (r : RunData) :
  AsJson r = dumps (PDict (_asdict r))
  /\ setitem (lit "http_host") (http_host r) (_asdict r) = _asdict r.
Proof. split; [apply AsJson_asdict|]. destruct r. reflexivity. Qed.

Lemma dumps_dict_perm (d1 d2 : list (text * pyval)) :
  NoDup (map fst d1) -> Permutation d1 d2 -> dumps (PDict d1) = dumps (PDict d2).
Proof.
  intros Hnd Hp. unfold dumps.
  destruct d1 as [|x d1].
  { apply Permutation_nil in Hp. now subst. }
  destruct d2 as [|y d2].
  { symmetry in Hp. now apply Permutation_nil in Hp. }
  cbn [iterencode]. do 4 f_equal.
  apply sort_by_key_perm_eq.
  - rewrite map_map. exact Hnd.
  - now apply Permutation_map.
Qed.

(** ** The liveness probe *)

Lemma targets_positive (sys : system) (z : Z) :
  (0 < z)%Z -> targets sys z = filter (fun p => (p_pid p =? z)%Z) (procs sys).
Proof. intros H. unfold targets. now apply Z.ltb_lt in H as ->. Qed.

Lemma kill0_ok (sys : system) (z : Z) :
  (0 < z)%Z -> (kill0 sys z = Ok tt <-> process_reachable sys z).
Proof.
  intros Hz. unfold kill0, process_reachable. rewrite targets_positive by exact Hz.
  destruct (filter _ (procs sys)) as [|t ts] eqn:E.
  - split; [discriminate|].
    intros [p [Hin [Hp _]]].
    assert (Hf : In p (filter (fun p => (p_pid p =? z)%Z) (procs sys))).
    { apply filter_In. split; [exact Hin|]. now apply Z.eqb_eq. }
    rewrite E in Hf. destruct Hf.
  - rewrite <- E. clear E t ts.
    destruct (existsb _ _) eqn:Ex.
    + split; [intros _|reflexivity].
      apply existsb_exists in Ex as [p [Hin Hs]].
      apply filter_In in Hin as [Hin Hp]. apply Z.eqb_eq in Hp.
      now exists p.
    + split; [discriminate|].
      intros [p [Hin [Hp Hs]]].
      assert (Ht : existsb (may_signal sys)
                     (filter (fun p => (p_pid p =? z)%Z) (procs sys)) = true).
      { apply existsb_exists. exists p. split; [|exact Hs].
        apply filter_In. split; [exact Hin|]. now apply Z.eqb_eq. }
      congruence.
Qed.

Lemma kill0_result (sys : system) (z : Z) :
  kill0 sys z = Ok tt \/ kill0 sys z = Raise (OSError ESRCH)
  \/ kill0 sys z = Raise (OSError EPERM).
Proof.
  unfold kill0. destruct (targets sys z); [now right; left|].
  destruct (existsb _ _); [now left|now right; right].
Qed.

Lemma kill0_no_process (sys : system) (z : Z) :
  (0 < z)%Z -> ~ process_exists sys z -> kill0 sys z = Raise (OSError ESRCH).
Proof.
  intros Hz Hn. unfold kill0. rewrite targets_positive by exact Hz.
  destruct (filter _ (procs sys)) as [|t ts] eqn:E; [reflexivity|].
  exfalso. apply Hn. exists t.
  assert (Hf : In t (filter (fun p => (p_pid p =? z)%Z) (procs sys))).
  { rewrite E. now left. }
  apply filter_In in Hf as [Hin Hp]. apply Z.eqb_eq in Hp. now split.
Qed.

(** C8, as the code has it: a process that exists but that the caller may not
    signal is reported as not alive, although the claim promises true for
    every existing process. *)
Lemma IsAlive_false_for_existing_process :
  process_exists example_system 1
  /\ IsAlive (record_of_pid (PInt 1)) example_system = Ok false.
Proof.
  split; [|reflexivity].
  exists (mkProcess 1 1 0). split; [now left|reflexivity].
Qed.

(** C8, amended: for a pid in the range of process ids, [IsAlive] returns true
    exactly when a process with that pid exists and the caller may signal it,
    and false otherwise, in particular when no process has that pid; it
    never lets an [OSError] through, whatever the record holds. *)
Theorem IsAlive_probe (r : RunData) (sys : system) :
  (forall e, IsAlive r sys <> Raise (OSError e))
  /\ (forall z, pid r = PInt z -> (0 < z <= PID_MAX)%Z ->
        (IsAlive r sys = Ok true <-> process_reachable sys z)
        /\ (IsAlive r sys = Ok false <-> ~ process_reachable sys z)
        /\ (~ process_exists sys z -> IsAlive r sys = Ok false)).
Proof.
  split.
  - intros e. unfold IsAlive.
    destruct (os_kill0 sys (pid r)) as [u|[]]; discriminate.
  - intros z Hpid [Hlo Hhi].
    assert (Hk : os_kill0 sys (pid r) = kill0 sys z).
    { rewrite Hpid. unfold os_kill0.
      replace ((PID_MIN <=? z)%Z && (z <=? PID_MAX)%Z) with true; [reflexivity|].
      symmetry. apply andb_true_iff. unfold PID_MIN, PID_MAX in *.
      split; apply Z.leb_le; lia. }
    pose proof (kill0_ok sys z Hlo) as Hok.
    unfold IsAlive. rewrite Hk.
    destruct (kill0_result sys z) as [H|[H|H]]; rewrite H in *.
    + split; [|split].
      * split; [intros _; now apply Hok|reflexivity].
      * split; [discriminate|]. intros Hn. exfalso. apply Hn. now apply Hok.
      * intros Hn. exfalso. apply Hn.
        destruct (proj1 Hok eq_refl) as [p [Hin [Hp _]]]. now exists p.
    + split; [|split].
      * split; [discriminate|]. intros Hr. apply Hok in Hr. discriminate.
      * split; [|reflexivity]. intros _ Hr. apply Hok in Hr. discriminate.
      * reflexivity.
    + split; [|split].
      * split; [discriminate|]. intros Hr. apply Hok in Hr. discriminate.
      * split; [|reflexivity]. intros _ Hr. apply Hok in Hr. discriminate.
      * reflexivity.
Qed.

Lemma IsAlive_probe_witness :
  pid (record_of_pid (PInt 4242)) = PInt 4242
  /\ (0 < 4242 <= PID_MAX)%Z
  /\ (IsAlive (record_of_pid (PInt 4242)) example_system = Ok true
      <-> process_reachable example_system 4242).
Proof.
  split; [reflexivity|].
  split; [unfold PID_MAX; lia|].
  apply (IsAlive_probe (record_of_pid (PInt 4242)) example_system).
  - reflexivity.
  - unfold PID_MAX. lia.
Defined.

(** ** Strings: [scanstring] reads back what [encode_basestring_ascii] writes *)

Lemma hexval_hexdigit (d : N) : d < 16 -> hexval (hexdigit d) = Some d.
Proof.
  intros H.
  assert (C : d = 0 \/ d = 1 \/ d = 2 \/ d = 3 \/ d = 4 \/ d = 5 \/ d = 6 \/ d = 7
              \/ d = 8 \/ d = 9 \/ d = 10 \/ d = 11 \/ d = 12 \/ d = 13 \/ d = 14
              \/ d = 15) by lia.
  repeat destruct C as [->|C]; try subst d; reflexivity.
Qed.

Lemma hex4_u_escape (n : N) :
  n < 65536 ->
  hex4 (hexdigit ((n / 4096) mod 16)) (hexdigit ((n / 256) mod 16))
       (hexdigit ((n / 16) mod 16)) (hexdigit (n mod 16)) = Some n.
Proof.
  intros H. unfold hex4.
  rewrite !hexval_hexdigit by (apply N.mod_upper_bound; discriminate).
  f_equal.
  replace (n / 4096) with (n / 16 / 16 / 16) by (rewrite !N.Div0.div_div; reflexivity).
  replace (n / 256) with (n / 16 / 16) by (rewrite !N.Div0.div_div; reflexivity).
  zify. Z.to_euclidean_division_equations. lia.
Qed.

Lemma land_high_low (a y : N) : y < 1024 -> N.land (a * 1024) y = 0.
Proof.
  intros H. apply N.bits_inj. intros i. rewrite N.land_spec, N.bits_0.
  change 1024 with (2 ^ 10). rewrite <- N.shiftl_mul_pow2.
  destruct (N.lt_ge_cases i 10) as [Hi|Hi].
  - now rewrite N.shiftl_spec_low.
  - replace (N.testbit y i) with false; [apply andb_false_r|].
    symmetry. destruct (N.eq_dec y 0) as [->|Hy]; [apply N.bits_0|].
    apply N.bits_above_log2.
    assert (N.log2 y < 10) by (apply N.log2_lt_pow2; [lia|exact H]).
    lia.
Qed.

Lemma lor_high_low (a y : N) : y < 1024 -> N.lor (a * 1024) y = a * 1024 + y.
Proof.
  intros H. rewrite N.add_nocarry_lxor by now apply land_high_low.
  symmetry. apply N.lxor_lor. now apply land_high_low.
Qed.

(** The two halves of a code point above the basic plane. *)
Lemma high_half (n : N) :
  n < 1048576 -> N.lor 55296 (N.land (N.shiftr n 10) 1023) = 55296 + n / 1024.
Proof.
  intros H. rewrite N.shiftr_div_pow2. change (2 ^ 10) with 1024.
  change 1023 with (N.ones 10). rewrite N.land_ones. change (2 ^ 10) with 1024.
  assert (n / 1024 < 1024) by (apply N.Div0.div_lt_upper_bound; exact H).
  rewrite N.mod_small by assumption.
  change 55296 with (54 * 1024). now apply lor_high_low.
Qed.

Lemma low_half (n : N) : N.lor 56320 (N.land n 1023) = 56320 + n mod 1024.
Proof.
  change 1023 with (N.ones 10). rewrite N.land_ones. change (2 ^ 10) with 1024.
  change 56320 with (55 * 1024). apply lor_high_low.
  apply N.mod_upper_bound. discriminate.
Qed.

Lemma join_halves (n : N) :
  n < 1048576 ->
  join_surrogates (55296 + n / 1024) (56320 + n mod 1024) = 65536 + n.
Proof.
  intros H. unfold join_surrogates. f_equal.
  replace (55296 + n / 1024 - 55296) with (n / 1024)
    by (generalize (n / 1024); intros; lia).
  replace (56320 + n mod 1024 - 56320) with (n mod 1024)
    by (generalize (n mod 1024); intros; lia).
  rewrite N.shiftl_mul_pow2. change (2 ^ 10) with 1024.
  rewrite lor_high_low by (apply N.mod_upper_bound; discriminate).
  zify. Z.to_euclidean_division_equations. lia.
Qed.

Lemma scanstring_plain (c : N) (s : text) :
  (c =? QUOTE) = false -> (c =? BACKSLASH) = false -> (c <? 32) = false ->
  scanstring (c :: s) = push c (scanstring s).
Proof. intros H1 H2 H3. simpl. now rewrite H1, H2, H3. Qed.

Lemma scanstring_short (e : N) (s : text) :
  (e =? 117) = false ->
  scanstring (BACKSLASH :: e :: s)
  = match unescape e with Some ch => push ch (scanstring s) | None => None end.
Proof. intros H. simpl. now rewrite H. Qed.

Lemma scanstring_u (h1 h2 h3 h4 : N) (s : text) (uni : N) :
  hex4 h1 h2 h3 h4 = Some uni -> is_high_surrogate uni = false ->
  scanstring (BACKSLASH :: 117 :: h1 :: h2 :: h3 :: h4 :: s) = push uni (scanstring s).
Proof. intros H1 H2. simpl. now rewrite H1, H2. Qed.

Lemma scanstring_pair (h1 h2 h3 h4 g1 g2 g3 g4 : N) (s : text) (hi lo : N) :
  hex4 h1 h2 h3 h4 = Some hi -> is_high_surrogate hi = true ->
  hex4 g1 g2 g3 g4 = Some lo -> is_low_surrogate lo = true ->
  scanstring (BACKSLASH :: 117 :: h1 :: h2 :: h3 :: h4
                :: BACKSLASH :: 117 :: g1 :: g2 :: g3 :: g4 :: s)
  = push (join_surrogates hi lo) (scanstring s).
Proof. intros H1 H2 H3 H4. simpl. now rewrite H1, H2, H3, H4. Qed.

Lemma scanstring_escape_char (c : N) (s : text) :
  is_scalar_value c = true ->
  scanstring (escape_char c ++ s) = push c (scanstring s).
Proof.
  intros Hc. unfold escape_char.
  destruct (c =? QUOTE) eqn:E1.
  { apply N.eqb_eq in E1. subst. reflexivity. }
  destruct (c =? BACKSLASH) eqn:E2.
  { apply N.eqb_eq in E2. subst. reflexivity. }
  destruct (c =? 10) eqn:E3.
  { apply N.eqb_eq in E3. subst. reflexivity. }
  destruct (c =? 13) eqn:E4.
  { apply N.eqb_eq in E4. subst. reflexivity. }
  destruct (c =? 9) eqn:E5.
  { apply N.eqb_eq in E5. subst. reflexivity. }
  destruct (c =? 8) eqn:E6.
  { apply N.eqb_eq in E6. subst. reflexivity. }
  destruct (c =? 12) eqn:E7.
  { apply N.eqb_eq in E7. subst. reflexivity. }
  destruct ((32 <=? c) && (c <=? 126)) eqn:E8.
  { apply andb_true_iff in E8 as [E8 _]. apply N.leb_le in E8.
    apply scanstring_plain; auto. apply N.ltb_ge. exact E8. }
  unfold is_scalar_value in Hc.
  destruct (c <? 65536) eqn:E9.
  - apply N.ltb_lt in E9. unfold u_escape.
    apply scanstring_u; [now apply hex4_u_escape|].
    unfold is_high_surrogate.
    apply orb_true_iff in Hc as [Hc|Hc].
    + apply N.ltb_lt in Hc. apply andb_false_iff. left. apply N.leb_gt. exact Hc.
    + apply andb_true_iff in Hc as [Hc _]. apply N.ltb_lt in Hc.
      apply andb_false_iff. right. apply N.leb_gt. lia.
  - apply N.ltb_ge in E9.
    assert (Hn : c - 65536 < 1048576).
    { apply orb_true_iff in Hc as [Hc|Hc].
      - apply N.ltb_lt in Hc. lia.
      - apply andb_true_iff in Hc as [_ Hc]. apply N.ltb_lt in Hc. lia. }
    cbv zeta. remember (c - 65536) as n eqn:En.
    assert (Ec : c = 65536 + n) by lia.
    rewrite high_half by exact Hn. rewrite low_half.
    assert (Hq : n / 1024 < 1024)
      by (apply N.Div0.div_lt_upper_bound; exact Hn).
    assert (Hr : n mod 1024 < 1024)
      by (apply N.mod_upper_bound; discriminate).
    unfold u_escape. cbn [app].
    rewrite Ec, <- join_halves by exact Hn.
    revert Hq Hr. generalize (n / 1024) (n mod 1024). intros q r Hq Hr.
    apply scanstring_pair.
    + apply hex4_u_escape. lia.
    + unfold is_high_surrogate. apply andb_true_iff.
      split; apply N.leb_le; lia.
    + apply hex4_u_escape. lia.
    + unfold is_low_surrogate. apply andb_true_iff.
      split; apply N.leb_le; lia.
Qed.

Lemma scanstring_escaped (s rest : text) :
  is_text s = true ->
  scanstring (flat_map escape_char s ++ QUOTE :: rest) = Some (s, rest).
Proof.
  induction s as [|c s IH]; intros H; [reflexivity|].
  simpl in H. apply andb_true_iff in H as [Hc Hs].
  cbn [flat_map]. rewrite <- app_assoc.
  rewrite scanstring_escape_char by exact Hc.
  now rewrite IH.
Qed.

Lemma scanstring_encoded (s rest : text) :
  is_text s = true ->
  exists t, encode_basestring_ascii s ++ rest = QUOTE :: t
            /\ scanstring t = Some (s, rest).
Proof.
  intros H. exists (flat_map escape_char s ++ QUOTE :: rest). split.
  - unfold encode_basestring_ascii. cbn [app]. now rewrite <- app_assoc.
  - now apply scanstring_escaped.
Qed.

(** ** Numbers: [match_number] reads back what [int.__repr__] writes *)

Lemma ends_number_head (c : N) (s : text) :
  ends_number (c :: s) = true ->
  is_digit c = false /\ (c =? 46) = false /\ (c =? 101) = false /\ (c =? 69) = false.
Proof.
  unfold ends_number. intros H. apply negb_true_iff in H.
  apply orb_false_iff in H as [H H4]. apply orb_false_iff in H as [H H3].
  apply orb_false_iff in H as [H1 H2]. auto.
Qed.

Lemma scan_digits_stop (s : text) :
  ends_number s = true -> scan_digits s = (Decimal.Nil, s).
Proof.
  destruct s as [|c s]; [reflexivity|]. intros H.
  apply ends_number_head in H as [H _]. simpl. now rewrite H.
Qed.

Lemma scan_digits_uint_text (u : Decimal.uint) (rest : text) :
  ends_number rest = true -> scan_digits (uint_text u ++ rest) = (u, rest).
Proof.
  intros H. induction u; cbn [uint_text app];
    [now apply scan_digits_stop| cbn [scan_digits]; rewrite IHu; reflexivity ..].
Qed.

Lemma scan_frac_stop (s : text) : ends_number s = true -> scan_frac s = ([], s).
Proof.
  destruct s as [|c [|d s]]; try reflexivity. intros H.
  apply ends_number_head in H as [_ [H _]]. simpl. now rewrite H.
Qed.

Lemma scan_exp_stop (s : text) : ends_number s = true -> scan_exp s = ([], s).
Proof.
  destruct s as [|c s]; [reflexivity|]. intros H.
  apply ends_number_head in H as [_ [_ [H1 H2]]]. simpl. now rewrite H1, H2.
Qed.

Lemma finish_number_int (neg : bool) (u : Decimal.uint) (rest : text) :
  ends_number rest = true ->
  finish_number neg u rest
  = (PInt (Z.of_int (if neg then Decimal.Neg u else Decimal.Pos u)), rest).
Proof.
  intros H. unfold finish_number.
  now rewrite scan_frac_stop, scan_exp_stop.
Qed.

(** The decimal digits of a positive number start with a digit that is not
    zero. *)
Lemma to_uint_leading (p : positive) :
  exists c t, uint_text (Pos.to_uint p) = c :: t
              /\ is_digit c = true /\ (c =? 48) = false /\ (c =? 45) = false.
Proof.
  pose proof (DecimalPos.Unsigned.to_of (Pos.to_uint p)) as H.
  rewrite DecimalPos.Unsigned.of_to in H. cbn [N.to_uint] in H.
  pose proof (DecimalPos.Unsigned.to_uint_nonzero p) as Hz.
  pose proof (DecimalFacts.nzhead_nonzero (Pos.to_uint p)) as Hn.
  unfold Decimal.unorm in H.
  destruct (Decimal.nzhead (Pos.to_uint p)) eqn:E; rewrite H in *;
    try congruence;
    try (cbn [uint_text]; eexists; eexists; split; [reflexivity|];
         repeat split; reflexivity).
Qed.

Lemma match_number_positive (u : Decimal.uint) (c : N) (t rest : text) :
  uint_text u = c :: t -> is_digit c = true -> (c =? 48) = false -> (c =? 45) = false ->
  ends_number rest = true ->
  match_number (uint_text u ++ rest) = Some (PInt (Z.of_int (Decimal.Pos u)), rest)
  /\ match_number (45 :: uint_text u ++ rest)
     = Some (PInt (Z.of_int (Decimal.Neg u)), rest).
Proof.
  intros Hu Hd H0 Hm Hr.
  pose proof (scan_digits_uint_text u rest Hr) as Hs.
  unfold match_number. rewrite Hu in *. cbn [app] in *.
  rewrite Hm. change (45 =? 45) with true. cbv iota.
  rewrite H0, Hd, Hs.
  now rewrite !finish_number_int.
Qed.

Lemma match_number_int_repr (z : Z) (rest : text) :
  ends_number rest = true ->
  match_number (int_repr z ++ rest) = Some (PInt z, rest).
Proof.
  intros Hr. rewrite <- (DecimalZ.of_to z) at 2.
  unfold int_repr. destruct z as [|p|p]; cbn [Z.to_int].
  - cbn [uint_text app]. unfold match_number.
    change (48 =? 45) with false. change (48 =? 48) with true. cbv iota.
    now rewrite finish_number_int.
  - destruct (to_uint_leading p) as [c [t [Hu [Hd [H0 Hm]]]]].
    now apply (match_number_positive _ c t rest).
  - destruct (to_uint_leading p) as [c [t [Hu [Hd [H0 Hm]]]]].
    cbn [app]. now apply (match_number_positive _ c t rest).
Qed.

Section ScanAtoms.

Variable parse_constant : text -> option pyval.

Lemma scan_once_digit (fuel : nat) (c : N) (s : text) :
  is_digit c = true ->
  scan_once parse_constant (S fuel) (c :: s) = match_number (c :: s).
Proof.
  intros H. unfold is_digit in H. apply andb_true_iff in H as [H1 H2].
  apply N.leb_le in H1, H2.
  assert (C : c = 48 \/ c = 49 \/ c = 50 \/ c = 51 \/ c = 52 \/ c = 53 \/ c = 54
              \/ c = 55 \/ c = 56 \/ c = 57) by lia.
  repeat destruct C as [->|C]; try subst c; reflexivity.
Qed.

Lemma scan_once_minus_digit (fuel : nat) (c : N) (s : text) :
  is_digit c = true ->
  scan_once parse_constant (S fuel) (45 :: c :: s) = match_number (45 :: c :: s).
Proof.
  intros H. unfold is_digit in H. apply andb_true_iff in H as [H1 H2].
  apply N.leb_le in H1, H2.
  assert (C : c = 48 \/ c = 49 \/ c = 50 \/ c = 51 \/ c = 52 \/ c = 53 \/ c = 54
              \/ c = 55 \/ c = 56 \/ c = 57) by lia.
  repeat destruct C as [->|C]; try subst c; reflexivity.
Qed.

Lemma scan_once_int (fuel : nat) (z : Z) (rest : text) :
  ends_number rest = true ->
  scan_once parse_constant (S fuel) (int_repr z ++ rest) = Some (PInt z, rest).
Proof.
  intros Hr. rewrite <- (match_number_int_repr z rest Hr).
  unfold int_repr. destruct z as [|p|p]; cbn [Z.to_int].
  - reflexivity.
  - destruct (to_uint_leading p) as [c [t [Hu [Hd _]]]].
    rewrite Hu. cbn [app]. now apply scan_once_digit.
  - destruct (to_uint_leading p) as [c [t [Hu [Hd _]]]].
    rewrite Hu. cbn [app]. now apply scan_once_minus_digit.
Qed.

Lemma scan_once_str (fuel : nat) (s rest : text) :
  is_text s = true ->
  scan_once parse_constant (S fuel) (encode_basestring_ascii s ++ rest)
  = Some (PStr s, rest).
Proof.
  intros H. destruct (scanstring_encoded s rest H) as [t [-> Ht]].
  cbn [scan_once]. change (QUOTE =? QUOTE) with true. cbv iota. now rewrite Ht.
Qed.

End ScanAtoms.

(** ** Containers *)

Lemma skip_ws_spaces (k : nat) (s : text) : skip_ws (repeat SPACE k ++ s) = skip_ws s.
Proof. induction k as [|k IH]; [reflexivity|exact IH]. Qed.

Lemma skip_ws_newline_indent (level : nat) (s : text) :
  skip_ws (newline_indent level ++ s) = skip_ws s.
Proof. unfold newline_indent. cbn [app]. apply skip_ws_spaces. Qed.

Lemma skip_ws_keep (c : N) (s : text) : is_ws c = false -> skip_ws (c :: s) = c :: s.
Proof. intros H. cbn [skip_ws]. now rewrite H. Qed.

Lemma skip_ws_drop (c : N) (s : text) : is_ws c = true -> skip_ws (c :: s) = skip_ws s.
Proof. intros H. cbn [skip_ws]. now rewrite H. Qed.

Lemma skip_ws_starts (s : text) : starts_value s = true -> skip_ws s = s.
Proof.
  destruct s as [|c s]; [discriminate|]. intros H. cbn [starts_value] in H.
  apply andb_true_iff in H as [H _]. apply andb_true_iff in H as [H _].
  apply negb_true_iff in H. cbn [skip_ws]. now rewrite H.
Qed.

Lemma starts_value_digit (c : N) (s : text) :
  is_digit c = true -> starts_value (c :: s) = true.
Proof.
  intros H. unfold is_digit in H. apply andb_true_iff in H as [H1 H2].
  apply N.leb_le in H1, H2.
  assert (C : c = 48 \/ c = 49 \/ c = 50 \/ c = 51 \/ c = 52 \/ c = 53 \/ c = 54
              \/ c = 55 \/ c = 56 \/ c = 57) by lia.
  repeat destruct C as [->|C]; try subst c; reflexivity.
Qed.

Lemma iterencode_starts (level : nat) (v : pyval) (rest : text) :
  representable v = true -> starts_value (iterencode level v ++ rest) = true.
Proof.
  destruct v as [|[]|z| |s|[|x l]|[|kv items]]; try discriminate; intros _;
    try reflexivity.
  cbn [iterencode]. unfold int_repr.
  destruct z as [|p|p]; cbn [Z.to_int]; [reflexivity| |reflexivity].
  destruct (to_uint_leading p) as [c [t [-> [Hd _]]]].
  now apply starts_value_digit.
Qed.

Lemma more_chunks_ends_number (level : nat) (cs : list text) (rest : text) :
  ends_number (more_chunks level cs ++ rest) = true.
Proof. destruct cs; reflexivity. Qed.

Lemma more_chunks_nil (level : nat) (rest : text) :
  skip_ws (more_chunks level [] ++ rest) = skip_ws rest.
Proof. unfold more_chunks. cbn [flat_map app]. apply skip_ws_newline_indent. Qed.

Lemma more_chunks_cons (level : nat) (c : text) (cs : list text) (rest : text) :
  more_chunks level (c :: cs) ++ rest
  = 44 :: newline_indent (S level) ++ c ++ more_chunks level cs ++ rest.
Proof.
  unfold more_chunks. cbn [flat_map]. unfold item_separator.
  change (lit ",") with [44]. cbn [app].
  now rewrite <- !app_assoc.
Qed.

Lemma join_chunks_cons (level : nat) (c : text) (cs : list text) (rest : text) :
  join_chunks level (c :: cs) ++ rest
  = newline_indent (S level) ++ c ++ more_chunks level cs ++ rest.
Proof. unfold join_chunks, more_chunks. now rewrite <- !app_assoc. Qed.

Lemma iterencode_list (level : nat) (x : pyval) (xs : list pyval) (rest : text) :
  iterencode level (PList (x :: xs)) ++ rest
  = 91 :: newline_indent (S level) ++ iterencode (S level) x
      ++ more_chunks level (map (iterencode (S level)) xs) ++ 93 :: rest.
Proof.
  cbn [iterencode]. change (lit "[") with [91]. change (lit "]") with [93].
  cbn [app map]. f_equal. rewrite <- app_assoc.
  now rewrite join_chunks_cons.
Qed.

Lemma iterencode_dict (level : nat) (kv : text * pyval) (items : list (text * pyval))
    (rest : text) :
  ascending (map fst (kv :: items)) = true ->
  iterencode level (PDict (kv :: items)) ++ rest
  = 123 :: newline_indent (S level) ++ member_text (S level) kv
      ++ more_chunks level (map (member_text (S level)) items) ++ 125 :: rest.
Proof.
  intros H. cbn [iterencode]. change (lit "{") with [123]. change (lit "}") with [125].
  rewrite sort_by_key_ascending by (rewrite map_map; exact H).
  rewrite map_map. cbn [app map]. f_equal. rewrite <- app_assoc.
  now rewrite join_chunks_cons.
Qed.

Lemma setitem_fresh (k : text) (v : pyval) (d : list (text * pyval)) :
  ~ In k (map fst d) -> setitem k v d = d ++ [(k, v)].
Proof.
  induction d as [|[k' v'] d IH]; intros H; [reflexivity|].
  cbn [setitem]. destruct (text_eqb k k') eqn:E.
  - apply text_eqb_eq in E. subst. exfalso. apply H. now left.
  - cbn [app]. f_equal. apply IH. intros Hin. apply H. now right.
Qed.

Lemma fold_setitem_distinct (l acc : list (text * pyval)) :
  NoDup (map fst (acc ++ l)) ->
  fold_left (fun d kv => setitem (fst kv) (snd kv) d) l acc = acc ++ l.
Proof.
  revert acc; induction l as [|[k v] l IH]; intros acc H.
  - cbn. now rewrite List.app_nil_r.
  - cbn [fold_left fst snd]. rewrite setitem_fresh.
    + rewrite IH; rewrite <- app_assoc; [reflexivity|exact H].
    + rewrite map_app in H. cbn [map fst] in H.
      apply NoDup_remove_2 in H. intros Hin. apply H.
      apply in_or_app. now left.
Qed.

(** [dict(pairs)] of pairs with distinct keys keeps them as they are. *)
Lemma dict_of_pairs_distinct (l : list (text * pyval)) :
  NoDup (map fst l) -> dict_of_pairs l = l.
Proof. intros H. unfold dict_of_pairs. now rewrite fold_setitem_distinct. Qed.

Section RoundTrip.

Variable parse_constant : text -> option pyval.

Lemma parse_elements_eq (fuel : nat) (s : text) :
  parse_elements parse_constant (S fuel) s
  = match scan_once parse_constant fuel s with
    | None => None
    | Some (v, r) =>
        match skip_ws r with
        | [] => None
        | c :: r' =>
            if c =? 93 then Some ([v], r')
            else if c =? 44 then
              match parse_elements parse_constant fuel (skip_ws r') with
              | Some (l, r'') => Some (v :: l, r'')
              | None => None
              end
            else None
        end
    end.
Proof. reflexivity. Qed.

Lemma parse_members_eq (fuel : nat) (s1 : text) :
  parse_members parse_constant (S fuel) (QUOTE :: s1)
  = match scanstring s1 with
    | None => None
    | Some (key, r1) =>
        match skip_ws r1 with
        | [] => None
        | c2 :: r2 =>
            if c2 =? 58 then
              match scan_once parse_constant fuel (skip_ws r2) with
              | None => None
              | Some (v, r3) =>
                  match skip_ws r3 with
                  | [] => None
                  | c4 :: r4 =>
                      if c4 =? 125 then Some ([(key, v)], r4)
                      else if c4 =? 44 then
                        match parse_members parse_constant fuel (skip_ws r4) with
                        | Some (pairs, r5) => Some ((key, v) :: pairs, r5)
                        | None => None
                        end
                      else None
                  end
              end
            else None
        end
    end.
Proof. reflexivity. Qed.

Lemma scan_once_list_eq (fuel : nat) (s : text) :
  scan_once parse_constant (S fuel) (91 :: s)
  = match skip_ws s with
    | [] => None
    | c' :: r =>
        if c' =? 93 then Some (PList [], r)
        else
          match parse_elements parse_constant fuel (c' :: r) with
          | Some (l, r') => Some (PList l, r')
          | None => None
          end
    end.
Proof. reflexivity. Qed.

Lemma scan_once_dict_eq (fuel : nat) (s : text) :
  scan_once parse_constant (S fuel) (123 :: s)
  = match skip_ws s with
    | [] => None
    | c' :: r =>
        if c' =? 125 then Some (PDict [], r)
        else
          match parse_members parse_constant fuel (c' :: r) with
          | Some (pairs, r') => Some (PDict (dict_of_pairs pairs), r')
          | None => None
          end
    end.
Proof. reflexivity. Qed.

Lemma parse_elements_chunks (xs : list pyval) :
  forall (x : pyval) (fuel level : nat) (rest : text),
    Forall (scans_back parse_constant) (x :: xs) ->
    forallb representable (x :: xs) = true ->
    (list_size (x :: xs) <= fuel)%nat ->
    parse_elements parse_constant fuel
      (iterencode (S level) x
         ++ more_chunks level (map (iterencode (S level)) xs) ++ 93 :: rest)
    = Some (x :: xs, rest).
Proof.
  induction xs as [|y ys IH]; intros x fuel level rest HP Hv Hf;
    (destruct fuel as [|fuel]; [cbn in Hf; lia|]);
    inversion HP as [|? ? Hx HP']; subst;
    cbn [forallb] in Hv; apply andb_true_iff in Hv as [Hvx Hv'];
    rewrite parse_elements_eq;
    (rewrite Hx; [|cbn in Hf |- *; lia|apply more_chunks_ends_number]).
  - rewrite more_chunks_nil, skip_ws_keep by reflexivity. reflexivity.
  - cbn [map]. rewrite more_chunks_cons, skip_ws_keep by reflexivity.
    change (44 =? 93) with false. change (44 =? 44) with true. cbv iota.
    rewrite skip_ws_newline_indent.
    cbn [forallb] in Hv'. pose proof Hv' as Hv''.
    apply andb_true_iff in Hv'' as [Hvy _].
    rewrite skip_ws_starts by now apply iterencode_starts.
    rewrite IH; [reflexivity|exact HP'|exact Hv'|].
    cbn in Hf |- *. lia.
Qed.

Lemma parse_members_chunks (items : list (text * pyval)) :
  forall (kv : text * pyval) (fuel level : nat) (rest : text),
    Forall (fun kv => scans_back parse_constant (snd kv)) (kv :: items) ->
    forallb (fun kv => is_text (fst kv) && representable (snd kv)) (kv :: items)
      = true ->
    (items_size (kv :: items) <= fuel)%nat ->
    parse_members parse_constant fuel
      (member_text (S level) kv
         ++ more_chunks level (map (member_text (S level)) items) ++ 125 :: rest)
    = Some (kv :: items, rest).
Proof.
  induction items as [|kv2 items IH]; intros [k v] fuel level rest HP Hv Hf;
    (destruct fuel as [|fuel]; [cbn in Hf; lia|]);
    inversion HP as [|? ? Hx HP']; subst; cbn [snd] in Hx;
    cbn [forallb fst snd] in Hv; apply andb_true_iff in Hv as [Hvx Hv'];
    apply andb_true_iff in Hvx as [Hk Hvv];
    unfold member_text at 1; cbn [fst snd];
    unfold key_separator; change (lit ": ") with [58; 32];
    rewrite <- !app_assoc;
    match goal with
    | |- context [encode_basestring_ascii k ++ ?R] =>
        destruct (scanstring_encoded k R Hk) as [t [Ht Hs]]
    end.
  - cbn [map] in *. rewrite Ht, parse_members_eq, Hs. cbn [app].
    rewrite skip_ws_keep by reflexivity.
    change (58 =? 58) with true. cbv iota.
    rewrite skip_ws_drop by reflexivity.
    rewrite skip_ws_starts by now apply iterencode_starts.
    rewrite Hx; [|cbn in Hf |- *; lia|apply more_chunks_ends_number].
    rewrite more_chunks_nil, skip_ws_keep by reflexivity. reflexivity.
  - cbn [map] in *. rewrite Ht, parse_members_eq, Hs. cbn [app].
    rewrite skip_ws_keep by reflexivity.
    change (58 =? 58) with true. cbv iota.
    rewrite skip_ws_drop by reflexivity.
    rewrite skip_ws_starts by now apply iterencode_starts.
    rewrite Hx; [|cbn in Hf |- *; lia|apply more_chunks_ends_number].
    rewrite more_chunks_cons, skip_ws_keep by reflexivity.
    change (44 =? 125) with false. change (44 =? 44) with true. cbv iota.
    rewrite skip_ws_newline_indent.
    destruct kv2 as [k2 v2].
    rewrite skip_ws_starts by reflexivity.
    rewrite IH; [reflexivity|exact HP'|exact Hv'|].
    cbn in Hf |- *. lia.
Qed.

End RoundTrip.

(** ** Every representable value is read back *)

Lemma Forall_representable (Q : pyval -> Prop) (l : list pyval) :
  Forall (fun v => representable v = true -> Q v) l ->
  forallb representable l = true -> Forall Q l.
Proof.
  induction 1 as [|x l Hx _ IH]; intros Hv; constructor;
    cbn [forallb] in Hv; apply andb_true_iff in Hv as [Hvx Hv]; auto.
Qed.

Lemma Forall_representable_items (Q : pyval -> Prop) (items : list (text * pyval)) :
  Forall (fun kv => representable (snd kv) = true -> Q (snd kv)) items ->
  forallb (fun kv => is_text (fst kv) && representable (snd kv)) items = true ->
  Forall (fun kv => Q (snd kv)) items.
Proof.
  induction 1 as [|x l Hx _ IH]; intros Hv; constructor;
    cbn [forallb] in Hv; apply andb_true_iff in Hv as [Hvx Hv]; auto.
  apply andb_true_iff in Hvx as [_ Hvx]. auto.
Qed.

Section RoundTripValues.

Variable parse_constant : text -> option pyval.

Lemma scans_back_representable (v : pyval) :
  representable v = true -> scans_back parse_constant v.
Proof.
  induction v as [|b|z|l|s|l IH|items IH] using pyval_ind;
    intros Hv fuel level rest Hf Hr;
    (destruct fuel as [|fuel]; [cbn in Hf; lia|]).
  - reflexivity.
  - destruct b; reflexivity.
  - now apply scan_once_int.
  - discriminate.
  - now apply scan_once_str.
  - destruct l as [|x xs]; [reflexivity|].
    cbn [representable] in Hv.
    rewrite iterencode_list, scan_once_list_eq, skip_ws_newline_indent.
    pose proof Hv as Hx. cbn [forallb] in Hx. apply andb_true_iff in Hx as [Hx _].
    match goal with
    | |- context [skip_ws ?T] =>
        pose proof (iterencode_starts (S level) x
                      (more_chunks level (map (iterencode (S level)) xs) ++ 93 :: rest)
                      Hx) as Hs;
        rewrite (skip_ws_starts T Hs);
        destruct T as [|c r] eqn:E; [discriminate|]
    end.
    cbn [starts_value] in Hs. apply andb_true_iff in Hs as [Hs _].
    apply andb_true_iff in Hs as [_ Hs]. apply negb_true_iff in Hs.
    rewrite Hs, <- E, parse_elements_chunks; [reflexivity| |exact Hv|].
    + now apply Forall_representable.
    + cbn in Hf |- *. lia.
  - destruct items as [|[k v] items]; [reflexivity|].
    cbn [representable] in Hv. apply andb_true_iff in Hv as [Ha Hv].
    rewrite iterencode_dict by exact Ha.
    rewrite scan_once_dict_eq, skip_ws_newline_indent.
    pose proof Hv as Hk. cbn [forallb fst] in Hk. apply andb_true_iff in Hk as [Hk _].
    apply andb_true_iff in Hk as [Hk _].
    match goal with
    | |- context [skip_ws ?T] =>
        assert (Hs : starts_value T = true) by reflexivity;
        rewrite (skip_ws_starts T Hs);
        destruct T as [|c r] eqn:E; [discriminate|]
    end.
    cbn [starts_value] in Hs. apply andb_true_iff in Hs as [_ Hs].
    apply negb_true_iff in Hs.
    rewrite Hs, <- E, parse_members_chunks; [|  |exact Hv|].
    + rewrite dict_of_pairs_distinct; [reflexivity|].
      now apply ascending_NoDup.
    + now apply Forall_representable_items.
    + cbn in Hf |- *. lia.
Qed.

End RoundTripValues.

(** The encoding of a value is at least as long as the value is large, so
    the fuel [loads] starts with is enough. *)
Lemma int_repr_nonempty (z : Z) : (1 <= List.length (int_repr z))%nat.
Proof.
  unfold int_repr. destruct z as [|p|p]; cbn [Z.to_int]; cbn; try lia.
  destruct (to_uint_leading p) as [c [t [-> _]]]. cbn. lia.
Qed.

Lemma newline_indent_nonempty (level : nat) :
  (1 <= List.length (newline_indent level))%nat.
Proof. unfold newline_indent. cbn [List.length]. lia. Qed.

Lemma more_chunks_size (level : nat) (xs : list pyval) (rest : text) :
  Forall (fun x => forall n, (size x <= List.length (iterencode n x))%nat) xs ->
  (list_size xs
   <= List.length (more_chunks level (map (iterencode (S level)) xs) ++ rest))%nat.
Proof.
  induction 1 as [|x xs Hx _ IH]; [cbn; lia|].
  cbn [map]. rewrite more_chunks_cons. cbn [List.length list_size fold_right].
  rewrite !length_app in *. specialize (Hx (S level)). unfold list_size in *. lia.
Qed.

Lemma more_members_size (level : nat) (items : list (text * pyval)) (rest : text) :
  Forall (fun kv => forall n, (size (snd kv) <= List.length (iterencode n (snd kv)))%nat)
    items ->
  (items_size items
   <= List.length (more_chunks level (map (member_text (S level)) items) ++ rest))%nat.
Proof.
  induction 1 as [|x xs Hx _ IH]; [cbn; lia|].
  cbn [map]. rewrite more_chunks_cons. cbn [List.length items_size fold_right].
  unfold member_text at 1. rewrite !length_app in *.
  specialize (Hx (S level)). unfold items_size in *. lia.
Qed.

Lemma size_le_length (v : pyval) :
  representable v = true ->
  forall level, (size v <= List.length (iterencode level v))%nat.
Proof.
  induction v as [|b|z|l|s|l IH|items IH] using pyval_ind; intros Hv level.
  - cbn. lia.
  - destruct b; cbn; lia.
  - apply int_repr_nonempty.
  - discriminate.
  - cbn. lia.
  - destruct l as [|x xs]; [cbn; lia|].
    cbn [representable] in Hv.
    apply (Forall_representable _ _ IH) in Hv.
    inversion Hv as [|? ? Hx Hxs]; subst.
    rewrite <- (List.app_nil_r (iterencode level (PList (x :: xs)))).
    rewrite iterencode_list. cbn [List.length size].
    pose proof (more_chunks_size level xs [93] Hxs).
    specialize (Hx (S level)). unfold list_size in *. cbn [fold_right].
    pose proof (newline_indent_nonempty (S level)).
    rewrite !length_app in *. lia.
  - destruct items as [|[k v] items]; [cbn; lia|].
    cbn [representable] in Hv. apply andb_true_iff in Hv as [Ha Hv].
    apply (Forall_representable_items
             (fun v => forall n, (size v <= List.length (iterencode n v))%nat)
             _ IH) in Hv.
    inversion Hv as [|? ? Hx Hxs]; subst. cbn [snd] in Hx.
    rewrite <- (List.app_nil_r (iterencode level (PDict ((k, v) :: items)))).
    rewrite iterencode_dict by exact Ha. cbn [List.length size].
    unfold member_text at 1. cbn [fst snd].
    pose proof (more_members_size level items [125] Hxs).
    specialize (Hx (S level)). unfold items_size in *. cbn [fold_right snd].
    pose proof (newline_indent_nonempty (S level)).
    rewrite !length_app in *. lia.
Qed.

(** [json.loads] undoes [json.dumps] on representable values. *)
Lemma loads_dumps (parse_constant : text -> option pyval) (v : pyval) :
  representable v = true -> loads_with parse_constant (dumps v) = Ok v.
Proof.
  intros Hv. unfold loads_with, dumps.
  pose proof (iterencode_starts 0 v [] Hv) as Hs.
  rewrite List.app_nil_r in Hs. rewrite skip_ws_starts by exact Hs.
  rewrite <- (List.app_nil_r (iterencode 0 v)) at 2.
  rewrite scans_back_representable; [reflexivity|exact Hv| |reflexivity].
  pose proof (size_le_length v Hv 0). lia.
Qed.

Lemma dumps_asdict (r : RunData) :
  dumps (PDict (_asdict r)) = dumps (PDict (sorted_items r)).
Proof.
  apply dumps_dict_perm; [apply NoDup_fields|].
  destruct r as [a b c d e f g]. unfold _asdict, sorted_items.
  cbn [station_name cell_count test_type test_version http_host http_port pid].
  apply NoDup_Permutation.
  - apply (NoDup_map_inv fst). apply NoDup_fields.
  - apply (NoDup_map_inv fst). apply ascending_NoDup. reflexivity.
  - intros x. cbn [In]. tauto.
Qed.

Lemma representable_sorted_items (r : RunData) :
  valid_record r = true -> representable (PDict (sorted_items r)) = true.
Proof.
  unfold valid_record. intros H.
  repeat (apply andb_true_iff in H; destruct H as [H ?]).
  cbn [representable]. apply andb_true_iff. split; [reflexivity|].
  unfold sorted_items. cbn [forallb fst snd].
  repeat (apply andb_true_iff; split); try reflexivity; assumption.
Qed.

Lemma RunData_kwargs_sorted_items (r : RunData) :
  RunData_kwargs (PDict (sorted_items r)) = Ok r.
Proof. destruct r. reflexivity. Qed.

Lemma decode_AsJson_valid (r : RunData) :
  valid_record r = true -> decode (AsJson r) = Ok r.
Proof.
  intros Hv. unfold decode, loads.
  rewrite AsJson_asdict, dumps_asdict.
  rewrite loads_dumps by now apply representable_sorted_items.
  apply RunData_kwargs_sorted_items.
Qed.

(** C1: decoding the canonical encoding of a record whose seven fields hold
    JSON-representable values (null, booleans, integers, texts of Unicode
    scalar values, and lists and dictionaries of such values) gives the
    record back. *)
Theorem decode_encode_round_trip (r : RunData) :
  valid_record r = true -> decode (AsJson r) = Ok r.
Proof.
  intros Hv. unfold decode, loads.
  rewrite AsJson_asdict, dumps_asdict.
  rewrite loads_dumps by now apply representable_sorted_items.
  cbn [bind]. apply RunData_kwargs_sorted_items.
Qed.

Lemma decode_encode_round_trip_witness :
  valid_record example_record = true
  /\ decode (AsJson example_record) = Ok example_record.
Proof.
  split; [reflexivity|].
  apply (decode_encode_round_trip example_record). reflexivity.
Defined.

(** ** Strict decoding *)

Lemma getitem_In (k : text) (items : list (text * pyval)) :
  In k (map fst items) <-> exists v, getitem k items = Some v.
Proof.
  induction items as [|[k' v'] items IH]; cbn [getitem map fst In].
  - split; [tauto|]. intros [v H]. discriminate.
  - destruct (text_eqb k k') eqn:E.
    + apply text_eqb_eq in E. subst. split; [|auto]. intros _. now exists v'.
    + apply text_eqb_neq in E. rewrite <- IH. split; [|auto].
      intros [H|H]; [congruence|exact H].
Qed.

Lemma existsb_text_eqb (k : text) (l : list text) :
  existsb (text_eqb k) l = true <-> In k l.
Proof.
  rewrite existsb_exists. split.
  - intros [x [Hin E]]. apply text_eqb_eq in E. now subst.
  - intros H. exists k. split; [exact H|apply text_eqb_refl].
Qed.

Lemma keys_in_fields (items : list (text * pyval)) :
  forallb (fun kv => existsb (text_eqb (fst kv)) fields) items = true
  <-> (forall k, In k (map fst items) -> In k fields).
Proof.
  rewrite forallb_forall. split.
  - intros H k Hk. apply in_map_iff in Hk as [kv [<- Hin]].
    apply existsb_text_eqb. now apply H.
  - intros H kv Hin. apply existsb_text_eqb. apply H. now apply in_map.
Qed.

Lemma RunData_kwargs_extra (items : list (text * pyval)) (k : text) :
  In k (map fst items) -> ~ In k fields -> RunData_kwargs (PDict items) = Raise TypeError.
Proof.
  intros Hk Hn. unfold RunData_kwargs.
  destruct (forallb _ items) eqn:E; [|reflexivity].
  exfalso. apply Hn. now apply (proj1 (keys_in_fields items) E).
Qed.

Lemma RunData_kwargs_missing (items : list (text * pyval)) (k : text) :
  In k fields -> getitem k items = None -> RunData_kwargs (PDict items) = Raise TypeError.
Proof.
  intros Hk Hn. unfold RunData_kwargs.
  destruct (forallb _ items); [|reflexivity].
  cbv [fields In] in Hk.
  repeat destruct Hk as [<-|Hk]; try contradiction; rewrite Hn;
    repeat match goal with
           | |- context [match ?x with Some _ => _ | None => _ end] => destruct x
           end; reflexivity.
Qed.

Lemma RunData_kwargs_exact (items : list (text * pyval)) :
  (forall k, In k (map fst items) <-> In k fields) ->
  exists r, RunData_kwargs (PDict items) = Ok r
            /\ Forall (fun kv => getitem (fst kv) items = Some (snd kv)) (_asdict r).
Proof.
  intros H. unfold RunData_kwargs.
  rewrite (proj2 (keys_in_fields items)) by (intros k; apply H).
  assert (Hf : forall k, In k fields -> exists v, getitem k items = Some v).
  { intros k Hk. apply getitem_In. now apply H. }
  destruct (Hf (lit "station_name")) as [a Ha]; [cbv; tauto|].
  destruct (Hf (lit "cell_count")) as [b Hb]; [cbv; tauto|].
  destruct (Hf (lit "test_type")) as [c Hc]; [cbv; tauto|].
  destruct (Hf (lit "test_version")) as [d Hd]; [cbv; tauto|].
  destruct (Hf (lit "http_host")) as [e He]; [cbv; tauto|].
  destruct (Hf (lit "http_port")) as [f Hf']; [cbv; tauto|].
  destruct (Hf (lit "pid")) as [g Hg]; [cbv; tauto|].
  rewrite Ha, Hb, Hc, Hd, He, Hf', Hg.
  eexists. split; [reflexivity|].
  unfold _asdict.
  cbn [station_name cell_count test_type test_version http_host http_port pid].
  repeat constructor; assumption.
Qed.

(** *** The cases of [scan_once] *)

Lemma scan_once_eq (h : text -> option pyval) (fuel : nat) (c : N) (s' : text) :
  scan_once h (S fuel) (c :: s')
  = if c =? QUOTE then
      match scanstring s' with
      | Some (str, r) => Some (PStr str, r)
      | None => None
      end
    else if c =? 123 then scan_once h (S fuel) (123 :: s')
    else if c =? 91 then scan_once h (S fuel) (91 :: s')
    else if starts_with (lit "null") (c :: s') then Some (PNone, skipn 4 (c :: s'))
    else if starts_with (lit "true") (c :: s') then Some (PBool true, skipn 4 (c :: s'))
    else if starts_with (lit "false") (c :: s')
    then Some (PBool false, skipn 5 (c :: s'))
    else if starts_with (lit "NaN") (c :: s') then constant h (lit "NaN") (c :: s')
    else if starts_with (lit "Infinity") (c :: s')
    then constant h (lit "Infinity") (c :: s')
    else if starts_with (lit "-Infinity") (c :: s')
    then constant h (lit "-Infinity") (c :: s')
    else match_number (c :: s').
Proof.
  destruct (c =? QUOTE) eqn:E1; [cbn [scan_once]; now rewrite E1|].
  destruct (c =? 123) eqn:E2.
  { apply N.eqb_eq in E2. now subst. }
  destruct (c =? 91) eqn:E3.
  { apply N.eqb_eq in E3. now subst. }
  cbn [scan_once]. now rewrite E1, E2, E3.
Qed.

(** ** The scanner and the grammar *)

(** *** White space *)

Lemma ws_skip_ws (s : text) : ws s (skip_ws s).
Proof.
  induction s as [|c s IH]; [constructor|].
  cbn [skip_ws]. unfold is_ws.
  destruct (N.eqb_spec c 32) as [->|]; [now constructor|].
  destruct (N.eqb_spec c 9) as [->|]; [now constructor|].
  destruct (N.eqb_spec c 10) as [->|]; [now constructor|].
  destruct (N.eqb_spec c 13) as [->|]; [now constructor|].
  constructor.
Qed.

Lemma ws_trans (a b c : text) : ws a b -> ws b c -> ws a c.
Proof. induction 1; intros H'; [exact H'|constructor; auto ..]. Qed.

Lemma skip_ws_ws (s r : text) : ws s r -> skip_ws s = skip_ws r.
Proof. induction 1; [reflexivity|exact IHws ..]. Qed.

Lemma ws_rest (s r : text) :
  ws s r -> (List.length r <= List.length s)%nat /\ (is_str s = true -> is_str r = true).
Proof.
  induction 1 as [s|s r _ [IH1 IH2]|s r _ [IH1 IH2]|s r _ [IH1 IH2]|s r _ [IH1 IH2]];
    cbn [List.length is_str forallb]; (split; [lia|]); auto;
    intros H'; apply andb_true_iff in H' as [_ H']; auto.
Qed.

Lemma ws_closes (s r : text) : ws s r -> closes r = true -> ends_number s = true.
Proof.
  intros H Hr. destruct H; try reflexivity.
  destruct s as [|c s]; [reflexivity|].
  cbn [closes] in Hr. cbn [ends_number].
  apply orb_true_iff in Hr as [Hr|Hr]; [apply orb_true_iff in Hr as [Hr|Hr]|];
    apply N.eqb_eq in Hr; subst; reflexivity.
Qed.

Lemma skip_ws_closes (r : text) : closes r = true -> skip_ws r = r.
Proof.
  destruct r as [|c r]; [reflexivity|]. cbn [closes]. intros Hr.
  apply skip_ws_keep.
  apply orb_true_iff in Hr as [Hr|Hr]; [apply orb_true_iff in Hr as [Hr|Hr]|];
    apply N.eqb_eq in Hr; subst; reflexivity.
Qed.

(** *** Strings *)

Lemma is_digit_digit (c : N) : is_digit c = true <-> digit c.
Proof.
  unfold is_digit, digit, onenine. rewrite andb_true_iff, !N.leb_le. lia.
Qed.

Lemma hexval_hex (c : N) : (exists x, hexval c = Some x) <-> hex c.
Proof.
  unfold hexval, hex, digit, onenine.
  destruct (N.leb_spec 48 c), (N.leb_spec c 57), (N.leb_spec 97 c), (N.leb_spec c 102),
    (N.leb_spec 65 c), (N.leb_spec c 70); cbn [andb];
    (split; [intros [x Hx]; try discriminate; lia|intros Hc; try lia; eauto]).
Qed.

Lemma hex4_hex (a b c d : N) :
  (exists u, hex4 a b c d = Some u) <-> hex a /\ hex b /\ hex c /\ hex d.
Proof.
  rewrite <- !hexval_hex. unfold hex4. split.
  - intros [u H].
    destruct (hexval a), (hexval b), (hexval c), (hexval d); try discriminate;
      repeat split; eauto.
  - intros [[x ->] [[y ->] [[z ->] [w ->]]]]. eauto.
Qed.

Lemma unescape_letter (e : N) :
  (exists ch, unescape e = Some ch) <-> escape_letter e.
Proof.
  unfold unescape, escape_letter, QUOTE, BACKSLASH. cbn [In].
  destruct (N.eqb_spec e 34); [split; eauto|].
  destruct (N.eqb_spec e 92); [split; eauto|].
  destruct (N.eqb_spec e 47); [split; eauto 10|].
  destruct (N.eqb_spec e 98); [split; eauto 10|].
  destruct (N.eqb_spec e 102); [split; eauto 10|].
  destruct (N.eqb_spec e 110); [split; eauto 10|].
  destruct (N.eqb_spec e 114); [split; eauto 10|].
  destruct (N.eqb_spec e 116); [split; eauto 10|].
  split; [intros [ch H]; discriminate|].
  intros H. repeat destruct H as [H|H]; try congruence. destruct H.
Qed.

Lemma escape_letter_not_u (e : N) : escape_letter e -> (e =? 117) = false.
Proof.
  unfold escape_letter. cbn [In]. intros H.
  repeat destruct H as [H|H]; try (subst; reflexivity). destruct H.
Qed.

Lemma push_Some (c : N) (o : option (text * text)) (str r : text) :
  push c o = Some (str, r) -> exists str', o = Some (str', r).
Proof.
  destruct o as [[str' r']|]; [|discriminate]. cbn [push]. intros H.
  injection H as _ ->. eauto.
Qed.

Lemma is_str_cons (c : N) (s : text) :
  is_str (c :: s) = true -> c <= 1114111 /\ is_str s = true.
Proof.
  cbn [is_str forallb]. intros H. apply andb_true_iff in H as [H1 H2].
  apply N.leb_le in H1. auto.
Qed.

Lemma scanstring_characters (n : nat) :
  forall s str r, (List.length s <= n)%nat -> is_str s = true ->
    scanstring s = Some (str, r) -> characters s (34 :: r).
Proof.
  induction n as [|n IH]; intros s str r Hn Hs H.
  { destruct s; [discriminate|cbn [List.length] in Hn; lia]. }
  destruct s as [|c s1]; [discriminate|].
  apply is_str_cons in Hs as [Hc Hs1]. cbn [List.length] in Hn.
  cbn [scanstring] in H. unfold QUOTE, BACKSLASH in H.
  destruct (N.eqb_spec c 34) as [->|Hq].
  { injection H as _ <-. constructor. }
  destruct (N.eqb_spec c 92) as [->|Hb].
  - destruct s1 as [|e s2]; [discriminate|].
    apply is_str_cons in Hs1 as [_ Hs2]. cbn [List.length] in Hn.
    destruct (N.eqb_spec e 117) as [->|He].
    + destruct s2 as [|h1 [|h2 [|h3 [|h4 s3]]]]; try discriminate.
      cbn [List.length] in Hn.
      assert (Hs3 : is_str s3 = true).
      { do 4 (apply is_str_cons in Hs2 as [_ Hs2]). exact Hs2. }
      destruct (hex4 h1 h2 h3 h4) as [uni|] eqn:Eh; [|discriminate].
      assert (Hh : hex h1 /\ hex h2 /\ hex h3 /\ hex h4) by (apply (proj1 (hex4_hex _ _ _ _)); eauto).
      destruct Hh as [Hh1 [Hh2 [Hh3 Hh4]]].
      assert (Hplain : forall str', scanstring s3 = Some (str', r) ->
                characters (92 :: 117 :: h1 :: h2 :: h3 :: h4 :: s3) (34 :: r)).
      { intros str' H'. apply characters_u; auto. apply (IH s3 str'); auto. lia. }
      destruct (is_high_surrogate uni);
        [|apply push_Some in H as [str' H]; now apply Hplain with str'].
      destruct s3 as [|b [|u [|g1 [|g2 [|g3 [|g4 s4]]]]]];
        try (apply push_Some in H as [str' H]; now apply Hplain with str').
      destruct ((b =? 92) && (u =? 117)) eqn:Ebu;
        [|apply push_Some in H as [str' H]; now apply Hplain with str'].
      apply andb_true_iff in Ebu as [Eb Eu].
      apply N.eqb_eq in Eb, Eu. subst b u.
      destruct (hex4 g1 g2 g3 g4) as [uni2|] eqn:Eg; [|discriminate].
      destruct (is_low_surrogate uni2);
        [|apply push_Some in H as [str' H]; now apply Hplain with str'].
      apply push_Some in H as [str' H].
      assert (Hg : hex g1 /\ hex g2 /\ hex g3 /\ hex g4) by (apply (proj1 (hex4_hex _ _ _ _)); eauto).
      destruct Hg as [Hg1 [Hg2 [Hg3 Hg4]]].
      apply characters_u; auto. apply characters_u; auto.
      apply (IH s4 str'); [cbn [List.length] in Hn; lia| |exact H].
      do 6 (apply is_str_cons in Hs3 as [_ Hs3]). exact Hs3.
    + destruct (unescape e) as [ch|] eqn:Eu; [|discriminate].
      apply push_Some in H as [str' H].
      apply characters_escape; [apply unescape_letter; eauto|].
      apply (IH s2 str'); auto. lia.
  - destruct (N.ltb_spec c 32); [discriminate|].
    apply push_Some in H as [str' H].
    apply characters_plain; auto.
    apply (IH s1 str'); auto. lia.
Qed.

Lemma characters_scanstring (n : nat) :
  forall s r, (List.length s <= n)%nat -> characters s (34 :: r) ->
    exists str, scanstring s = Some (str, r).
Proof.
  induction n as [|n IH]; intros s r Hn H.
  { destruct s; [inversion H|cbn [List.length] in Hn; lia]. }
  assert (Hpush : forall c s', (List.length s' <= n)%nat -> characters s' (34 :: r) ->
            exists str, push c (scanstring s') = Some (str, r)).
  { intros c s' Hl H'. destruct (IH s' r Hl H') as [str ->]. cbn [push]. eauto. }
  inversion H as [s0 E|c s1 r0 Hc Hq Hb H1|c s1 r0 Hc H1|h1 h2 h3 h4 s3 r0 Hh1 Hh2 Hh3 Hh4 H1];
    subst.
  - cbn. eauto.
  - cbn [List.length] in Hn. rewrite scanstring_plain.
    + apply Hpush; [lia|exact H1].
    + now apply N.eqb_neq.
    + now apply N.eqb_neq.
    + apply N.ltb_ge. lia.
  - cbn [List.length] in Hn.
    rewrite scanstring_short by now apply escape_letter_not_u.
    apply unescape_letter in Hc as [ch ->]. apply Hpush; [lia|exact H1].
  - cbn [List.length] in Hn.
    destruct (proj2 (hex4_hex h1 h2 h3 h4)) as [uni Eh]; [auto|].
    cbn [scanstring]. change (92 =? QUOTE) with false.
    change (92 =? BACKSLASH) with true. change (117 =? 117) with true.
    cbv iota. rewrite Eh.
    destruct (is_high_surrogate uni); [|apply Hpush; [lia|exact H1]].
    destruct s3 as [|b [|u [|g1 [|g2 [|g3 [|g4 s4]]]]]];
      try (apply Hpush; [cbn [List.length]; lia|exact H1]).
    cbn [List.length] in Hn.
    destruct ((b =? BACKSLASH) && (u =? 117)) eqn:Ebu;
      [|apply Hpush; [cbn [List.length]; lia|exact H1]].
    apply andb_true_iff in Ebu as [Eb Eu].
    apply N.eqb_eq in Eb, Eu. subst b u.
    inversion H1 as [|c s1 r0 Hc Hq Hb H2|c s1 r0 Hc H2|? ? ? ? ? ? Hg1 Hg2 Hg3 Hg4 H2];
      subst.
    + now contradiction Hb.
    + apply escape_letter_not_u in Hc. discriminate.
    + destruct (proj2 (hex4_hex g1 g2 g3 g4)) as [uni2 Eg]; [auto|].
      rewrite Eg.
      destruct (is_low_surrogate uni2); apply Hpush;
        try (cbn [List.length]; lia); assumption.
Qed.

Lemma characters_rest (s r : text) :
  characters s r ->
  (List.length r <= List.length s)%nat /\ (is_str s = true -> is_str r = true).
Proof.
  induction 1 as [s|c s r _ _ _ _ [IH1 IH2]|c s r _ _ [IH1 IH2]
                 |h1 h2 h3 h4 s r _ _ _ _ _ [IH1 IH2]];
    cbn [List.length]; (split; [lia|]); auto; intros H'.
  - apply is_str_cons in H' as [_ H']. auto.
  - do 2 apply is_str_cons in H' as [_ H']. auto.
  - do 6 apply is_str_cons in H' as [_ H']. auto.
Qed.

Lemma jstring_rest (s r : text) :
  jstring s r ->
  (List.length r < List.length s)%nat /\ (is_str s = true -> is_str r = true).
Proof.
  intros [s' r' H]. apply characters_rest in H as [H1 H2].
  cbn [List.length] in *. split; [lia|].
  intros H'. apply is_str_cons in H' as [_ H'].
  apply H2 in H'. now apply is_str_cons in H' as [_ H'].
Qed.


(** *** Numbers *)

Lemma digit_of_not_Nil (c : N) (u : Decimal.uint) : digit_of c u <> Decimal.Nil.
Proof.
  unfold digit_of.
  repeat match goal with
         | |- context [match ?x with _ => _ end] => destruct x
         end; discriminate.
Qed.

Lemma scan_digits_cons (c : N) (s : text) :
  is_digit c = true ->
  scan_digits (c :: s) = (digit_of c (fst (scan_digits s)), snd (scan_digits s)).
Proof. intros H. cbn [scan_digits]. rewrite H. now destruct (scan_digits s). Qed.

Lemma scan_digits_digits (s : text) :
  forall u r, scan_digits s = (u, r) ->
    (u = Decimal.Nil /\ r = s) \/ (u <> Decimal.Nil /\ digits s r).
Proof.
  induction s as [|c s IH]; intros u r H.
  { injection H as <- <-. now left. }
  destruct (is_digit c) eqn:Ec.
  - rewrite scan_digits_cons in H by exact Ec. injection H as <- <-.
    right. split; [apply digit_of_not_Nil|].
    apply is_digit_digit in Ec.
    destruct (scan_digits s) as [u' r'] eqn:E. cbn [fst snd].
    destruct (IH u' r' eq_refl) as [[_ ->]|[_ Hd]]; [now constructor|].
    now apply digits_more.
  - cbn [scan_digits] in H. rewrite Ec in H. injection H as <- <-. now left.
Qed.

Lemma scan_frac_fraction (s f r : text) : scan_frac s = (f, r) -> fraction s r.
Proof.
  unfold scan_frac. destruct s as [|dot [|d s']]; try (intros H; injection H as _ <-; constructor).
  destruct ((dot =? 46) && is_digit d) eqn:E;
    [|intros H; injection H as _ <-; constructor].
  apply andb_true_iff in E as [E1 E2]. apply N.eqb_eq in E1. subst dot.
  destruct (scan_digits (d :: s')) as [u r'] eqn:Ed. intros H. injection H as _ <-.
  constructor.
  destruct (scan_digits_digits _ _ _ Ed) as [[Hu _]|[_ Hd]]; [|exact Hd].
  rewrite scan_digits_cons in Ed by exact E2. injection Ed as Ed _.
  rewrite Hu in Ed. now apply digit_of_not_Nil in Ed.
Qed.

Lemma scan_exp_exponent (s e r : text) : scan_exp s = (e, r) -> exponent s r.
Proof.
  unfold scan_exp. destruct s as [|c s']; [intros H; injection H as _ <-; constructor|].
  destruct ((c =? 101) || (c =? 69)) eqn:Ec;
    [|intros H; injection H as _ <-; constructor].
  assert (Hsign : exists sg s'',
            match s' with
            | c0 :: t => if (c0 =? 45) || (c0 =? 43) then ([c0], t) else ([], s')
            | [] => ([], s')
            end = (sg, s'') /\ sign s' s'').
  { destruct s' as [|c0 t]; [do 2 eexists; split; [reflexivity|constructor]|].
    destruct (N.eqb_spec c0 45) as [->|]; [do 2 eexists; split; [reflexivity|constructor]|].
    destruct (N.eqb_spec c0 43) as [->|]; do 2 eexists; split; try reflexivity; constructor. }
  destruct Hsign as [sg [s'' [-> Hsg]]].
  destruct (scan_digits s'') as [u r'] eqn:Ed.
  destruct (scan_digits_digits _ _ _ Ed) as [[-> _]|[Hu Hd]].
  { intros H; injection H as _ <-; constructor. }
  intros H.
  assert (r = r') by (destruct u; try contradiction; now injection H as _ <-).
  subst r'.
  apply orb_true_iff in Ec as [Ec|Ec]; apply N.eqb_eq in Ec; subst c.
  - now apply exponent_e with s''.
  - now apply exponent_E with s''.
Qed.

Lemma finish_number_rest (neg : bool) (u : Decimal.uint) (s : text) :
  snd (finish_number neg u s) = snd (scan_exp (snd (scan_frac s))).
Proof.
  unfold finish_number. destruct (scan_frac s) as [f s1]. cbn [snd].
  destruct (scan_exp s1) as [e s2]. cbn [snd]. now destruct f, e.
Qed.

Lemma finish_number_parts (neg : bool) (u : Decimal.uint) (s r : text) (v : pyval) :
  finish_number neg u s = (v, r) -> exists s1, fraction s s1 /\ exponent s1 r.
Proof.
  intros H. pose proof (finish_number_rest neg u s) as Hr. rewrite H in Hr.
  cbn [snd] in Hr. subst r.
  destruct (scan_frac s) as [f s1] eqn:Ef. cbn [snd].
  destruct (scan_exp s1) as [e s2] eqn:Ee. cbn [snd].
  exists s1. split; [now apply scan_frac_fraction with f|now apply scan_exp_exponent with e].
Qed.

Lemma is_digit_cases (c : N) : is_digit c = true -> c <> 48 -> onenine c.
Proof. intros H Hc. apply is_digit_digit in H as [H|H]; [contradiction|exact H]. Qed.

Lemma integer_scanned (c : N) (s2 : text) (u : Decimal.uint) (r : text) :
  c <> 48 -> is_digit c = true -> scan_digits (c :: s2) = (u, r) ->
  integer (c :: s2) r /\ integer (45 :: c :: s2) r.
Proof.
  intros Hc Hd H. rewrite scan_digits_cons in H by exact Hd. injection H as _ <-.
  pose proof (is_digit_cases c Hd Hc) as H19.
  destruct (scan_digits s2) as [u' r'] eqn:E. cbn [snd].
  destruct (scan_digits_digits _ _ _ E) as [[_ ->]|[_ Hds]].
  - split; [apply integer_digit|apply integer_minus_digit]; now right.
  - split; [now apply integer_digits|now apply integer_minus_digits].
Qed.

Lemma match_number_number (s r : text) (v : pyval) :
  match_number s = Some (v, r) -> number s r.
Proof.
  unfold match_number. destruct s as [|c s']; [discriminate|].
  destruct (N.eqb_spec c 45) as [->|Hm].
  - destruct s' as [|c s2]; [discriminate|].
    destruct (N.eqb_spec c 48) as [->|Hz].
    + intros H. injection H as H. apply finish_number_parts in H as [s1 [Hf He]].
      apply number_parts with s2 s1; auto. apply integer_minus_digit. now left.
    + destruct (is_digit c) eqn:Hd; [|discriminate].
      destruct (scan_digits (c :: s2)) as [u r'] eqn:Ed.
      intros H. injection H as H. apply finish_number_parts in H as [s1 [Hf He]].
      apply number_parts with r' s1; auto.
      now apply (integer_scanned c s2 u r').
  - destruct (N.eqb_spec c 48) as [->|Hz].
    + intros H. injection H as H. apply finish_number_parts in H as [s1 [Hf He]].
      apply number_parts with s' s1; auto. apply integer_digit. now left.
    + destruct (is_digit c) eqn:Hd; [|discriminate].
      destruct (scan_digits (c :: s')) as [u r'] eqn:Ed.
      intros H. injection H as H. apply finish_number_parts in H as [s1 [Hf He]].
      apply number_parts with r' s1; auto.
      now apply (integer_scanned c s' u r').
Qed.

(** The other way round, the scanner takes the longest number; what the
    grammar derives is that number when nothing that could extend it
    follows. *)

Lemma digits_scan_digits (s r : text) :
  digits s r -> scan_digits r = (Decimal.Nil, r) ->
  exists u, u <> Decimal.Nil /\ scan_digits s = (u, r).
Proof.
  intros H Hr. induction H as [c s Hc|c s r Hc _ IH].
  - apply is_digit_digit in Hc. rewrite scan_digits_cons, Hr by exact Hc.
    eexists. split; [apply digit_of_not_Nil|reflexivity].
  - destruct (IH Hr) as [u [_ Hu]].
    apply is_digit_digit in Hc. rewrite scan_digits_cons, Hu by exact Hc.
    eexists. split; [apply digit_of_not_Nil|reflexivity].
Qed.

Lemma exponent_head (s r : text) :
  exponent s r -> ends_number r = true -> scan_digits s = (Decimal.Nil, s).
Proof. intros [] Hr; [now apply scan_digits_stop|reflexivity ..]. Qed.

Lemma fraction_head (s s1 r : text) :
  fraction s s1 -> exponent s1 r -> ends_number r = true ->
  scan_digits s = (Decimal.Nil, s).
Proof. intros [] He Hr; [now apply exponent_head with r|reflexivity]. Qed.

Lemma digits_head (s r : text) :
  digits s r -> exists c t, s = c :: t /\ is_digit c = true.
Proof. intros [c t Hc|c t r' Hc _]; exists c, t; split; auto; now apply is_digit_digit. Qed.

Lemma scan_exp_rest (s r : text) :
  exponent s r -> ends_number r = true -> snd (scan_exp s) = r.
Proof.
  assert (Hgo : forall e s s1 r, (e =? 101) || (e =? 69) = true ->
            sign s s1 -> digits s1 r -> ends_number r = true ->
            snd (scan_exp (e :: s)) = r).
  { clear. intros e s s1 r He Hs Hd Hr. unfold scan_exp. rewrite He.
    destruct (digits_scan_digits _ _ Hd (scan_digits_stop _ Hr)) as [u [Hu Eu]].
    destruct Hs as [s|s|s].
    - destruct (digits_head _ _ Hd) as [c [t [-> Hc]]].
      assert (Hnot : (c =? 45) || (c =? 43) = false).
      { unfold is_digit in Hc. apply andb_true_iff in Hc as [Hc _].
        apply N.leb_le in Hc.
        destruct (N.eqb_spec c 45), (N.eqb_spec c 43); first [reflexivity|lia]. }
      rewrite Hnot, Eu. destruct u; try contradiction; reflexivity.
    - cbn [orb N.eqb Pos.eqb]. rewrite Eu. destruct u; try contradiction; reflexivity.
    - cbn [orb N.eqb Pos.eqb]. rewrite Eu. destruct u; try contradiction; reflexivity. }
  intros H Hr. destruct H as [s|s s1 r Hs Hd|s s1 r Hs Hd].
  - now rewrite scan_exp_stop.
  - now apply Hgo with s1.
  - now apply Hgo with s1.
Qed.

Lemma scan_frac_rest (s s1 r : text) :
  fraction s s1 -> exponent s1 r -> ends_number r = true -> snd (scan_frac s) = s1.
Proof.
  intros Hf He Hr. destruct Hf as [s|s s1 Hd].
  - destruct He as [s|s s2 r Hs Hd|s s2 r Hs Hd].
    + now rewrite scan_frac_stop.
    + unfold scan_frac. now destruct s.
    + unfold scan_frac. now destruct s.
  - pose proof (exponent_head _ _ He Hr) as Hh.
    destruct (digits_scan_digits _ _ Hd Hh) as [u [Hu Eu]].
    destruct (digits_head _ _ Hd) as [c [t [-> Hc]]].
    unfold scan_frac. rewrite Hc. cbn [N.eqb Pos.eqb andb]. now rewrite Eu.
Qed.

Lemma finish_number_number (neg : bool) (u : Decimal.uint) (s s1 r : text) :
  fraction s s1 -> exponent s1 r -> ends_number r = true ->
  exists v, finish_number neg u s = (v, r).
Proof.
  intros Hf He Hr. pose proof (finish_number_rest neg u s) as H.
  rewrite (scan_frac_rest _ _ _ Hf He Hr), (scan_exp_rest _ _ He Hr) in H.
  destruct (finish_number neg u s) as [v r']. cbn [snd] in H. subst. eauto.
Qed.

Lemma digit_not_minus (c : N) : digit c -> (c =? 45) = false.
Proof. unfold digit, onenine. intros H. apply N.eqb_neq. lia. Qed.

Lemma number_match_number (s r : text) :
  number s r -> ends_number r = true -> exists v, match_number s = Some (v, r).
Proof.
  intros [s0 s1 s2 r0 Hi Hf He] Hr.
  assert (Hh : scan_digits s1 = (Decimal.Nil, s1)) by now apply fraction_head with s2 r0.
  assert (Hone : forall neg c t, digit c -> t = s1 ->
            exists v, match (if c =? 48 then Some (finish_number neg (Decimal.D0 Decimal.Nil) t)
                             else if is_digit c
                                  then let (u, r) := scan_digits (c :: t) in
                                       Some (finish_number neg u r)
                                  else None) with
                      | Some x => Some x | None => None end = Some (v, r0)).
  { intros neg c t Hc ->. destruct (c =? 48).
    - destruct (finish_number_number neg (Decimal.D0 Decimal.Nil) _ _ _ Hf He Hr) as [v ->].
      eauto.
    - apply is_digit_digit in Hc. rewrite Hc, scan_digits_cons, Hh by exact Hc.
      cbn [fst snd].
      destruct (finish_number_number neg (digit_of c Decimal.Nil) _ _ _ Hf He Hr) as [v ->].
      eauto. }
  assert (Hmany : forall neg c t, onenine c -> digits t s1 ->
            exists v, match (if c =? 48 then Some (finish_number neg (Decimal.D0 Decimal.Nil) t)
                             else if is_digit c
                                  then let (u, r) := scan_digits (c :: t) in
                                       Some (finish_number neg u r)
                                  else None) with
                      | Some x => Some x | None => None end = Some (v, r0)).
  { intros neg c t Hc Hd.
    destruct (N.eqb_spec c 48) as [->|_]; [unfold onenine in Hc; lia|].
    assert (Hc' : is_digit c = true) by (apply is_digit_digit; now right).
    destruct (digits_scan_digits _ _ Hd Hh) as [u [_ Eu]].
    rewrite Hc', scan_digits_cons, Eu by exact Hc'. cbn [fst snd].
    destruct (finish_number_number neg (digit_of c u) _ _ _ Hf He Hr) as [v ->].
    eauto. }
  unfold match_number.
  destruct Hi as [c t Hc|c t r' Hc Hd|c t Hc|c t r' Hc Hd].
  - rewrite (digit_not_minus c Hc).
    destruct (Hone false c t Hc eq_refl) as [v Hv]. exists v.
    destruct (c =? 48); [exact Hv|]. destruct (is_digit c); [|discriminate].
    destruct (scan_digits (c :: t)). exact Hv.
  - rewrite (digit_not_minus c (or_intror Hc)).
    destruct (Hmany false c t Hc Hd) as [v Hv]. exists v.
    destruct (c =? 48); [exact Hv|]. destruct (is_digit c); [|discriminate].
    destruct (scan_digits (c :: t)). exact Hv.
  - cbn [N.eqb Pos.eqb].
    destruct (Hone true c t Hc eq_refl) as [v Hv]. exists v.
    destruct (c =? 48); [exact Hv|]. destruct (is_digit c); [|discriminate].
    destruct (scan_digits (c :: t)). exact Hv.
  - cbn [N.eqb Pos.eqb].
    destruct (Hmany true c t Hc Hd) as [v Hv]. exists v.
    destruct (c =? 48); [exact Hv|]. destruct (is_digit c); [|discriminate].
    destruct (scan_digits (c :: t)). exact Hv.
Qed.

Lemma digits_rest (s r : text) :
  digits s r ->
  (List.length r < List.length s)%nat /\ (is_str s = true -> is_str r = true).
Proof.
  induction 1 as [c s _|c s r _ _ [IH1 IH2]]; cbn [List.length]; (split; [lia|]);
    intros H'; apply is_str_cons in H' as [_ H']; auto.
Qed.

Lemma number_rest (s r : text) :
  number s r ->
  (List.length r < List.length s)%nat /\ (is_str s = true -> is_str r = true).
Proof.
  intros [s0 s1 s2 r0 Hi Hf He].
  assert (H1 : (List.length s1 < List.length s0)%nat /\ (is_str s0 = true -> is_str s1 = true)).
  { destruct Hi as [c t Hc|c t r' Hc Hd|c t Hc|c t r' Hc Hd];
      try (apply digits_rest in Hd as [Hd1 Hd2]); cbn [List.length];
      (split; [lia|]); intros H'; repeat (apply is_str_cons in H' as [_ H']); auto. }
  assert (H2 : (List.length s2 <= List.length s1)%nat /\ (is_str s1 = true -> is_str s2 = true)).
  { destruct Hf as [t|t r' Hd]; [split; auto|].
    apply digits_rest in Hd as [Hd1 Hd2]. cbn [List.length]. split; [lia|].
    intros H'. apply is_str_cons in H' as [_ H']. auto. }
  assert (H3 : (List.length r0 <= List.length s2)%nat /\ (is_str s2 = true -> is_str r0 = true)).
  { assert (Hsg : forall a b, sign a b ->
              (List.length b <= List.length a)%nat /\ (is_str a = true -> is_str b = true)).
    { intros a b []; cbn [List.length]; (split; [lia|]); auto;
        intros H'; now apply is_str_cons in H' as [_ H']. }
    destruct He as [t|t s3 r' Hs Hd|t s3 r' Hs Hd]; [split; auto| |];
      apply Hsg in Hs as [Hs1 Hs2]; apply digits_rest in Hd as [Hd1 Hd2];
      cbn [List.length]; (split; [lia|]);
      intros H'; apply is_str_cons in H' as [_ H']; auto. }
  destruct H1, H2, H3. split; [lia|auto].
Qed.


(** *** What a rule leaves *)

Lemma grammar_rest (names : bool) :
  let P (s r : text) :=
    (List.length r < List.length s)%nat /\ (is_str s = true -> is_str r = true) in
  (forall s r, value names s r -> P s r)
  /\ (forall s r, object names s r -> P s r)
  /\ (forall s r, members names s r -> P s r)
  /\ (forall s r, member names s r -> P s r)
  /\ (forall s r, array names s r -> P s r)
  /\ (forall s r, elements names s r -> P s r)
  /\ (forall s r, element names s r -> P s r).
Proof.
  intros P. subst P. cbv beta.
  apply grammar_ind; intros;
    repeat match goal with
           | H : ws _ _ |- _ => apply ws_rest in H
           | H : jstring _ _ |- _ => apply jstring_rest in H
           | H : number _ _ |- _ => apply number_rest in H
           | H : _ /\ _ |- _ => destruct H
           end;
    cbn [List.length lit list_ascii_of_string map app] in *;
    (split; [lia|]); auto;
    intros Hs; repeat (apply is_str_cons in Hs as [_ Hs]); auto;
    repeat match goal with
           | H : is_str ?a = true -> _, H' : is_str ?a = true |- _ =>
               specialize (H H')
           | H : is_str (_ :: _) = true |- _ => apply is_str_cons in H as [_ H]
           end; auto.
Qed.

Lemma value_rest (names : bool) (s r : text) :
  value names s r ->
  (List.length r < List.length s)%nat /\ (is_str s = true -> is_str r = true).
Proof. apply (grammar_rest names). Qed.

Lemma members_rest (names : bool) (s r : text) :
  members names s r ->
  (List.length r < List.length s)%nat /\ (is_str s = true -> is_str r = true).
Proof. apply (grammar_rest names). Qed.

Lemma member_rest (names : bool) (s r : text) :
  member names s r ->
  (List.length r < List.length s)%nat /\ (is_str s = true -> is_str r = true).
Proof. apply (grammar_rest names). Qed.

Lemma elements_rest (names : bool) (s r : text) :
  elements names s r ->
  (List.length r < List.length s)%nat /\ (is_str s = true -> is_str r = true).
Proof. apply (grammar_rest names). Qed.

Lemma element_rest (names : bool) (s r : text) :
  element names s r ->
  (List.length r < List.length s)%nat /\ (is_str s = true -> is_str r = true).
Proof. apply (grammar_rest names). Qed.

(** *** White space before an element *)

Lemma element_ws (names : bool) (s s1 r : text) :
  ws s s1 -> element names s1 r -> element names s r.
Proof.
  intros Hw He. inversion He as [s0 s2 s3 r0 Hw1 Hv Hw2]; subst.
  apply element_value with s2 s3; auto. now apply ws_trans with s1.
Qed.

Lemma elements_ws (names : bool) (s s1 r : text) :
  ws s s1 -> elements names s1 r -> elements names s r.
Proof.
  intros Hw H. inversion H as [s0 r0 He|s0 s2 r0 He Hes]; subst.
  - apply elements_one. now apply element_ws with s1.
  - apply elements_more with s2; [|exact Hes]. now apply element_ws with s1.
Qed.

Lemma member_ws (names : bool) (s s1 r : text) :
  ws s s1 -> member names s1 r -> member names s r.
Proof.
  intros Hw H. inversion H as [s0 s2 s3 s4 r0 Hw1 Hk Hw2 He]; subst.
  apply member_pair with s2 s3 s4; auto. now apply ws_trans with s1.
Qed.

Lemma members_ws (names : bool) (s s1 r : text) :
  ws s s1 -> members names s1 r -> members names s r.
Proof.
  intros Hw H. inversion H as [s0 r0 Hm|s0 s2 r0 Hm Hms]; subst.
  - apply members_one. now apply member_ws with s1.
  - apply members_more with s2; [|exact Hms]. now apply member_ws with s1.
Qed.

Lemma starts_with_app (p s : text) :
  starts_with p s = true -> s = p ++ skipn (List.length p) s.
Proof.
  revert s; induction p as [|x p IH]; intros [|y s]; cbn [starts_with]; try discriminate;
    [reflexivity ..|].
  intros H. apply andb_true_iff in H as [H1 H2]. apply N.eqb_eq in H1. subst y.
  cbn [List.length skipn app]. f_equal. now apply IH.
Qed.

Lemma is_str_skip_ws (s : text) : is_str s = true -> is_str (skip_ws s) = true.
Proof. apply (ws_rest s (skip_ws s)), ws_skip_ws. Qed.

(** *** What the scanner accepts, the grammar derives *)

Section Sound.

Variable parse_constant : text -> option pyval.
Variable names : bool.
Hypothesis Hnames : forall name v, parse_constant name = Some v -> names = true.

Lemma constant_names (name s : text) (v : pyval) (r : text) :
  constant parse_constant name s = Some (v, r) ->
  names = true /\ r = skipn (List.length name) s.
Proof.
  unfold constant. destruct (parse_constant name) as [v'|] eqn:E; [|discriminate].
  intros H. injection H as _ <-. split; [now apply Hnames with name v'|reflexivity].
Qed.

Lemma scan_grammar (fuel : nat) :
  (forall s v r, is_str s = true -> scan_once parse_constant fuel s = Some (v, r) ->
     value names s r)
  /\ (forall s l r, is_str s = true -> parse_elements parse_constant fuel s = Some (l, r) ->
        elements names s (93 :: r))
  /\ (forall s p r, is_str s = true -> parse_members parse_constant fuel s = Some (p, r) ->
        members names s (125 :: r)).
Proof.
  induction fuel as [|fuel [IH1 [IH2 IH3]]]; [repeat split; discriminate|].
  split; [|split].
  - intros s v r Hs H. destruct s as [|c s']; [discriminate|].
    pose proof (is_str_cons _ _ Hs) as [_ Hs'].
    rewrite scan_once_eq in H. unfold QUOTE in H.
    destruct (N.eqb_spec c 34) as [->|_].
    { destruct (scanstring s') as [[str r']|] eqn:E; [|discriminate].
      injection H as _ <-. apply value_string. constructor.
      now apply (scanstring_characters (List.length s')) with str. }
    destruct (N.eqb_spec c 123) as [->|_].
    { rewrite scan_once_dict_eq in H. apply value_object.
      pose proof (ws_skip_ws s') as Hw. pose proof (is_str_skip_ws s' Hs') as Hs2.
      destruct (skip_ws s') as [|c' t]; [discriminate|].
      destruct (N.eqb_spec c' 125) as [->|_].
      - injection H as _ <-. now apply object_empty.
      - destruct (parse_members parse_constant fuel (c' :: t)) as [[pairs r']|] eqn:E;
          [|discriminate].
        injection H as _ <-. apply object_members.
        apply members_ws with (c' :: t); [exact Hw|]. now apply IH3 with pairs. }
    destruct (N.eqb_spec c 91) as [->|_].
    { rewrite scan_once_list_eq in H. apply value_array.
      pose proof (ws_skip_ws s') as Hw. pose proof (is_str_skip_ws s' Hs') as Hs2.
      destruct (skip_ws s') as [|c' t]; [discriminate|].
      destruct (N.eqb_spec c' 93) as [->|_].
      - injection H as _ <-. now apply array_empty.
      - destruct (parse_elements parse_constant fuel (c' :: t)) as [[l r']|] eqn:E;
          [|discriminate].
        injection H as _ <-. apply array_elements.
        apply elements_ws with (c' :: t); [exact Hw|]. now apply IH2 with l. }
    destruct (starts_with (lit "null") (c :: s')) eqn:E1.
    { injection H as _ <-. rewrite (starts_with_app _ _ E1) at 1. apply value_null. }
    destruct (starts_with (lit "true") (c :: s')) eqn:E2.
    { injection H as _ <-. rewrite (starts_with_app _ _ E2) at 1. apply value_true. }
    destruct (starts_with (lit "false") (c :: s')) eqn:E3.
    { injection H as _ <-. rewrite (starts_with_app _ _ E3) at 1. apply value_false. }
    destruct (starts_with (lit "NaN") (c :: s')) eqn:E4.
    { apply constant_names in H as [Hn ->]. rewrite (starts_with_app _ _ E4) at 1.
      now apply value_NaN. }
    destruct (starts_with (lit "Infinity") (c :: s')) eqn:E5.
    { apply constant_names in H as [Hn ->]. rewrite (starts_with_app _ _ E5) at 1.
      now apply value_Infinity. }
    destruct (starts_with (lit "-Infinity") (c :: s')) eqn:E6.
    { apply constant_names in H as [Hn ->]. rewrite (starts_with_app _ _ E6) at 1.
      now apply value_minus_Infinity. }
    apply value_number. now apply match_number_number with v.
  - intros s l r Hs H. rewrite parse_elements_eq in H.
    destruct (scan_once parse_constant fuel s) as [[v t]|] eqn:E; [|discriminate].
    pose proof (IH1 _ _ _ Hs E) as Hv.
    pose proof (proj2 (value_rest _ _ _ Hv) Hs) as Ht.
    pose proof (ws_skip_ws t) as Hw. pose proof (is_str_skip_ws t Ht) as Ht2.
    destruct (skip_ws t) as [|c t']; [discriminate|].
    pose proof (is_str_cons _ _ Ht2) as [_ Ht'].
    assert (He : forall c', c = c' -> element names s (c' :: t')).
    { intros c' <-. apply element_value with s t; [constructor|exact Hv|exact Hw]. }
    destruct (N.eqb_spec c 93) as [->|_].
    { injection H as _ <-. apply elements_one. now apply He. }
    destruct (N.eqb_spec c 44) as [->|_]; [|discriminate].
    destruct (parse_elements parse_constant fuel (skip_ws t')) as [[l' r']|] eqn:E2;
      [|discriminate].
    injection H as _ <-.
    apply elements_more with t'; [now apply He|].
    apply elements_ws with (skip_ws t'); [apply ws_skip_ws|].
    apply IH2 with l'; [now apply is_str_skip_ws|exact E2].
  - intros s p r Hs H. destruct s as [|c s1]; [discriminate|].
    pose proof (is_str_cons _ _ Hs) as [_ Hs1].
    destruct (N.eqb_spec c 34) as [->|Hc];
      [|cbn [parse_members] in H; unfold QUOTE in H;
        destruct (N.eqb_spec c 34); [contradiction|discriminate]].
    change 34 with QUOTE in H. rewrite parse_members_eq in H.
    destruct (scanstring s1) as [[key r1]|] eqn:Ek; [|discriminate].
    assert (Hk : jstring (34 :: s1) r1).
    { constructor. now apply (scanstring_characters (List.length s1)) with key. }
    pose proof (proj2 (jstring_rest _ _ Hk) Hs) as Hr1.
    pose proof (ws_skip_ws r1) as Hw1. pose proof (is_str_skip_ws r1 Hr1) as Hr1'.
    destruct (skip_ws r1) as [|c2 r2]; [discriminate|].
    pose proof (is_str_cons _ _ Hr1') as [_ Hr2].
    destruct (N.eqb_spec c2 58) as [->|_]; [|discriminate].
    destruct (scan_once parse_constant fuel (skip_ws r2)) as [[v r3]|] eqn:E; [|discriminate].
    pose proof (IH1 _ _ _ (is_str_skip_ws r2 Hr2) E) as Hv.
    pose proof (proj2 (value_rest _ _ _ Hv) (is_str_skip_ws r2 Hr2)) as Hr3.
    pose proof (ws_skip_ws r3) as Hw3. pose proof (is_str_skip_ws r3 Hr3) as Hr3'.
    destruct (skip_ws r3) as [|c4 r4]; [discriminate|].
    pose proof (is_str_cons _ _ Hr3') as [_ Hr4].
    assert (Hm : forall c', c4 = c' -> member names (34 :: s1) (c' :: r4)).
    { intros c' <-. apply member_pair with (34 :: s1) r1 r2; [constructor|exact Hk|exact Hw1|].
      apply element_value with (skip_ws r2) r3; [apply ws_skip_ws|exact Hv|exact Hw3]. }
    destruct (N.eqb_spec c4 125) as [->|_].
    { injection H as _ <-. apply members_one. now apply Hm. }
    destruct (N.eqb_spec c4 44) as [->|_]; [|discriminate].
    destruct (parse_members parse_constant fuel (skip_ws r4)) as [[pairs r5]|] eqn:E2;
      [|discriminate].
    injection H as _ <-.
    apply members_more with r4; [now apply Hm|].
    apply members_ws with (skip_ws r4); [apply ws_skip_ws|].
    apply IH3 with pairs; [now apply is_str_skip_ws|exact E2].
Qed.

Lemma loads_with_json (s : text) (v : pyval) :
  is_str s = true -> loads_with parse_constant s = Ok v -> json names s.
Proof.
  intros Hs. unfold loads_with, json.
  destruct (scan_once parse_constant _ (skip_ws s)) as [[v' r]|] eqn:E; [|discriminate].
  pose proof (ws_skip_ws r) as Hw.
  destruct (skip_ws r); [|discriminate]. intros _.
  apply element_value with (skip_ws s) r; [apply ws_skip_ws| |exact Hw].
  apply (proj1 (scan_grammar (S (2 * List.length s)))) with v'; [now apply is_str_skip_ws|exact E].
Qed.

End Sound.


(** *** What the grammar derives, the scanner accepts *)

Lemma integer_head (s r : text) :
  integer s r ->
  exists c t, s = c :: t
    /\ ((is_digit c = true) \/ (c = 45 /\ exists d t', t = d :: t' /\ is_digit d = true)).
Proof.
  intros [c t Hc|c t r' Hc _|c t Hc|c t r' Hc _]; do 2 eexists; (split; [reflexivity|]).
  - left. now apply is_digit_digit.
  - left. apply is_digit_digit. now right.
  - right. split; [reflexivity|]. do 2 eexists. split; [reflexivity|].
    now apply is_digit_digit.
  - right. split; [reflexivity|]. do 2 eexists. split; [reflexivity|].
    apply is_digit_digit. now right.
Qed.

Lemma is_digit_head (c : N) :
  is_digit c = true -> is_ws c = false /\ (c =? 93) = false.
Proof.
  unfold is_digit, is_ws. intros H. apply andb_true_iff in H as [H1 H2].
  apply N.leb_le in H1, H2.
  destruct (N.eqb_spec c 32), (N.eqb_spec c 9), (N.eqb_spec c 10), (N.eqb_spec c 13),
    (N.eqb_spec c 93); try lia; auto.
Qed.

Lemma value_head (names : bool) (s r : text) :
  value names s r ->
  exists c t, s = c :: t /\ is_ws c = false /\ (c =? 93) = false.
Proof.
  intros H.
  destruct H as [s r H|s r H|s r H|s r H|s|s|s|s _|s _|s _];
    try (do 2 eexists; split; [reflexivity|split; reflexivity]).
  - destruct H; (do 2 eexists; split; [reflexivity|split; reflexivity]).
  - destruct H; (do 2 eexists; split; [reflexivity|split; reflexivity]).
  - destruct H; (do 2 eexists; split; [reflexivity|split; reflexivity]).
  - destruct H as [s s1 s2 r Hi _ _].
    destruct (integer_head _ _ Hi) as [c [t [-> [Hc|[-> _]]]]];
      (do 2 eexists; split; [reflexivity|]); [now apply is_digit_head|split; reflexivity].
Qed.

Lemma skip_ws_value (names : bool) (s r : text) : value names s r -> skip_ws s = s.
Proof.
  intros H. destruct (value_head _ _ _ H) as [c [t [-> [Hc _]]]]. now apply skip_ws_keep.
Qed.

Lemma element_head (names : bool) (s r : text) :
  element names s r -> exists c t, skip_ws s = c :: t /\ (c =? 93) = false.
Proof.
  intros H. inversion H as [s0 s1 s2 r0 Hw Hv _]; subst.
  rewrite (skip_ws_ws _ _ Hw), (skip_ws_value _ _ _ Hv).
  destruct (value_head _ _ _ Hv) as [c [t [-> [_ Hc]]]]. eauto.
Qed.

Lemma elements_head (names : bool) (s r : text) :
  elements names s r -> exists c t, skip_ws s = c :: t /\ (c =? 93) = false.
Proof.
  intros H. inversion H as [s0 r0 He|s0 s1 r0 He _]; subst;
    now apply element_head in He.
Qed.

Lemma member_head (names : bool) (s r : text) :
  member names s r -> exists t, skip_ws s = 34 :: t.
Proof.
  intros H. inversion H as [s0 s1 s2 s3 r0 Hw Hk _ _]; subst.
  rewrite (skip_ws_ws _ _ Hw). destruct Hk. cbn. eauto.
Qed.

Lemma members_head (names : bool) (s r : text) :
  members names s r -> exists t, skip_ws s = 34 :: t.
Proof.
  intros H. inversion H as [s0 r0 Hm|s0 s1 r0 Hm _]; subst;
    now apply member_head in Hm.
Qed.

Section Complete.

Variable parse_constant : text -> option pyval.
Variable names : bool.
Hypothesis Hhook :
  names = true ->
  forall name, In name [lit "NaN"; lit "Infinity"; lit "-Infinity"] ->
  exists v, parse_constant name = Some v.

Lemma number_scan_once (fuel : nat) (s r : text) :
  number s r -> scan_once parse_constant (S fuel) s = match_number s.
Proof.
  intros [s0 s1 s2 r0 Hi _ _].
  destruct (integer_head _ _ Hi) as [c [t [-> [Hc|[-> [d [t' [-> Hd]]]]]]]].
  - now apply scan_once_digit.
  - now apply scan_once_minus_digit.
Qed.

Ltac len_of H :=
  lazymatch type of H with
  | ws ?a ?b => pose proof (proj1 (ws_rest a b H))
  | characters ?a ?b => pose proof (proj1 (characters_rest a b H))
  | jstring ?a ?b => pose proof (proj1 (jstring_rest a b H))
  | number ?a ?b => pose proof (proj1 (number_rest a b H))
  | value ?n ?a ?b => pose proof (proj1 (value_rest n a b H))
  | members ?n ?a ?b => pose proof (proj1 (members_rest n a b H))
  | member ?n ?a ?b => pose proof (proj1 (member_rest n a b H))
  | elements ?n ?a ?b => pose proof (proj1 (elements_rest n a b H))
  | element ?n ?a ?b => pose proof (proj1 (element_rest n a b H))
  end; cbn [List.length] in *.

Ltac some_fuel fuel :=
  destruct fuel as [|fuel];
  [exfalso; cbn [List.length lit list_ascii_of_string map app] in *; lia|].

Lemma grammar_scan :
  (forall s r, value names s r -> ends_number r = true ->
     exists v, forall fuel, (List.length s <= fuel + List.length r)%nat ->
       scan_once parse_constant fuel s = Some (v, r))
  /\ (forall s r, object names s r ->
        exists items, forall fuel, (List.length s <= fuel + List.length r)%nat ->
          scan_once parse_constant fuel s = Some (PDict items, r))
  /\ (forall s r', members names s r' -> forall r, r' = 125 :: r ->
        exists pairs, forall fuel, (List.length s <= fuel + List.length r)%nat ->
          parse_members parse_constant fuel (skip_ws s) = Some (pairs, r))
  /\ (forall s r, member names s r -> closes r = true ->
        exists key v, forall fuel, (List.length s <= S fuel + List.length r)%nat ->
          parse_members parse_constant (S fuel) (skip_ws s)
          = match r with
            | [] => None
            | c4 :: r4 =>
                if c4 =? 125 then Some ([(key, v)], r4)
                else if c4 =? 44 then
                  match parse_members parse_constant fuel (skip_ws r4) with
                  | Some (pairs, r5) => Some ((key, v) :: pairs, r5)
                  | None => None
                  end
                else None
            end)
  /\ (forall s r, array names s r ->
        exists v, forall fuel, (List.length s <= fuel + List.length r)%nat ->
          scan_once parse_constant fuel s = Some (v, r))
  /\ (forall s r', elements names s r' -> forall r, r' = 93 :: r ->
        exists l, forall fuel, (List.length s <= fuel + List.length r)%nat ->
          parse_elements parse_constant fuel (skip_ws s) = Some (l, r))
  /\ (forall s r, element names s r -> closes r = true ->
        exists v b, skip_ws b = r
          /\ forall fuel, (List.length s <= fuel + List.length r)%nat ->
               scan_once parse_constant fuel (skip_ws s) = Some (v, b)).
Proof.
  apply grammar_ind.
  - intros s r _ [items IH] _. now exists (PDict items).
  - intros s r _ IH _. exact IH.
  - intros s r Hj _. pose proof Hj as Hj'. destruct Hj' as [s' r' Hc].
    destruct (characters_scanstring _ _ _ (Nat.le_refl _) Hc) as [str E].
    exists (PStr str). intros fuel Hf. len_of Hj. some_fuel fuel.
    cbn [scan_once]. change (34 =? QUOTE) with true. cbv iota. now rewrite E.
  - intros s r Hn Hr. destruct (number_match_number _ _ Hn Hr) as [v E].
    exists v. intros fuel Hf. len_of Hn. some_fuel fuel.
    now rewrite (number_scan_once fuel s r Hn).
  - intros s _. exists (PBool true). intros fuel Hf. some_fuel fuel. reflexivity.
  - intros s _. exists (PBool false). intros fuel Hf. some_fuel fuel. reflexivity.
  - intros s _. exists PNone. intros fuel Hf. some_fuel fuel. reflexivity.
  - intros s Hn _. destruct (Hhook Hn (lit "NaN")) as [v Hv]; [cbn; auto|].
    exists v. intros fuel Hf. some_fuel fuel.
    change (lit "NaN" ++ s) with (78 :: 97 :: 78 :: s).
    rewrite scan_once_eq. cbn -[constant lit]. unfold constant. now rewrite Hv.
  - intros s Hn _. destruct (Hhook Hn (lit "Infinity")) as [v Hv]; [cbn; auto|].
    exists v. intros fuel Hf. some_fuel fuel.
    change (lit "Infinity" ++ s) with (73 :: 110 :: 102 :: 105 :: 110 :: 105 :: 116 :: 121 :: s).
    rewrite scan_once_eq. cbn -[constant lit]. unfold constant. now rewrite Hv.
  - intros s Hn _. destruct (Hhook Hn (lit "-Infinity")) as [v Hv]; [cbn; auto|].
    exists v. intros fuel Hf. some_fuel fuel.
    change (lit "-Infinity" ++ s) with (45 :: 73 :: 110 :: 102 :: 105 :: 110 :: 105 :: 116 :: 121 :: s).
    rewrite scan_once_eq. cbn -[constant lit]. unfold constant. now rewrite Hv.
  - intros s r Hw. exists []. intros fuel Hf. len_of Hw. some_fuel fuel.
    rewrite scan_once_dict_eq, (skip_ws_ws _ _ Hw). reflexivity.
  - intros s r Hm IH. destruct (IH r eq_refl) as [pairs Hp].
    destruct (members_head _ _ _ Hm) as [t E].
    exists (dict_of_pairs pairs). intros fuel Hf. len_of Hm. some_fuel fuel.
    rewrite scan_once_dict_eq. specialize (Hp fuel). rewrite E in *.
    change (34 =? 125) with false. cbv iota. rewrite Hp; [reflexivity|lia].
  - intros s r' Hm IH r ->. destruct (IH eq_refl) as [key [v Heq]].
    exists [(key, v)]. intros fuel Hf. len_of Hm. some_fuel fuel.
    rewrite Heq by lia. reflexivity.
  - intros s s1 r' Hm IHm Hms IHms r ->.
    destruct (IHm eq_refl) as [key [v Heq]]. destruct (IHms r eq_refl) as [pairs Hp].
    exists ((key, v) :: pairs). intros fuel Hf. len_of Hm. len_of Hms. some_fuel fuel.
    rewrite Heq by lia. change (44 =? 125) with false. change (44 =? 44) with true.
    cbv iota. rewrite Hp; [reflexivity|lia].
  - intros s s1 s2 s3 r Hw Hk Hw2 He IHe Hr.
    destruct (IHe Hr) as [v [b [Hb Hscan]]].
    len_of Hw. len_of Hk. len_of Hw2. len_of He.
    destruct Hk as [s1' s2' Hc].
    destruct (characters_scanstring _ _ _ (Nat.le_refl _) Hc) as [key E].
    exists key, v. intros fuel Hf.
    rewrite (skip_ws_ws _ _ Hw). rewrite skip_ws_keep by reflexivity.
    change 34 with QUOTE. rewrite parse_members_eq, E, (skip_ws_ws _ _ Hw2).
    rewrite skip_ws_keep by reflexivity. change (58 =? 58) with true. cbv iota.
    rewrite Hscan by (cbn [List.length] in *; lia). now rewrite Hb.
  - intros s r Hw. exists (PList []). intros fuel Hf. len_of Hw. some_fuel fuel.
    rewrite scan_once_list_eq, (skip_ws_ws _ _ Hw). reflexivity.
  - intros s r He IH. destruct (IH r eq_refl) as [l Hl].
    destruct (elements_head _ _ _ He) as [c [t [E Ec]]].
    exists (PList l). intros fuel Hf. len_of He. some_fuel fuel.
    rewrite scan_once_list_eq. specialize (Hl fuel). rewrite E in *.
    rewrite Ec. rewrite Hl; [reflexivity|lia].
  - intros s r' He IH r ->. destruct (IH eq_refl) as [v [b [Hb Hscan]]].
    exists [v]. intros fuel Hf. len_of He. some_fuel fuel.
    rewrite parse_elements_eq, Hscan by lia. rewrite Hb. reflexivity.
  - intros s s1 r' He IHe Hes IHes r ->.
    destruct (IHe eq_refl) as [v [b [Hb Hscan]]]. destruct (IHes r eq_refl) as [l Hl].
    exists (v :: l). intros fuel Hf. len_of He. len_of Hes. some_fuel fuel.
    rewrite parse_elements_eq, Hscan by lia. rewrite Hb.
    change (44 =? 93) with false. change (44 =? 44) with true. cbv iota.
    rewrite Hl; [reflexivity|lia].
  - intros s s1 s2 r Hw Hv IHv Hw2 Hr.
    destruct (IHv (ws_closes _ _ Hw2 Hr)) as [v Hscan].
    exists v, s2. split; [now rewrite (skip_ws_ws _ _ Hw2), skip_ws_closes|].
    intros fuel Hf. len_of Hw. len_of Hw2.
    rewrite (skip_ws_ws _ _ Hw), (skip_ws_value _ _ _ Hv). apply Hscan. lia.
Qed.

Lemma json_loads_with (s : text) :
  json names s -> exists v, loads_with parse_constant s = Ok v.
Proof.
  intros H. destruct (proj2 (proj2 (proj2 (proj2 (proj2 (proj2 grammar_scan))))) s [] H eq_refl)
    as [v [b [Hb Hscan]]].
  exists v. unfold loads_with. rewrite Hscan by (cbn [List.length]; lia).
  now rewrite Hb.
Qed.

(** A text whose value is an object is read as a dictionary. *)
Lemma object_loads_with (s s1 s2 : text) :
  ws s s1 -> object names s1 s2 -> ws s2 [] ->
  exists items, loads_with parse_constant s = Ok (PDict items).
Proof.
  intros Hw Ho Hw2.
  destruct (proj1 (proj2 grammar_scan) s1 s2 Ho) as [items Hscan].
  exists items. unfold loads_with.
  assert (Hs1 : skip_ws s1 = s1) by (destruct Ho; reflexivity).
  len_of Hw. len_of Hw2.
  rewrite (skip_ws_ws _ _ Hw), Hs1, Hscan by lia.
  now rewrite (skip_ws_ws _ _ Hw2).
Qed.

End Complete.

Lemma names_more (names : bool) :
  (forall s r, value names s r -> value true s r)
  /\ (forall s r, object names s r -> object true s r)
  /\ (forall s r, members names s r -> members true s r)
  /\ (forall s r, member names s r -> member true s r)
  /\ (forall s r, array names s r -> array true s r)
  /\ (forall s r, elements names s r -> elements true s r)
  /\ (forall s r, element names s r -> element true s r).
Proof.
  apply grammar_ind; intros;
    first [ now apply value_object | now apply value_array | now apply value_string
          | now apply value_number | apply value_true | apply value_false
          | apply value_null | now apply value_NaN | now apply value_Infinity
          | now apply value_minus_Infinity | now apply object_empty
          | now apply object_members | now apply members_one
          | now apply members_more with s1 | now apply member_pair with s1 s2 s3
          | now apply array_empty | now apply array_elements | now apply elements_one
          | now apply elements_more with s1 | now apply element_value with s1 s2 ].
Qed.

(** Every JSON text is a text of the grammar with the three names. *)
Lemma json_names (names : bool) (s : text) : json names s -> json true s.
Proof. apply (names_more names). Qed.


(** *** [json.loads] and the grammar *)

Lemma _CONSTANTS_names (name : text) :
  In name [lit "NaN"; lit "Infinity"; lit "-Infinity"] ->
  exists v, _CONSTANTS name = Some v.
Proof. intros [<-|[<-|[<-|[]]]]; eexists; reflexivity. Qed.

(** [json.loads] accepts the texts of the grammar with the three names. *)
Lemma json_loads (names : bool) (s : text) : json names s -> exists v, loads s = Ok v.
Proof.
  intros H. apply json_names in H.
  apply (json_loads_with _CONSTANTS true); [|exact H].
  intros _. exact _CONSTANTS_names.
Qed.

(** And it accepts no other text. *)
Lemma loads_json (s : text) (v : pyval) :
  is_str s = true -> loads s = Ok v -> json true s.
Proof. intros Hs. now apply loads_with_json. Qed.

(** It reads an object as a dictionary. *)
Lemma object_loads (names : bool) (s s1 s2 : text) :
  ws s s1 -> object names s1 s2 -> ws s2 [] ->
  exists items, loads s = Ok (PDict items).
Proof.
  intros Hw Ho Hw2. apply (object_loads_with _CONSTANTS true) with s1 s2; auto.
  - intros _. exact _CONSTANTS_names.
  - now apply (names_more names).
Qed.

Lemma loads_Raise (s : text) (e : exn) : loads s = Raise e -> e = JSONDecodeError.
Proof.
  unfold loads, loads_with.
  destruct (scan_once _ _ _) as [[v r]|]; [destruct (skip_ws r)|]; congruence.
Qed.

(** With a hook that refuses the three names, [json.loads] accepts the texts
    of JSON. *)
Lemma json_loads_strict (s : text) :
  json false s -> exists v, loads_with reject_constant s = Ok v.
Proof. apply json_loads_with. discriminate. Qed.

(** C2, as the code has it: the encoding of a record that holds the float
    NaN is not a JSON text, and [FromFile]'s decoding accepts it. *)
Lemma decode_accepts_invalid_json :
  ~ json false (AsJson nan_record)
  /\ decode (AsJson nan_record) = Ok nan_record.
Proof.
  split; [|vm_compute; reflexivity].
  intros H. apply json_loads_strict in H as [v H]. vm_compute in H. discriminate.
Qed.

(** C2, amended: decoding fails with the error of [json.loads] when the text
    is not a text of the JSON grammar with the names NaN, Infinity and
    -Infinity added as values; [json.loads] reads every text of that
    grammar, every JSON text among them, and reads an object as a
    dictionary.  Decoding fails when the value read is not an object, when
    one of the seven keys is absent, and when another key is present; it
    succeeds when the keys of the object are exactly the seven field names,
    in whatever order they stand in the text, and every field of the record
    is then the value of its key. *)
Theorem decode_strict (s : text) :
  (is_str s = true -> ~ json true s -> decode s = Raise JSONDecodeError)
  /\ (forall names, json names s -> exists v, loads s = Ok v)
  /\ (forall names s1 s2, ws s s1 -> object names s1 s2 -> ws s2 [] ->
        exists items, loads s = Ok (PDict items))
  /\ (forall v, loads s = Ok v -> (forall items, v <> PDict items) ->
        decode s = Raise TypeError)
  /\ (forall items k, loads s = Ok (PDict items) -> In k fields ->
        getitem k items = None -> decode s = Raise TypeError)
  /\ (forall items k, loads s = Ok (PDict items) -> In k (map fst items) ->
        ~ In k fields -> decode s = Raise TypeError)
  /\ (forall items, loads s = Ok (PDict items) ->
        (forall k, In k (map fst items) <-> In k fields) ->
        exists r, decode s = Ok r
                  /\ Forall (fun kv => getitem (fst kv) items = Some (snd kv))
                       (_asdict r)).
Proof.
  unfold decode. repeat split.
  - intros Hs Hn. destruct (loads s) as [v|e] eqn:E.
    + exfalso. apply Hn. now apply loads_json with v.
    + apply loads_Raise in E. now subst.
  - intros names. apply json_loads.
  - intros names s1 s2. apply object_loads.
  - intros v Hl Hn. rewrite Hl. cbn [bind].
    destruct v; try reflexivity. now destruct (Hn items).
  - intros items k Hl Hk Hg. rewrite Hl. now apply RunData_kwargs_missing with k.
  - intros items k Hl Hk Hn. rewrite Hl. now apply RunData_kwargs_extra with k.
  - intros items Hl Hk. rewrite Hl. now apply RunData_kwargs_exact.
Qed.

Lemma decode_strict_witness :
  (is_str (lit "{") = true /\ ~ json true (lit "{")
   /\ decode (lit "{") = Raise JSONDecodeError)
  /\ (loads example_text_field_order = Ok (PDict (_asdict example_record))
      /\ (forall k, In k (map fst (_asdict example_record)) <-> In k fields)
      /\ exists r, decode example_text_field_order = Ok r
                   /\ Forall (fun kv => getitem (fst kv) (_asdict example_record)
                                        = Some (snd kv)) (_asdict r)).
Proof.
  assert (Hs : is_str (lit "{") = true) by reflexivity.
  assert (Hn : ~ json true (lit "{")).
  { intros H. apply (json_loads true) in H as [v H]. vm_compute in H. discriminate. }
  assert (Hl : loads example_text_field_order = Ok (PDict (_asdict example_record)))
    by (vm_compute; reflexivity).
  assert (Hk : forall k, In k (map fst (_asdict example_record)) <-> In k fields)
    by (intros k; reflexivity).
  split.
  - split; [exact Hs|]. split; [exact Hn|].
    exact (proj1 (decode_strict (lit "{")) Hs Hn).
  - split; [exact Hl|]. split; [exact Hk|].
    exact (proj2 (proj2 (proj2 (proj2 (proj2 (proj2
             (decode_strict example_text_field_order))))))
             (_asdict example_record) Hl Hk).
Defined.


(** ** Equal records *)















(** ** The file system: reading what was written *)

Lemma lookup_put (nm name data : text) (es : list (text * node)) :
  lookup nm (put name data es)
  = if text_eqb nm name then Some (File true data) else lookup nm es.
Proof.
  induction es as [|[n c] es IH]; cbn [put lookup].
  - reflexivity.
  - destruct (text_eqb name n) eqn:E; cbn [lookup].
    + apply text_eqb_eq in E. subst n. now destruct (text_eqb nm name).
    + rewrite IH. destruct (text_eqb nm n) eqn:E2; [|reflexivity].
      apply text_eqb_eq in E2. subst n.
      destruct (text_eqb nm name) eqn:E3; [|reflexivity].
      apply text_eqb_eq in E3. subst. rewrite text_eqb_refl in E. discriminate.
Qed.

Lemma lookup_update (p1 nm : text) (path : list text)
    (f : list (text * node) -> list (text * node)) (es : list (text * node)) :
  lookup nm (map (fun e => if text_eqb p1 (fst e)
                           then (fst e, update (snd e) path f) else e) es)
  = if text_eqb p1 nm
    then option_map (fun c => update c path f) (lookup nm es)
    else lookup nm es.
Proof.
  induction es as [|[n c] es IH]; cbn [map lookup fst snd].
  - now destruct (text_eqb p1 nm).
  - destruct (text_eqb p1 n) eqn:E; cbn [lookup]; rewrite IH;
      destruct (text_eqb nm n) eqn:E2; try reflexivity.
    + apply text_eqb_eq in E2. subst n. now rewrite E.
    + apply text_eqb_eq in E2. subst n. now rewrite E.
Qed.

Lemma get_app (n : node) (a b : list text) :
  get n (a ++ b) = match get n a with Some m => get m b | None => None end.
Proof.
  revert n; induction a as [|x a IH]; intros n; [reflexivity|].
  cbn [app get]. destruct n as [|acc es]; [reflexivity|].
  destruct (lookup x es); [apply IH|reflexivity].
Qed.

Lemma get_update_self (path : list text) (f : list (text * node) -> list (text * node)) :
  forall (n : node) (a : bool) (es : list (text * node)),
    get n path = Some (Dir a es) ->
    get (update n path f) path = Some (Dir a (f es)).
Proof.
  induction path as [|p1 path IH]; intros n a es H.
  - cbn [get] in H. injection H as ->. reflexivity.
  - cbn [get] in H. destruct n as [|a0 es0]; [discriminate|].
    destruct (lookup p1 es0) as [c|] eqn:E; [|discriminate].
    cbn [update get]. rewrite lookup_update, text_eqb_refl, E. cbn [option_map].
    now apply IH.
Qed.

Section WriteThenRead.

Variables name data : text.

(** Writing a file that is not a directory keeps every directory in place,
    with its permission and with at least the names it had. *)
Lemma get_update_put_dir (path : list text) :
  forall (n : node) (q : list text) (a ap : bool) (es esp : list (text * node)),
    get n path = Some (Dir ap esp) ->
    (forall a' es', lookup name esp <> Some (Dir a' es')) ->
    get n q = Some (Dir a es) ->
    exists es', get (update n path (put name data)) q = Some (Dir a es')
                /\ forall nm, lookup nm es <> None -> lookup nm es' <> None.
Proof.
  induction path as [|p1 path IH]; intros n q a ap es esp Hp Hn Hq.
  - cbn [get] in Hp. injection Hp as ->. cbn [update].
    destruct q as [|nm q].
    + cbn [get] in Hq |- *. injection Hq as <- <-.
      eexists. split; [reflexivity|].
      intros nm H. rewrite lookup_put. now destruct (text_eqb nm name).
    + cbn [get] in Hq |- *. rewrite lookup_put.
      destruct (text_eqb nm name) eqn:E.
      * apply text_eqb_eq in E. subst nm. exfalso.
        destruct (lookup name esp) as [[acc d|acc es0]|] eqn:El;
          [|now apply (Hn acc es0)|discriminate].
        destruct q; discriminate.
      * destruct (lookup nm esp) as [c|]; [|discriminate].
        exists es. split; [exact Hq|auto].
  - cbn [get] in Hp. destruct n as [|a0 es0]; [discriminate|].
    destruct (lookup p1 es0) as [c|] eqn:E; [|discriminate].
    cbn [update]. destruct q as [|nm q].
    + cbn [get] in Hq |- *. injection Hq as <- <-.
      eexists. split; [reflexivity|].
      intros nm H. rewrite lookup_update.
      destruct (text_eqb p1 nm); [|exact H].
      destruct (lookup nm es0); [discriminate|contradiction].
    + cbn [get] in Hq |- *. rewrite lookup_update.
      destruct (text_eqb p1 nm) eqn:E2.
      * apply text_eqb_eq in E2. subst nm. rewrite E in Hq |- *.
        cbn [option_map]. now apply (IH c q a ap es esp).
      * destruct (lookup nm es0) as [c'|]; [|discriminate].
        exists es. split; [exact Hq|auto].
Qed.

Lemma walk_update_put (rt : node) (path : list text) (ap : bool)
    (esp : list (text * node)) :
  get rt path = Some (Dir ap esp) ->
  (forall a' es', lookup name esp <> Some (Dir a' es')) ->
  forall (comps cur q : list text),
    walk rt cur comps = Ok q ->
    walk (update rt path (put name data)) cur comps = Ok q.
Proof.
  intros Hp Hn. induction comps as [|comp comps IH]; intros cur q H; [exact H|].
  cbn [walk] in H |- *.
  destruct (get rt cur) as [[acc d|[|] es]|] eqn:E; try discriminate.
  destruct (get_update_put_dir path rt cur true ap es esp Hp Hn E) as [es' [-> Hl]].
  destruct (is_dot comp); [now apply IH|].
  destruct (is_dotdot comp); [now apply IH|].
  destruct (lookup comp es) as [c|] eqn:El; [|discriminate].
  destruct (lookup comp es') as [c'|] eqn:El'.
  - now apply IH.
  - exfalso. apply (Hl comp); [congruence|exact El'].
Qed.

End WriteThenRead.

Lemma walk_app (rt : node) (a b cur : list text) :
  walk rt cur (a ++ b)
  = match walk rt cur a with
    | Ok c => walk rt c b
    | Raise e => Raise e
    end.
Proof.
  revert cur; induction a as [|x a IH]; intros cur; [reflexivity|].
  cbn [app walk].
  destruct (get rt cur) as [[acc d|[|] es]|]; try reflexivity.
  destruct (is_dot x); [apply IH|].
  destruct (is_dotdot x); [apply IH|].
  destruct (lookup x es); [apply IH|reflexivity].
Qed.

Lemma split_nonempty (p : text) : split p <> [].
Proof.
  induction p as [|c p IH]; cbn [split]; [discriminate|].
  destruct (c =? SLASH); [discriminate|].
  destruct (split p); [contradiction|discriminate].
Qed.

(** What [open(p, 'w')] followed by [write(data)] leaves is what [open(p)]
    followed by [read()] returns. *)
Lemma read_file_write_file (fs fs' : filesystem) (p data : text) :
  write_file fs p data = Ok fs' -> read_file fs' p = Ok data.
Proof.
  unfold write_file, read_file, locate.
  destruct (has_nul p); [discriminate|].
  destruct p as [|c0 p0]; [discriminate|].
  remember (c0 :: p0) as p eqn:Ep. clear Ep c0 p0. cbv zeta.
  remember (last (split p) []) as name eqn:En.
  remember (removelast (split p)) as dirs eqn:Edirs.
  assert (Hs : split p = dirs ++ [name]).
  { subst name dirs. apply app_removelast_last, split_nonempty. }
  destruct (walk (root fs) (start fs p) dirs) as [parent|e] eqn:Ew; [|discriminate].
  cbn [bind].
  destruct (get (root fs) parent) as [[acc d|[|] es]|] eqn:Eg; try discriminate.
  destruct (is_dot name || is_dotdot name) eqn:Ed; [discriminate|].
  apply orb_false_iff in Ed as [Ed1 Ed2].
  intros H.
  assert (Hn : forall a' es', lookup name es <> Some (Dir a' es')).
  { intros a' es' E. rewrite E in H. discriminate. }
  assert (Hfs : fs' = mkFS (update (root fs) parent (put name data)) (cwd fs)).
  { destruct (lookup name es) as [[[|] d|a' es']|]; try discriminate; congruence. }
  clear H. subst fs'. cbn [root].
  replace (start {| root := update (root fs) parent (put name data); cwd := cwd fs |} p)
    with (start fs p) by reflexivity.
  rewrite Hs, walk_app.
  rewrite (walk_update_put name data (root fs) parent true es Eg Hn _ _ _ Ew).
  cbn [walk]. rewrite (get_update_self parent _ _ _ _ Eg).
  rewrite Ed1, Ed2, lookup_put, text_eqb_refl. cbn [bind].
  rewrite get_app, (get_update_self parent _ _ _ _ Eg).
  cbn [get]. now rewrite lookup_put, text_eqb_refl.
Qed.

(** ** Paths made by [os.path.join] *)

Lemma split_plain (name : text) :
  existsb (N.eqb SLASH) name = false -> split name = [name].
Proof.
  induction name as [|c name IH]; [reflexivity|].
  cbn [existsb]. intros H. apply orb_false_iff in H as [Hc Hn].
  cbn [split]. rewrite N.eqb_sym, Hc, IH by exact Hn. reflexivity.
Qed.

Lemma split_app_slash (a b : text) : split (a ++ SLASH :: b) = split a ++ split b.
Proof.
  induction a as [|c a IH]; cbn [app split].
  - now rewrite N.eqb_refl.
  - destruct (c =? SLASH); [now rewrite IH|].
    rewrite IH. destruct (split a) as [|comp rest] eqn:E; [|reflexivity].
    now destruct (split_nonempty a).
Qed.

Lemma has_nul_app (a b : text) : has_nul (a ++ b) = has_nul a || has_nul b.
Proof. unfold has_nul. apply existsb_app. Qed.

Lemma ends_with_slash_inv (a : text) :
  ends_with_slash a = true -> exists d, a = d ++ [SLASH].
Proof.
  unfold ends_with_slash. destruct (rev a) as [|c t] eqn:E; [discriminate|].
  intros H. apply N.eqb_eq in H. subst c. exists (rev t).
  rewrite <- (rev_involutive a), E. reflexivity.
Qed.

Lemma start_app (fs : filesystem) (a b : text) :
  a <> [] -> start fs (a ++ b) = start fs a.
Proof. destruct a; [contradiction|reflexivity]. Qed.

Lemma plain_name_inv (name : text) :
  plain_name name = true ->
  is_dot name = false /\ is_dotdot name = false
  /\ existsb (N.eqb SLASH) name = false /\ has_nul name = false.
Proof.
  unfold plain_name. intros H.
  apply andb_true_iff in H as [H H4]. apply andb_true_iff in H as [H H3].
  apply andb_true_iff in H as [H1 H2].
  repeat split; now apply negb_true_iff.
Qed.

Lemma locate_inv (fs : filesystem) (p : text) (dp : list text) :
  locate fs p = Ok dp ->
  has_nul p = false /\ p <> [] /\ walk (root fs) (start fs p) (split p) = Ok dp.
Proof.
  unfold locate. destruct (has_nul p); [discriminate|].
  destruct p; [discriminate|]. intros H. repeat split; [discriminate|exact H].
Qed.

Lemma walk_empty_component (rt : node) (c dp : list text) :
  walk rt c [[]] = Ok dp -> c = dp.
Proof.
  cbn [walk]. destruct (get rt c) as [[acc d|[|] es]|]; try discriminate.
  cbn. congruence.
Qed.

(** The path [os.path.join] makes from a directory and a plain name: its
    last component is the name, and the components before it lead to the
    directory. *)
Lemma os_path_join_resolves (fs : filesystem) (directory name : text) (dp : list text) :
  locate fs directory = Ok dp -> plain_name name = true ->
  exists dirs,
    split (os_path_join directory name) = dirs ++ [name]
    /\ walk (root fs) (start fs (os_path_join directory name)) dirs = Ok dp
    /\ has_nul (os_path_join directory name) = false
    /\ os_path_join directory name <> [].
Proof.
  intros Hl Hp. apply locate_inv in Hl as [Hnul [Hne Hw]].
  apply plain_name_inv in Hp as [Hd [_ [Hs Hn]]].
  unfold os_path_join.
  destruct name as [|c name]; [discriminate|].
  assert (Hc : (c =? SLASH) = false).
  { cbn [existsb] in Hs. apply orb_false_iff in Hs as [Hs _].
    now rewrite N.eqb_sym. }
  rewrite Hc.
  destruct directory as [|d0 directory]; [contradiction|].
  cbv iota. rewrite orb_false_l.
  destruct (ends_with_slash (d0 :: directory)) eqn:Ee.
  - apply ends_with_slash_inv in Ee as [d Ed]. rewrite Ed in *.
    rewrite <- app_assoc. cbn [app].
    rewrite split_app_slash in Hw |- *. rewrite (split_plain _ Hs).
    cbn [split] in Hw. rewrite walk_app in Hw.
    exists (split d). split; [reflexivity|].
    assert (Hst : start fs (d ++ SLASH :: c :: name) = start fs (d ++ [SLASH])).
    { destruct d; reflexivity. }
    rewrite Hst. split; [|split].
    + destruct (walk (root fs) (start fs (d ++ [SLASH])) (split d)) as [q|e];
        [|discriminate].
      f_equal. now apply (walk_empty_component (root fs)).
    + rewrite has_nul_app in Hnul |- *. apply orb_false_iff in Hnul as [Hnul _].
      rewrite Hnul. exact Hn.
    + destruct d; discriminate.
  - exists (split (d0 :: directory)).
    rewrite split_app_slash, (split_plain _ Hs).
    split; [reflexivity|]. split; [|split].
    + rewrite start_app by discriminate. exact Hw.
    + rewrite has_nul_app, Hnul. exact Hn.
    + discriminate.
Qed.

(** A plain name that a directory lists is found under that directory. *)
Lemma locate_os_path_join (fs : filesystem) (directory name : text)
    (es : list (text * node)) (c : node) :
  is_directory fs directory es -> plain_name name = true ->
  lookup name es = Some c ->
  exists cp, locate fs (os_path_join directory name) = Ok cp
             /\ get (root fs) cp = Some c.
Proof.
  intros [dp [Hl Hg]] Hp Hc.
  destruct (os_path_join_resolves fs directory name dp Hl Hp)
    as [dirs [Hs [Hw [Hnul Hne]]]].
  apply plain_name_inv in Hp as [Hd [Hdd _]].
  exists (dp ++ [name]). split.
  - unfold locate. rewrite Hnul.
    destruct (os_path_join directory name) as [|c0 p0] eqn:E; [contradiction|].
    rewrite Hs, walk_app, Hw. cbn [walk]. now rewrite Hg, Hd, Hdd, Hc.
  - rewrite get_app, Hg. cbn [get]. now rewrite Hc.
Qed.

Lemma write_file_os_path_join (fs : filesystem) (directory name data : text)
    (es : list (text * node)) :
  is_directory fs directory es -> plain_name name = true ->
  may_write name es = true ->
  exists fs', write_file fs (os_path_join directory name) data = Ok fs'.
Proof.
  intros [dp [Hl Hg]] Hp Hm.
  destruct (os_path_join_resolves fs directory name dp Hl Hp)
    as [dirs [Hs [Hw [Hnul Hne]]]].
  apply plain_name_inv in Hp as [Hd [Hdd _]].
  unfold write_file. rewrite Hnul.
  destruct (os_path_join directory name) as [|c0 p0] eqn:E; [contradiction|].
  cbv zeta. rewrite Hs, removelast_last, last_last, Hw. cbn [bind].
  rewrite Hg, Hd, Hdd. cbn [orb].
  unfold may_write in Hm.
  destruct (lookup name es) as [[[|] d|a' es']|]; try discriminate; eauto.
Qed.

(** ** Saving and loading *)

Lemma SaveToFile_inv (self : RunData) (fs fs' : filesystem) (directory filename : text) :
  SaveToFile self fs directory = Ok (fs', filename) ->
  exists name, station_name self = PStr name
               /\ filename = os_path_join directory name
               /\ write_file fs filename (AsJson self) = Ok fs'.
Proof.
  unfold SaveToFile. destruct (station_name self) as [| | | |name| |]; try discriminate.
  cbv zeta.
  destruct (write_file fs (os_path_join directory name) (AsJson self)) as [fs0|e] eqn:E;
    [|discriminate].
  cbn [bind]. intros H. injection H as <- <-. now exists name.
Qed.

Lemma SaveToFile_succeeds (self : RunData) (fs : filesystem) (directory name : text)
    (es : list (text * node)) :
  station_name self = PStr name -> plain_name name = true ->
  is_directory fs directory es -> may_write name es = true ->
  exists fs', SaveToFile self fs directory = Ok (fs', os_path_join directory name).
Proof.
  intros Hs Hp Hd Hm.
  destruct (write_file_os_path_join fs directory name (AsJson self) es Hd Hp Hm)
    as [fs' Hw].
  exists fs'. unfold SaveToFile. rewrite Hs. cbv zeta. now rewrite Hw.
Qed.

(** C6: when [SaveToFile] returns, the name it returns is the directory
    joined with the station name, and the file of that name holds the
    canonical encoding of the record, whatever it held before; and it does
    return when the directory exists and may be used, the station name is a
    plain file name and no directory or protected file has that name. *)
Theorem SaveToFile_writes (self : RunData) (fs : filesystem) (directory : text) :
  (forall fs' filename,
     SaveToFile self fs directory = Ok (fs', filename) ->
     exists name, station_name self = PStr name
                  /\ filename = os_path_join directory name
                  /\ read_file fs' filename = Ok (AsJson self))
  /\ (forall name es,
        station_name self = PStr name -> plain_name name = true ->
        is_directory fs directory es -> may_write name es = true ->
        exists fs',
          SaveToFile self fs directory = Ok (fs', os_path_join directory name)).
Proof.
  split.
  - intros fs' filename H.
    apply SaveToFile_inv in H as [name [Hs [Hf Hw]]].
    exists name. repeat split; try assumption.
    now apply read_file_write_file with fs.
  - intros name es. apply SaveToFile_succeeds.
Qed.

Lemma SaveToFile_writes_witness :
  station_name example_record = PStr (lit "st")
  /\ plain_name (lit "st") = true
  /\ is_directory stale_fs (lit "/run") [(lit "st", File true (lit "old"))]
  /\ may_write (lit "st") [(lit "st", File true (lit "old"))] = true
  /\ exists fs',
       SaveToFile example_record stale_fs (lit "/run")
       = Ok (fs', os_path_join (lit "/run") (lit "st")).
Proof.
  assert (Hd : is_directory stale_fs (lit "/run") [(lit "st", File true (lit "old"))]).
  { exists [lit "run"]. split; reflexivity. }
  split; [reflexivity|]. split; [reflexivity|]. split; [exact Hd|].
  split; [reflexivity|].
  exact (proj2 (SaveToFile_writes example_record stale_fs (lit "/run"))
           (lit "st") _ eq_refl eq_refl Hd eq_refl).
Defined.

Lemma FromFile_decode (fs : filesystem) (filename data : text) :
  read_file fs filename = Ok data -> FromFile fs filename = decode data.
Proof. intros H. unfold FromFile, decode. now rewrite H. Qed.

Lemma FromFile_read (fs : filesystem) (filename : text) (r : RunData) :
  valid_record r = true -> read_file fs filename = Ok (AsJson r) ->
  FromFile fs filename = Ok r.
Proof.
  intros Hv Hr. rewrite (FromFile_decode fs filename _ Hr).
  now apply decode_AsJson_valid.
Qed.

(** C7: for a record with representable fields, [FromFile] on the name that
    [SaveToFile] returns gives the record back; and in a directory that
    exists and may be used, with a plain station name that no directory or
    protected file has, [SaveToFile] does return that name. *)
Theorem FromFile_SaveToFile (r : RunData) (fs : filesystem) (directory : text) :
  valid_record r = true ->
  (forall fs' filename,
     SaveToFile r fs directory = Ok (fs', filename) -> FromFile fs' filename = Ok r)
  /\ (forall name es,
        station_name r = PStr name -> plain_name name = true ->
        is_directory fs directory es -> may_write name es = true ->
        exists fs',
          SaveToFile r fs directory = Ok (fs', os_path_join directory name)
          /\ FromFile fs' (os_path_join directory name) = Ok r).
Proof.
  intros Hv.
  assert (H1 : forall fs' filename,
             SaveToFile r fs directory = Ok (fs', filename) ->
             FromFile fs' filename = Ok r).
  { intros fs' filename H.
    apply SaveToFile_inv in H as [name [Hs [Hf Hw]]].
    apply FromFile_read; [exact Hv|]. now apply read_file_write_file with fs. }
  split; [exact H1|].
  intros name es Hs Hp Hd Hm.
  destruct (SaveToFile_succeeds r fs directory name es Hs Hp Hd Hm) as [fs' H].
  exists fs'. split; [exact H|]. now apply H1.
Qed.

Lemma FromFile_SaveToFile_witness :
  valid_record example_record = true
  /\ exists fs',
       SaveToFile example_record stale_fs (lit "/run")
       = Ok (fs', os_path_join (lit "/run") (lit "st"))
       /\ FromFile fs' (os_path_join (lit "/run") (lit "st")) = Ok example_record.
Proof.
  split; [reflexivity|].
  apply (proj2 (FromFile_SaveToFile example_record stale_fs (lit "/run") eq_refl)
           (lit "st") [(lit "st", File true (lit "old"))]);
    try reflexivity.
  exists [lit "run"]. split; reflexivity.
Defined.

(** ** Enumerating a run directory *)

Lemma listdir_directory (fs : filesystem) (directory : text) (es : list (text * node)) :
  is_directory fs directory es -> listdir fs directory = Ok (map fst es).
Proof. intros [dp [Hl Hg]]. unfold listdir. now rewrite Hl; cbn [bind]; rewrite Hg. Qed.

Lemma lookup_NoDup (es : list (text * node)) (name : text) (c : node) :
  NoDup (map fst es) -> In (name, c) es -> lookup name es = Some c.
Proof.
  induction es as [|[n c'] es IH]; intros Hnd Hin; [destruct Hin|].
  cbn [map fst] in Hnd. inversion Hnd as [|? ? Hn Hnd']; subst.
  cbn [lookup]. destruct Hin as [E|Hin].
  - injection E as -> ->. now rewrite text_eqb_refl.
  - destruct (text_eqb name n) eqn:E; [|now apply IH].
    apply text_eqb_eq in E. subst n. exfalso. apply Hn.
    change name with (fst (name, c)). now apply in_map.
Qed.

Lemma isfile_child (fs : filesystem) (directory name : text)
    (es : list (text * node)) (c : node) :
  is_directory fs directory es -> plain_name name = true ->
  lookup name es = Some c ->
  isfile fs (os_path_join directory name) = is_regular c.
Proof.
  intros Hd Hp Hc.
  destruct (locate_os_path_join fs directory name es c Hd Hp Hc) as [cp [Hl Hg]].
  unfold isfile. rewrite Hl, Hg. now destruct c.
Qed.

Lemma read_file_child (fs : filesystem) (directory name data : text)
    (es : list (text * node)) :
  is_directory fs directory es -> plain_name name = true ->
  lookup name es = Some (File true data) ->
  read_file fs (os_path_join directory name) = Ok data.
Proof.
  intros Hd Hp Hc.
  destruct (locate_os_path_join fs directory name es _ Hd Hp Hc) as [cp [Hl Hg]].
  unfold read_file. rewrite Hl. cbn [bind]. now rewrite Hg.
Qed.

Lemma load_files_children (fs : filesystem) (directory : text)
    (es : list (text * node)) (rec : text -> RunData) :
  is_directory fs directory es ->
  Forall (fun e => plain_name (fst e) = true) es -> NoDup (map fst es) ->
  (forall name a data, In (name, File a data) es ->
     a = true /\ decode data = Ok (rec name)) ->
  forall l, incl l es ->
    load_files fs (map (os_path_join directory) (map fst l))
    = Ok (map (fun e => rec (fst e)) (filter (fun e => is_regular (snd e)) l)).
Proof.
  intros Hd Hp Hnd Hf. induction l as [|[name c] l IH]; intros Hl; [reflexivity|].
  assert (Hin : In (name, c) es) by (apply Hl; now left).
  assert (Hpn : plain_name name = true).
  { rewrite Forall_forall in Hp. exact (Hp _ Hin). }
  pose proof (lookup_NoDup es name c Hnd Hin) as Hc.
  cbn [map fst load_files filter snd].
  rewrite (isfile_child fs directory name es c Hd Hpn Hc).
  rewrite IH by (intros x Hx; apply Hl; now right).
  destruct c as [a data|a es']; cbn [is_regular]; [|reflexivity].
  destruct (Hf name a data Hin) as [-> Hdec].
  rewrite (FromFile_decode fs _ data
             (read_file_child fs directory name data es Hd Hpn Hc)).
  rewrite Hdec. reflexivity.
Qed.

(** C3, as the code has it: the records come in the order in which the
    directory lists its entries; here [b] is listed before [a]. *)
Lemma EnumerateRunDirectory_not_sorted :
  EnumerateRunDirectory example_fs (lit "/run")
  = Ok [record_named "b"; record_named "a"]
  /\ text_ltb (lit "a") (lit "b") = true.
Proof. split; vm_compute; reflexivity. Qed.

(** C3, amended: in a directory whose regular files are readable and all
    decode, [EnumerateRunDirectory] returns exactly one record for every
    regular file and none for a child directory; the records stand in the
    order in which [os.listdir] reports the entries, which is fixed for a
    fixed directory state and is not sorted by the code. *)
Theorem EnumerateRunDirectory_lists (fs : filesystem) (directory : text)
    (es : list (text * node)) (rec : text -> RunData) :
  is_directory fs directory es ->
  Forall (fun e => plain_name (fst e) = true) es -> NoDup (map fst es) ->
  (forall name a data, In (name, File a data) es ->
     a = true /\ decode data = Ok (rec name)) ->
  EnumerateRunDirectory fs directory
  = Ok (map (fun e => rec (fst e)) (filter (fun e => is_regular (snd e)) es)).
Proof.
  intros Hd Hp Hnd Hf. unfold EnumerateRunDirectory.
  rewrite (listdir_directory fs directory es Hd). cbn [bind].
  apply (load_files_children fs directory es rec Hd Hp Hnd Hf).
  apply incl_refl.
Qed.

Lemma EnumerateRunDirectory_lists_witness :
  is_directory example_fs (lit "/run") run_entries
  /\ EnumerateRunDirectory example_fs (lit "/run")
     = Ok (map (fun e => record_of_station (fst e))
             (filter (fun e => is_regular (snd e)) run_entries)).
Proof.
  assert (Hd : is_directory example_fs (lit "/run") run_entries).
  { exists [lit "run"]. split; reflexivity. }
  split; [exact Hd|].
  apply (EnumerateRunDirectory_lists example_fs (lit "/run") run_entries
           record_of_station Hd).
  - repeat constructor.
  - cbv. repeat (constructor; [simpl; intuition discriminate|]). constructor.
  - intros name a data Hin.
    destruct Hin as [E|[E|[E|[]]]]; try discriminate;
      injection E as <- <- <-; split; try reflexivity; vm_compute; reflexivity.
Defined.

Lemma load_files_first_failure (fs : filesystem) (before after : list text)
    (p : text) (e : exn) :
  (forall q, In q before -> isfile fs q = true -> exists r, FromFile fs q = Ok r) ->
  isfile fs p = true -> FromFile fs p = Raise e ->
  load_files fs (before ++ p :: after) = Raise e.
Proof.
  induction before as [|a before IH]; intros H Hi Hf; cbn [app load_files].
  - now rewrite Hi, Hf.
  - assert (IH' : load_files fs (before ++ p :: after) = Raise e).
    { apply IH; [|exact Hi|exact Hf]. intros q Hq. apply H. now right. }
    destruct (isfile fs a) eqn:E; [|exact IH'].
    destruct (H a (or_introl eq_refl) E) as [r Hr].
    rewrite Hr, IH'. reflexivity.
Qed.

Lemma load_files_some_failure (fs : filesystem) (paths : list text) (p : text) (e : exn) :
  In p paths -> isfile fs p = true -> FromFile fs p = Raise e ->
  exists p' e', In p' paths /\ isfile fs p' = true /\ FromFile fs p' = Raise e'
                /\ load_files fs paths = Raise e'.
Proof.
  induction paths as [|a paths IH]; intros Hin Hi Hf; [destruct Hin|].
  cbn [load_files].
  destruct (isfile fs a) eqn:Ea.
  - destruct (FromFile fs a) as [r|e0] eqn:Er.
    + destruct Hin as [->|Hin]; [congruence|].
      destruct (IH Hin Hi Hf) as [p' [e' [Hp' [Hi' [Hf' Hl]]]]].
      exists p', e'. repeat split; auto; [now right|]. now rewrite Hl.
    + exists a, e0. repeat split; auto. now left.
  - destruct Hin as [->|Hin]; [congruence|].
    destruct (IH Hin Hi Hf) as [p' [e' [Hp' [Hi' [Hf' Hl]]]]].
    exists p', e'. repeat split; auto. now right.
Qed.

(** C4: when a regular file of the directory fails to load, because it
    cannot be read, is not JSON or has the wrong fields, the enumeration
    raises and returns no records at all, also not those of the files that
    load; the exception is that of the first such file in listing order, so
    it is the exception of the failing file when there is one. *)
Theorem EnumerateRunDirectory_fails_fast (fs : filesystem) (directory : text)
    (names : list text) :
  listdir fs directory = Ok names ->
  (forall before name after e,
     names = before ++ name :: after ->
     (forall n, In n before -> isfile fs (os_path_join directory n) = true ->
        exists r, FromFile fs (os_path_join directory n) = Ok r) ->
     isfile fs (os_path_join directory name) = true ->
     FromFile fs (os_path_join directory name) = Raise e ->
     EnumerateRunDirectory fs directory = Raise e)
  /\ (forall name e,
        In name names ->
        isfile fs (os_path_join directory name) = true ->
        FromFile fs (os_path_join directory name) = Raise e ->
        exists name' e',
          In name' names
          /\ isfile fs (os_path_join directory name') = true
          /\ FromFile fs (os_path_join directory name') = Raise e'
          /\ EnumerateRunDirectory fs directory = Raise e').
Proof.
  intros Hl. unfold EnumerateRunDirectory. rewrite Hl. cbn [bind]. split.
  - intros before name after e -> Hb Hi Hf.
    rewrite map_app. cbn [map]. apply load_files_first_failure; auto.
    intros q Hq Hiq. apply in_map_iff in Hq as [n [<- Hn]]. now apply Hb.
  - intros name e Hin Hi Hf.
    destruct (load_files_some_failure fs (map (os_path_join directory) names)
                (os_path_join directory name) e) as [p' [e' [Hp' [Hi' [Hf' Hl']]]]];
      auto.
    { now apply in_map. }
    apply in_map_iff in Hp' as [n [<- Hn]].
    now exists n, e'.
Qed.

Lemma EnumerateRunDirectory_fails_fast_witness :
  listdir broken_fs (lit "/run") = Ok [lit "a"; lit "bad"; lit "b"]
  /\ isfile broken_fs (os_path_join (lit "/run") (lit "bad")) = true
  /\ FromFile broken_fs (os_path_join (lit "/run") (lit "bad")) = Raise JSONDecodeError
  /\ FromFile broken_fs (os_path_join (lit "/run") (lit "b")) = Ok (record_named "b")
  /\ EnumerateRunDirectory broken_fs (lit "/run") = Raise JSONDecodeError.
Proof.
  assert (Hl : listdir broken_fs (lit "/run") = Ok [lit "a"; lit "bad"; lit "b"])
    by (vm_compute; reflexivity).
  assert (Hi : isfile broken_fs (os_path_join (lit "/run") (lit "bad")) = true)
    by (vm_compute; reflexivity).
  assert (Hf : FromFile broken_fs (os_path_join (lit "/run") (lit "bad"))
               = Raise JSONDecodeError) by (vm_compute; reflexivity).
  split; [exact Hl|]. split; [exact Hi|]. split; [exact Hf|].
  split; [vm_compute; reflexivity|].
  apply (proj1 (EnumerateRunDirectory_fails_fast broken_fs (lit "/run") _ Hl)
           [lit "a"] (lit "bad") [lit "b"] JSONDecodeError eq_refl); [|exact Hi|exact Hf].
  intros n [<-|[]] _. exists (record_named "a"). vm_compute. reflexivity.
Defined.

(** * Further properties of the module *)

(** ** What [IsAlive] lets through *)

(** X1: [IsAlive] catches [OSError] only.  A pid that is not an integer makes
    it raise [TypeError], and an integer outside the range of a C pid makes
    it raise [OverflowError]; neither is turned into false. *)
Theorem IsAlive_propagates (r : RunData) (sys : system) :
  (is_int (pid r) = false -> IsAlive r sys = Raise TypeError)
  /\ (forall z, pid r = PInt z -> (z < PID_MIN \/ PID_MAX < z)%Z ->
        IsAlive r sys = Raise OverflowError).
Proof.
  unfold IsAlive, os_kill0. split.
  - destruct (pid r); cbn [is_int]; try discriminate; reflexivity.
  - intros z -> Hz.
    replace ((PID_MIN <=? z)%Z && (z <=? PID_MAX)%Z) with false; [reflexivity|].
    symmetry. apply andb_false_iff.
    destruct Hz as [Hz|Hz]; [left|right]; apply Z.leb_gt; exact Hz.
Qed.

Lemma IsAlive_propagates_witness :
  (is_int (pid (record_of_pid (PStr (lit "12345")))) = false
   /\ IsAlive (record_of_pid (PStr (lit "12345"))) example_system = Raise TypeError)
  /\ (pid (record_of_pid (PInt 2147483648)) = PInt 2147483648
      /\ (2147483648 < PID_MIN \/ PID_MAX < 2147483648)%Z
      /\ IsAlive (record_of_pid (PInt 2147483648)) example_system
         = Raise OverflowError).
Proof.
  split.
  - split; [reflexivity|].
    apply (proj1 (IsAlive_propagates (record_of_pid (PStr (lit "12345")))
                    example_system)).
    reflexivity.
  - split; [reflexivity|]. split; [right; unfold PID_MAX; lia|].
    apply (proj2 (IsAlive_propagates (record_of_pid (PInt 2147483648))
                    example_system) 2147483648%Z eq_refl).
    right. unfold PID_MAX. lia.
Defined.

Lemma targets_zero (sys : system) :
  targets sys 0 = filter (fun p => (p_pgid p =? self_pgid sys)%Z) (procs sys).
Proof. reflexivity. Qed.

Lemma kill0_zero (sys : system) : kill0 sys 0 = Ok tt <-> group_reachable sys.
Proof.
  unfold kill0, group_reachable. rewrite targets_zero.
  destruct (filter _ (procs sys)) as [|t ts] eqn:E.
  - split; [discriminate|]. intros [p [Hin [Hg Hs]]].
    assert (Hf : In p (filter (fun p => (p_pgid p =? self_pgid sys)%Z) (procs sys))).
    { apply filter_In. split; [exact Hin|]. now apply Z.eqb_eq. }
    rewrite E in Hf. destruct Hf.
  - rewrite <- E. clear E t ts.
    destruct (existsb _ _) eqn:Ex.
    + split; [intros _|reflexivity].
      apply existsb_exists in Ex as [p [Hin Hs]].
      apply filter_In in Hin as [Hin Hg]. apply Z.eqb_eq in Hg. now exists p.
    + split; [discriminate|]. intros [p [Hin [Hg Hs]]].
      assert (Ht : existsb (may_signal sys)
                     (filter (fun p => (p_pgid p =? self_pgid sys)%Z) (procs sys))
                   = true).
      { apply existsb_exists. exists p. split; [|exact Hs].
        apply filter_In. split; [exact Hin|]. now apply Z.eqb_eq. }
      congruence.
Qed.

(** X2: a record whose pid is 0 is probed as the caller's process group: it
    is reported alive exactly when that group has a process the caller may
    signal, although no process has pid 0. *)
Theorem IsAlive_pid_zero (r : RunData) (sys : system) :
  pid r = PInt 0 -> (IsAlive r sys = Ok true <-> group_reachable sys).
Proof.
  intros Hp. rewrite <- kill0_zero. unfold IsAlive, os_kill0. rewrite Hp.
  change ((PID_MIN <=? 0)%Z && (0 <=? PID_MAX)%Z) with true. cbv iota.
  destruct (kill0_result sys 0) as [H|[H|H]]; rewrite H;
    split; try discriminate; reflexivity.
Qed.

Lemma IsAlive_pid_zero_witness :
  pid (record_of_pid (PInt 0)) = PInt 0
  /\ (IsAlive (record_of_pid (PInt 0)) example_system = Ok true
      <-> group_reachable example_system).
Proof.
  split; [reflexivity|].
  apply (IsAlive_pid_zero (record_of_pid (PInt 0)) example_system). reflexivity.
Defined.

(** ** What a successful decoding says about the text *)

Lemma RunData_kwargs_Ok (v : pyval) (r : RunData) :
  RunData_kwargs v = Ok r <-> exists items, v = PDict items /\ holds_record items r.
Proof.
  split.
  - unfold RunData_kwargs. destruct v as [| | | | | |items]; try discriminate.
    destruct (forallb _ items) eqn:Ek; [|discriminate].
    destruct (getitem (lit "station_name") items) as [a|] eqn:Ha; [|discriminate].
    destruct (getitem (lit "cell_count") items) as [b|] eqn:Hb; [|discriminate].
    destruct (getitem (lit "test_type") items) as [c|] eqn:Hc; [|discriminate].
    destruct (getitem (lit "test_version") items) as [d|] eqn:Hd; [|discriminate].
    destruct (getitem (lit "http_host") items) as [e|] eqn:He; [|discriminate].
    destruct (getitem (lit "http_port") items) as [f|] eqn:Hf; [|discriminate].
    destruct (getitem (lit "pid") items) as [g|] eqn:Hg; [|discriminate].
    intros H. injection H as <-. exists items. split; [reflexivity|]. split.
    + now apply keys_in_fields.
    + unfold _asdict.
      cbn [station_name cell_count test_type test_version http_host http_port pid].
      repeat constructor; assumption.
  - intros [items [-> [Hk Hf]]]. unfold RunData_kwargs.
    rewrite (proj2 (keys_in_fields items) Hk).
    destruct r as [a b c d e f g]. unfold _asdict in Hf.
    cbn [station_name cell_count test_type test_version http_host http_port pid] in Hf.
    repeat match goal with
           | H : Forall _ (_ :: _) |- _ =>
               let H1 := fresh "Hg" in inversion H as [|? ? H1 ?]; subst; clear H;
               cbn [fst snd] in H1
           end.
    now rewrite Hg, Hg0, Hg1, Hg2, Hg3, Hg4, Hg5.
Qed.

(** X3: [FromFile] returns a record exactly when the file can be read, its
    text is accepted by [json.loads] as an object, every key of the object
    is a field name, and every field has its key; the fields of the record
    are then the values of the keys, none is defaulted or converted. *)
Theorem FromFile_Ok_iff (fs : filesystem) (filename : text) (r : RunData) :
  FromFile fs filename = Ok r
  <-> exists data items,
        read_file fs filename = Ok data
        /\ loads data = Ok (PDict items)
        /\ holds_record items r.
Proof.
  unfold FromFile. split.
  - destruct (read_file fs filename) as [data|e]; [|discriminate]. cbn [bind].
    destruct (loads data) as [v|e] eqn:El; [|discriminate]. cbn [bind].
    intros H. apply RunData_kwargs_Ok in H as [items [-> Hr]].
    now exists data, items.
  - intros [data [items [-> [Hl Hr]]]]. cbn [bind]. rewrite Hl. cbn [bind].
    apply RunData_kwargs_Ok. now exists items.
Qed.

(** ** Encodings tell records apart *)

(** X4: two records with representable fields that have the same encoding
    are the same record. *)
Theorem AsJson_injective (r1 r2 : RunData) :
  valid_record r1 = true -> valid_record r2 = true ->
  AsJson r1 = AsJson r2 -> r1 = r2.
Proof.
  intros H1 H2 E.
  pose proof (decode_AsJson_valid r1 H1) as D1.
  pose proof (decode_AsJson_valid r2 H2) as D2.
  rewrite E in D1. congruence.
Qed.

Lemma AsJson_injective_witness :
  valid_record example_record = true
  /\ AsJson example_record = AsJson example_record
  /\ example_record = example_record.
Proof.
  split; [reflexivity|]. split; [reflexivity|].
  apply (AsJson_injective example_record example_record); reflexivity.
Defined.

(** X5: whatever representable value is written, nested lists and
    dictionaries included, [json.loads] reads the text that [json.dumps]
    writes with the arguments of [AsJson] back as the same value. *)
Theorem loads_dumps_round_trip (v : pyval) :
  representable v = true -> loads (dumps v) = Ok v.
Proof. intros H. unfold loads. now apply loads_dumps. Qed.

Lemma loads_dumps_round_trip_witness :
  representable (PList [PDict [(lit "a", PList []); (lit "b", PInt (-7))]; PNone])
  = true
  /\ loads (dumps (PList [PDict [(lit "a", PList []); (lit "b", PInt (-7))]; PNone]))
     = Ok (PList [PDict [(lit "a", PList []); (lit "b", PInt (-7))]; PNone]).
Proof.
  split; [reflexivity|].
  apply (loads_dumps_round_trip
           (PList [PDict [(lit "a", PList []); (lit "b", PInt (-7))]; PNone])).
  reflexivity.
Defined.

(** ** Station names that are not plain *)

(** X6: a station name that starts with a slash is an absolute path:
    [SaveToFile] writes there, returns the station name as the file name, and
    the directory it was given plays no part. *)
Theorem SaveToFile_absolute_station_name (self : RunData) (fs : filesystem)
    (rest : text) :
  station_name self = PStr (SLASH :: rest) ->
  forall directory,
    SaveToFile self fs directory
    = (fs' <- write_file fs (SLASH :: rest) (AsJson self) ;; Ok (fs', SLASH :: rest)).
Proof.
  intros H directory. unfold SaveToFile. rewrite H. cbv zeta.
  unfold os_path_join. now rewrite N.eqb_refl.
Qed.

Lemma SaveToFile_absolute_station_name_witness :
  station_name (record_named "/run/st") = PStr (SLASH :: lit "run/st")
  /\ exists fs', SaveToFile (record_named "/run/st") stale_fs (lit "/elsewhere")
                 = Ok (fs', lit "/run/st").
Proof.
  split; [reflexivity|].
  rewrite (SaveToFile_absolute_station_name (record_named "/run/st") stale_fs
             (lit "run/st") eq_refl (lit "/elsewhere")).
  eexists. vm_compute. reflexivity.
Defined.

(** ** The encoding is ASCII *)

Lemma hexdigit_ascii (d : N) : d < 16 -> printable (hexdigit d) = true.
Proof.
  intros H.
  assert (C : d = 0 \/ d = 1 \/ d = 2 \/ d = 3 \/ d = 4 \/ d = 5 \/ d = 6 \/ d = 7
              \/ d = 8 \/ d = 9 \/ d = 10 \/ d = 11 \/ d = 12 \/ d = 13 \/ d = 14
              \/ d = 15) by lia.
  repeat destruct C as [->|C]; try subst d; reflexivity.
Qed.

Lemma u_escape_ascii (n : N) : ascii_text (u_escape n).
Proof.
  unfold u_escape, ascii_text.
  repeat constructor; apply hexdigit_ascii; apply N.mod_upper_bound; discriminate.
Qed.

Lemma escape_char_ascii (c : N) : ascii_text (escape_char c).
Proof.
  unfold escape_char.
  destruct (c =? QUOTE); [repeat constructor|].
  destruct (c =? BACKSLASH); [repeat constructor|].
  destruct (c =? 10); [repeat constructor|].
  destruct (c =? 13); [repeat constructor|].
  destruct (c =? 9); [repeat constructor|].
  destruct (c =? 8); [repeat constructor|].
  destruct (c =? 12); [repeat constructor|].
  destruct ((32 <=? c) && (c <=? 126)) eqn:E.
  { repeat constructor. unfold printable. rewrite E. apply orb_true_r. }
  destruct (c <? 65536); [apply u_escape_ascii|].
  cbv zeta. apply Forall_app. split; apply u_escape_ascii.
Qed.

Lemma encode_basestring_ascii_ascii (s : text) : ascii_text (encode_basestring_ascii s).
Proof.
  unfold encode_basestring_ascii, ascii_text. constructor; [reflexivity|].
  apply Forall_app. split; [|repeat constructor].
  apply Forall_flat_map. apply Forall_forall. intros c _. apply escape_char_ascii.
Qed.

Lemma int_repr_ascii (z : Z) : ascii_text (int_repr z).
Proof.
  assert (H : forall u, ascii_text (uint_text u)).
  { intros u. induction u; cbn [uint_text]; constructor; auto; reflexivity. }
  unfold int_repr. destruct (Z.to_int z); [apply H|].
  constructor; [reflexivity|apply H].
Qed.

Lemma newline_indent_ascii (level : nat) : ascii_text (newline_indent level).
Proof.
  unfold newline_indent. constructor; [reflexivity|].
  apply Forall_forall. intros c Hc. apply repeat_spec in Hc. now subst.
Qed.

Lemma join_chunks_ascii (level : nat) (chunks : list text) :
  Forall ascii_text chunks -> ascii_text (join_chunks level chunks).
Proof.
  intros H. destruct chunks as [|c cs]; [constructor|].
  inversion H as [|? ? Hc Hcs]; subst. unfold join_chunks, ascii_text.
  apply Forall_app. split; [apply newline_indent_ascii|].
  apply Forall_app. split; [exact Hc|].
  apply Forall_app. split; [|apply newline_indent_ascii].
  apply Forall_flat_map. eapply Forall_impl; [|exact Hcs].
  intros c' Hc'. constructor; [reflexivity|].
  apply Forall_app. split; [apply newline_indent_ascii|exact Hc'].
Qed.

Lemma iterencode_ascii (v : pyval) :
  float_free v = true -> forall level, ascii_text (iterencode level v).
Proof.
  induction v as [|b|z|l|s|l IH|items IH] using pyval_ind; intros Hv level.
  - repeat constructor.
  - destruct b; repeat constructor.
  - apply int_repr_ascii.
  - discriminate.
  - apply encode_basestring_ascii_ascii.
  - destruct l as [|x xs]; [repeat constructor|].
    cbn [float_free] in Hv. cbn [iterencode]. unfold ascii_text.
    constructor; [reflexivity|]. apply Forall_app. split; [|repeat constructor].
    apply join_chunks_ascii. apply Forall_map.
    rewrite forallb_forall in Hv. rewrite Forall_forall in IH |- *.
    intros y Hy. apply IH; auto.
  - destruct items as [|kv items]; [repeat constructor|].
    cbn [float_free] in Hv. cbn [iterencode]. unfold ascii_text.
    constructor; [reflexivity|]. apply Forall_app. split; [|repeat constructor].
    apply join_chunks_ascii. apply Forall_map.
    eapply Permutation_Forall; [apply sort_by_key_perm|].
    apply Forall_map.
    rewrite forallb_forall in Hv. rewrite Forall_forall in IH |- *.
    intros y Hy. unfold member_chunk. cbn [fst snd].
    apply Forall_app. split; [apply encode_basestring_ascii_ascii|].
    apply Forall_app. split; [repeat constructor|].
    apply IH; auto.
Qed.

(** X7: the text [AsJson] returns for a record without floats holds line
    breaks and printable ASCII characters only, whatever characters the
    strings of the record hold: they are written as escapes. *)
Theorem AsJson_ascii (r : RunData) :
  float_free (PDict (_asdict r)) = true -> ascii_text (AsJson r).
Proof.
  intros H. rewrite AsJson_asdict. unfold dumps. now apply iterencode_ascii.
Qed.

Lemma AsJson_ascii_witness :
  float_free (PDict (_asdict (record_of_station [233; 128512; 10]))) = true
  /\ ascii_text (AsJson (record_of_station [233; 128512; 10])).
Proof.
  split; [reflexivity|].
  apply (AsJson_ascii (record_of_station [233; 128512; 10])). reflexivity.
Defined.

(** ** What [EnumerateRunDirectory] returns *)

Lemma load_files_Ok_iff (fs : filesystem) (directory : text) (names : list text) :
  forall rs,
    load_files fs (map (os_path_join directory) names) = Ok rs
    <-> Forall2 (fun n r => FromFile fs (os_path_join directory n) = Ok r)
          (filter (fun n => isfile fs (os_path_join directory n)) names) rs.
Proof.
  induction names as [|n names IH]; intros rs; cbn [map load_files filter].
  - split.
    + intros H. injection H as <-. constructor.
    + intros H. inversion H. reflexivity.
  - destruct (isfile fs (os_path_join directory n)); [|apply IH].
    destruct (FromFile fs (os_path_join directory n)) as [r|e] eqn:Er; cbn [bind].
    + destruct (load_files fs (map (os_path_join directory) names)) as [rs'|e] eqn:El;
        cbn [bind].
      * split.
        -- intros H. injection H as <-. constructor; [exact Er|]. now apply IH.
        -- intros H. inversion H as [|? ? ? ? Hr Hrs]; subst.
           apply IH in Hrs. congruence.
      * split; [discriminate|].
        intros H. inversion H as [|? ? ? ? Hr Hrs]; subst.
        apply IH in Hrs. discriminate.
    + split; [discriminate|].
      intros H. inversion H as [|? ? ? ? Hr Hrs]; subst. congruence.
Qed.

(** X8: [EnumerateRunDirectory] returns a list exactly when the directory
    can be listed and every entry that [os.path.isfile] accepts loads; the
    list then holds, in listing order, the record of each such entry and
    nothing else: no entry is skipped and no record is made up. *)
Theorem EnumerateRunDirectory_Ok_iff (fs : filesystem) (directory : text)
    (rs : list RunData) :
  EnumerateRunDirectory fs directory = Ok rs
  <-> exists names,
        listdir fs directory = Ok names
        /\ Forall2 (fun n r => FromFile fs (os_path_join directory n) = Ok r)
             (filter (fun n => isfile fs (os_path_join directory n)) names) rs.
Proof.
  unfold EnumerateRunDirectory. split.
  - destruct (listdir fs directory) as [names|e]; [|discriminate]. cbn [bind].
    intros H. exists names. split; [reflexivity|]. now apply load_files_Ok_iff.
  - intros [names [-> H]]. cbn [bind]. now apply load_files_Ok_iff.
Qed.

(** ** What [SaveToFile] leaves alone *)

Lemma get_update_put_file (name data : text) (path : list text) :
  forall (n : node) (q : list text) (a ap : bool) (d : text)
         (esp : list (text * node)),
    get n path = Some (Dir ap esp) ->
    (forall a' es', lookup name esp <> Some (Dir a' es')) ->
    q <> path ++ [name] ->
    get n q = Some (File a d) ->
    get (update n path (put name data)) q = Some (File a d).
Proof.
  induction path as [|p1 path IH]; intros n q a ap d esp Hp Hn Hq Hg.
  - cbn [get] in Hp. injection Hp as ->. cbn [update].
    destruct q as [|nm q]; [discriminate|].
    cbn [get] in Hg |- *. rewrite lookup_put.
    destruct (text_eqb nm name) eqn:E; [|exact Hg].
    apply text_eqb_eq in E. subst nm. exfalso.
    destruct (lookup name esp) as [[acc d0|acc es0]|] eqn:El;
      [|now apply (Hn acc es0)|discriminate].
    destruct q; [now apply Hq|discriminate].
  - cbn [get] in Hp. destruct n as [|a0 es0]; [discriminate|].
    destruct (lookup p1 es0) as [c|] eqn:E; [|discriminate].
    cbn [update]. destruct q as [|nm q]; [discriminate|].
    cbn [get] in Hg |- *. rewrite lookup_update.
    destruct (text_eqb p1 nm) eqn:E2; [|exact Hg].
    apply text_eqb_eq in E2. subst nm. rewrite E in Hg |- *. cbn [option_map].
    apply (IH c q a ap d esp); auto.
    intros Heq. apply Hq. cbn [app]. now rewrite Heq.
Qed.

(** What a successful [open(p, 'w')] and [write] did. *)
Lemma write_file_inv (fs fs' : filesystem) (p data : text) :
  write_file fs p data = Ok fs' ->
  exists parent name es,
    get (root fs) parent = Some (Dir true es)
    /\ (forall a' es', lookup name es <> Some (Dir a' es'))
    /\ fs' = mkFS (update (root fs) parent (put name data)) (cwd fs)
    /\ locate fs' p = Ok (parent ++ [name])
    /\ (has_nul p = false /\ p <> []
        /\ split p = removelast (split p) ++ [name]
        /\ walk (root fs) (start fs p) (removelast (split p)) = Ok parent
        /\ is_dot name = false /\ is_dotdot name = false).
Proof.
  unfold write_file, locate.
  destruct (has_nul p) eqn:Hnul; [discriminate|].
  destruct p as [|c0 p0]; [discriminate|].
  remember (c0 :: p0) as p eqn:Ep. cbv zeta.
  remember (last (split p) []) as name eqn:En.
  remember (removelast (split p)) as dirs eqn:Edirs.
  assert (Hs : split p = dirs ++ [name]).
  { subst name dirs. apply app_removelast_last, split_nonempty. }
  destruct (walk (root fs) (start fs p) dirs) as [parent|e] eqn:Ew; [|discriminate].
  cbn [bind].
  destruct (get (root fs) parent) as [[acc d|[|] es]|] eqn:Eg; try discriminate.
  destruct (is_dot name || is_dotdot name) eqn:Ed; [discriminate|].
  apply orb_false_iff in Ed as [Ed1 Ed2].
  intros H.
  assert (Hn : forall a' es', lookup name es <> Some (Dir a' es')).
  { intros a' es' E. rewrite E in H. discriminate. }
  assert (Hfs : fs' = mkFS (update (root fs) parent (put name data)) (cwd fs)).
  { destruct (lookup name es) as [[[|] d|a' es']|]; try discriminate; congruence. }
  clear H. exists parent, name, es.
  split; [exact Eg|]. split; [exact Hn|]. split; [exact Hfs|].
  split; [|repeat split; auto; subst p; discriminate].
  subst fs'. cbn [root].
  replace (start {| root := update (root fs) parent (put name data); cwd := cwd fs |} p)
    with (start fs p) by reflexivity.
  rewrite Hs, walk_app.
  rewrite (walk_update_put name data (root fs) parent true es Eg Hn _ _ _ Ew).
  cbn [walk]. rewrite (get_update_self parent _ _ _ _ Eg).
  now rewrite Ed1, Ed2, lookup_put, text_eqb_refl.
Qed.

Lemma locate_update_put (fs : filesystem) (parent : list text) (name data : text)
    (es : list (text * node)) (q : text) (cp : list text) :
  get (root fs) parent = Some (Dir true es) ->
  (forall a' es', lookup name es <> Some (Dir a' es')) ->
  locate fs q = Ok cp ->
  locate (mkFS (update (root fs) parent (put name data)) (cwd fs)) q = Ok cp.
Proof.
  intros Hg Hn Hl. apply locate_inv in Hl as [Hnul [Hne Hw]].
  unfold locate. rewrite Hnul. destruct q as [|c0 q0]; [contradiction|].
  cbn [root].
  replace (start {| root := update (root fs) parent (put name data); cwd := cwd fs |}
             (c0 :: q0)) with (start fs (c0 :: q0)) by reflexivity.
  now apply (walk_update_put name data (root fs) parent true es).
Qed.

(** X9: [SaveToFile] changes one file.  A path that leads to another place
    than the file it wrote, and that could be read before, reads the same
    afterwards. *)
Theorem SaveToFile_frame (self : RunData) (fs fs' : filesystem)
    (directory filename : text) :
  SaveToFile self fs directory = Ok (fs', filename) ->
  forall (q data : text) (cp target : list text),
    locate fs q = Ok cp -> locate fs' filename = Ok target -> cp <> target ->
    read_file fs q = Ok data -> read_file fs' q = Ok data.
Proof.
  intros H q data cp target Hq Ht Hne Hr.
  apply SaveToFile_inv in H as [name0 [_ [_ Hw]]].
  apply write_file_inv in Hw as [parent [name [es [Hg [Hn [-> [Hl _]]]]]]].
  rewrite Hl in Ht. injection Ht as <-.
  unfold read_file in Hr |- *.
  rewrite (locate_update_put fs parent name (AsJson self) es q cp Hg Hn Hq).
  rewrite Hq in Hr. cbn [bind root] in Hr |- *.
  destruct (get (root fs) cp) as [[[|] d|a' es']|] eqn:E; try discriminate.
  injection Hr as ->.
  now rewrite (get_update_put_file name (AsJson self) parent (root fs) cp true true
                 data es Hg Hn Hne E).
Qed.

Lemma SaveToFile_frame_witness :
  exists fs',
    SaveToFile (record_named "c") example_fs (lit "/run")
    = Ok (fs', lit "/run/c")
    /\ locate example_fs (lit "/run/a") = Ok [lit "run"; lit "a"]
    /\ locate fs' (lit "/run/c") = Ok [lit "run"; lit "c"]
    /\ [lit "run"; lit "a"] <> [lit "run"; lit "c"]
    /\ read_file example_fs (lit "/run/a") = Ok (AsJson (record_named "a"))
    /\ read_file fs' (lit "/run/a") = Ok (AsJson (record_named "a")).
Proof.
  destruct (SaveToFile (record_named "c") example_fs (lit "/run"))
    as [[fs' filename]|e] eqn:E; [|vm_compute in E; discriminate].
  assert (Hf : filename = lit "/run/c").
  { vm_compute in E. injection E as _ <-. reflexivity. }
  subst filename. exists fs'.
  assert (Ht : locate fs' (lit "/run/c") = Ok [lit "run"; lit "c"]).
  { vm_compute in E. injection E as <-. vm_compute. reflexivity. }
  assert (Hq : locate example_fs (lit "/run/a") = Ok [lit "run"; lit "a"])
    by (vm_compute; reflexivity).
  assert (Hr : read_file example_fs (lit "/run/a") = Ok (AsJson (record_named "a")))
    by (vm_compute; reflexivity).
  assert (Hne : [lit "run"; lit "a"] <> [lit "run"; lit "c"]) by discriminate.
  repeat split; try assumption.
  exact (SaveToFile_frame (record_named "c") example_fs fs' (lit "/run")
           (lit "/run/c") E (lit "/run/a") _ _ _ Hq Ht Hne Hr).
Defined.

(** ** A saved record is enumerated *)

Lemma In_fst_put (name data : text) (es : list (text * node)) (n : text) :
  In n (map fst (put name data es)) -> n = name \/ In n (map fst es).
Proof.
  induction es as [|[n0 c0] es IH]; cbn [put map fst In].
  - intros [E|[]]. now left.
  - destruct (text_eqb name n0) eqn:E; cbn [map fst In].
    + tauto.
    + intros [E2|Hin]; [tauto|]. destruct (IH Hin); tauto.
Qed.

Lemma NoDup_put (name data : text) (es : list (text * node)) :
  NoDup (map fst es) -> NoDup (map fst (put name data es)).
Proof.
  induction es as [|[n0 c0] es IH]; cbn [put map fst]; intros H.
  - repeat constructor. intros [].
  - inversion H as [|? ? Hn Hnd]; subst.
    destruct (text_eqb name n0) eqn:E; cbn [map fst]; [now constructor|].
    apply text_eqb_neq in E. constructor; [|now apply IH].
    intros Hin. apply In_fst_put in Hin as [Hin|Hin]; [congruence|contradiction].
Qed.

Lemma In_put (name data : text) (es : list (text * node)) (n : text) (c : node) :
  NoDup (map fst es) -> In (n, c) (put name data es) ->
  (n = name /\ c = File true data) \/ (n <> name /\ In (n, c) es).
Proof.
  induction es as [|[n0 c0] es IH]; cbn [put map fst]; intros Hnd.
  - intros [E|[]]. injection E as <- <-. now left.
  - inversion Hnd as [|? ? Hn Hnd']; subst.
    destruct (text_eqb name n0) eqn:E.
    + apply text_eqb_eq in E. subst n0. intros [E|Hin].
      * injection E as <- <-. now left.
      * right. split; [|now right]. intros ->. apply Hn.
        change name with (fst (name, c)). now apply in_map.
    + apply text_eqb_neq in E. intros [E2|Hin].
      * injection E2 as <- <-. right. split; [congruence|now left].
      * destruct (IH Hnd' Hin) as [H|[H1 H2]]; [now left|].
        right. split; [exact H1|now right].
Qed.

Lemma put_In (name data : text) (es : list (text * node)) :
  In (name, File true data) (put name data es).
Proof.
  induction es as [|[n0 c0] es IH]; cbn [put]; [now left|].
  destruct (text_eqb name n0) eqn:E; [|now right].
  apply text_eqb_eq in E. subst. now left.
Qed.

Lemma Forall_plain_put (name data : text) (es : list (text * node)) :
  plain_name name = true ->
  Forall (fun e => plain_name (fst e) = true) es ->
  Forall (fun e => plain_name (fst e) = true) (put name data es).
Proof.
  intros Hp. induction 1 as [|[n0 c0] es Hn Hes IH]; cbn [put].
  - now repeat constructor.
  - destruct (text_eqb name n0); constructor; assumption.
Qed.

Lemma may_write_no_dir (name : text) (es : list (text * node)) :
  may_write name es = true -> forall a' es', lookup name es <> Some (Dir a' es').
Proof. unfold may_write. intros H a' es' E. rewrite E in H. discriminate. Qed.

Lemma write_file_child (fs : filesystem) (directory name data : text)
    (dp : list text) (es : list (text * node)) :
  locate fs directory = Ok dp -> get (root fs) dp = Some (Dir true es) ->
  plain_name name = true -> may_write name es = true ->
  write_file fs (os_path_join directory name) data
  = Ok (mkFS (update (root fs) dp (put name data)) (cwd fs)).
Proof.
  intros Hl Hg Hp Hm.
  destruct (os_path_join_resolves fs directory name dp Hl Hp)
    as [dirs [Hs [Hw [Hnul Hne]]]].
  apply plain_name_inv in Hp as [Hd [Hdd _]].
  unfold write_file. rewrite Hnul.
  destruct (os_path_join directory name) as [|c0 p0] eqn:E; [contradiction|].
  cbv zeta. rewrite Hs, removelast_last, last_last, Hw. cbn [bind].
  rewrite Hg, Hd, Hdd. cbn [orb].
  unfold may_write in Hm.
  destruct (lookup name es) as [[[|] d|a' es']|]; try discriminate; reflexivity.
Qed.

Lemma is_directory_after_write (fs : filesystem) (directory name data : text)
    (dp : list text) (es : list (text * node)) :
  locate fs directory = Ok dp -> get (root fs) dp = Some (Dir true es) ->
  may_write name es = true ->
  is_directory (mkFS (update (root fs) dp (put name data)) (cwd fs)) directory
    (put name data es).
Proof.
  intros Hl Hg Hm. exists dp. split.
  - apply locate_update_put with es; auto. now apply may_write_no_dir.
  - cbn [root]. now apply get_update_self.
Qed.

(** X10: after [SaveToFile] has put a record with representable fields into
    a run directory whose files all load, [EnumerateRunDirectory] of that
    directory returns a list that holds the record, and the records of the
    files of the other stations as before. *)
Theorem SaveToFile_then_enumerate (r : RunData) (fs : filesystem)
    (directory name : text) (es : list (text * node)) (rec : text -> RunData) :
  valid_record r = true -> station_name r = PStr name -> plain_name name = true ->
  is_directory fs directory es -> may_write name es = true ->
  Forall (fun e => plain_name (fst e) = true) es -> NoDup (map fst es) ->
  (forall n a d, In (n, File a d) es -> a = true /\ decode d = Ok (rec n)) ->
  exists fs' rs,
    SaveToFile r fs directory = Ok (fs', os_path_join directory name)
    /\ EnumerateRunDirectory fs' directory = Ok rs
    /\ In r rs
    /\ (forall n a d, In (n, File a d) es -> n <> name -> In (rec n) rs).
Proof.
  intros Hv Hs Hp [dp [Hl Hg]] Hm Hpl Hnd Hdec.
  set (data := AsJson r).
  set (es' := put name data es).
  set (fs' := mkFS (update (root fs) dp (put name data)) (cwd fs)).
  set (rec' := fun n => if text_eqb n name then r else rec n).
  assert (Hd' : is_directory fs' directory es')
    by now apply is_directory_after_write.
  assert (He : EnumerateRunDirectory fs' directory
               = Ok (map (fun e => rec' (fst e))
                       (filter (fun e => is_regular (snd e)) es'))).
  { unfold EnumerateRunDirectory.
    rewrite (listdir_directory fs' directory es' Hd'). cbn [bind].
    apply (load_files_children fs' directory es' rec' Hd').
    - now apply Forall_plain_put.
    - now apply NoDup_put.
    - intros n a d Hin. unfold rec'.
      apply In_put in Hin; [|exact Hnd]. destruct Hin as [[-> E]|[Hn Hin]].
      + injection E as -> ->. rewrite text_eqb_refl.
        split; [reflexivity|]. now apply decode_AsJson_valid.
      + apply text_eqb_neq in Hn. rewrite Hn. exact (Hdec n a d Hin).
    - apply incl_refl. }
  exists fs', (map (fun e => rec' (fst e)) (filter (fun e => is_regular (snd e)) es')).
  split; [|split; [exact He|split]].
  - unfold SaveToFile. rewrite Hs. cbv zeta.
    now rewrite (write_file_child fs directory name (AsJson r) dp es Hl Hg Hp Hm).
  - apply in_map_iff. exists (name, File true data). split.
    + unfold rec'. cbn [fst]. now rewrite text_eqb_refl.
    + apply filter_In. split; [apply put_In|reflexivity].
  - intros n a d Hin Hn. apply in_map_iff. exists (n, File a d). split.
    + unfold rec'. cbn [fst]. apply text_eqb_neq in Hn. now rewrite Hn.
    + apply filter_In. split; [|reflexivity].
      clear - Hin Hn. unfold es'. induction es as [|[n0 c0] es IH]; [destruct Hin|].
      cbn [put]. destruct (text_eqb name n0) eqn:E.
      * apply text_eqb_eq in E. subst n0.
        destruct Hin as [E2|Hin]; [congruence|now right].
      * destruct Hin as [E2|Hin]; [now left|right; now apply IH].
Qed.

Lemma SaveToFile_then_enumerate_witness :
  exists fs' rs,
    SaveToFile (record_named "c") example_fs (lit "/run")
    = Ok (fs', os_path_join (lit "/run") (lit "c"))
    /\ EnumerateRunDirectory fs' (lit "/run") = Ok rs
    /\ In (record_named "c") rs
    /\ (forall n a d, In (n, File a d) run_entries -> n <> lit "c" ->
          In (record_of_station n) rs).
Proof.
  apply (SaveToFile_then_enumerate (record_named "c") example_fs (lit "/run")
           (lit "c") run_entries record_of_station); try reflexivity.
  - exists [lit "run"]. split; reflexivity.
  - repeat constructor.
  - cbv. repeat (constructor; [simpl; intuition discriminate|]). constructor.
  - intros n a d Hin.
    destruct Hin as [E|[E|[E|[]]]]; try discriminate;
      injection E as <- <- <-; split; try reflexivity; vm_compute; reflexivity.
Defined.

(** ** Station names that are no file names *)

Lemma os_path_join_components (fs : filesystem) (directory name : text)
    (dp : list text) :
  locate fs directory = Ok dp ->
  existsb (N.eqb SLASH) name = false -> has_nul name = false ->
  exists dirs,
    split (os_path_join directory name) = dirs ++ [name]
    /\ walk (root fs) (start fs (os_path_join directory name)) dirs = Ok dp
    /\ has_nul (os_path_join directory name) = false
    /\ os_path_join directory name <> [].
Proof.
  intros Hl Hs Hn. apply locate_inv in Hl as [Hnul [Hne Hw]].
  destruct directory as [|d0 directory]; [contradiction|].
  assert (Hj : os_path_join (d0 :: directory) name
               = if ends_with_slash (d0 :: directory)
                 then (d0 :: directory) ++ name
                 else (d0 :: directory) ++ SLASH :: name).
  { unfold os_path_join. destruct name as [|c name]; [reflexivity|].
    cbn [existsb] in Hs. apply orb_false_iff in Hs as [Hs _].
    rewrite N.eqb_sym, Hs. reflexivity. }
  rewrite Hj. clear Hj.
  destruct (ends_with_slash (d0 :: directory)) eqn:Ee.
  - apply ends_with_slash_inv in Ee as [d Ed]. rewrite Ed in *.
    rewrite <- app_assoc. cbn [app].
    rewrite split_app_slash in Hw |- *. rewrite (split_plain _ Hs).
    cbn [split] in Hw. rewrite walk_app in Hw.
    exists (split d). split; [reflexivity|].
    assert (Hst : start fs (d ++ SLASH :: name) = start fs (d ++ [SLASH])).
    { destruct d; reflexivity. }
    rewrite Hst. split; [|split].
    + destruct (walk (root fs) (start fs (d ++ [SLASH])) (split d)) as [q|e];
        [|discriminate].
      f_equal. now apply (walk_empty_component (root fs)).
    + rewrite has_nul_app in Hnul |- *. apply orb_false_iff in Hnul as [Hnul _].
      rewrite Hnul. cbn [has_nul existsb orb] in *. exact Hn.
    + destruct d; discriminate.
  - exists (split (d0 :: directory)).
    rewrite split_app_slash, (split_plain _ Hs).
    split; [reflexivity|]. split; [|split].
    + rewrite start_app by discriminate. exact Hw.
    + rewrite has_nul_app, Hnul. cbn [has_nul existsb orb] in *. exact Hn.
    + discriminate.
Qed.

Lemma dot_name_cases (name : text) :
  is_dot name || is_dotdot name = true ->
  name = [] \/ name = lit "." \/ name = lit "..".
Proof.
  unfold is_dot, is_dotdot. intros H.
  apply orb_true_iff in H as [H|H]; [apply orb_true_iff in H as [H|H]|];
    apply text_eqb_eq in H; auto.
Qed.

(** X11: with a station name that is empty, [.] or [..], the path
    [SaveToFile] makes names a directory: in a directory that exists and may
    be used it raises the [OSError] for a directory ([IsADirectoryError])
    and nothing is written. *)
Theorem SaveToFile_dot_station_name (self : RunData) (fs : filesystem)
    (directory name : text) (es : list (text * node)) :
  station_name self = PStr name -> is_dot name || is_dotdot name = true ->
  is_directory fs directory es ->
  SaveToFile self fs directory = Raise (OSError EISDIR).
Proof.
  intros Hs Hd [dp [Hl Hg]].
  assert (Hslash : existsb (N.eqb SLASH) name = false /\ has_nul name = false).
  { destruct (dot_name_cases name Hd) as [-> | [-> | ->]]; split; reflexivity. }
  destruct Hslash as [Hsl Hnul].
  destruct (os_path_join_components fs directory name dp Hl Hsl Hnul)
    as [dirs [Hsp [Hw [Hn Hne]]]].
  unfold SaveToFile. rewrite Hs. cbv zeta. unfold write_file. rewrite Hn.
  destruct (os_path_join directory name) as [|c0 p0] eqn:E; [contradiction|].
  cbv zeta. rewrite Hsp, removelast_last, last_last, Hw. cbn [bind].
  now rewrite Hg, Hd.
Qed.

Lemma SaveToFile_dot_station_name_witness :
  station_name (record_of_station []) = PStr []
  /\ is_dot [] || is_dotdot [] = true
  /\ is_directory example_fs (lit "/run") run_entries
  /\ SaveToFile (record_of_station []) example_fs (lit "/run")
     = Raise (OSError EISDIR).
Proof.
  assert (Hd : is_directory example_fs (lit "/run") run_entries).
  { exists [lit "run"]. split; reflexivity. }
  split; [reflexivity|]. split; [reflexivity|]. split; [exact Hd|].
  exact (SaveToFile_dot_station_name (record_of_station []) example_fs (lit "/run")
           [] run_entries eq_refl eq_refl Hd).
Defined.

(** ** Repeated keys *)







(** ** Saving again *)

Lemma put_put (name data : text) (es : list (text * node)) :
  put name data (put name data es) = put name data es.
Proof.
  induction es as [|[n0 c0] es IH]; cbn [put].
  - now rewrite text_eqb_refl.
  - destruct (text_eqb name n0) eqn:E; cbn [put]; rewrite E; [reflexivity|].
    now rewrite IH.
Qed.

Lemma update_ext (f g : list (text * node) -> list (text * node)) (path : list text) :
  (forall es, f es = g es) -> forall n, update n path f = update n path g.
Proof.
  intros H. induction path as [|p1 path IH]; intros [a d|a es]; cbn [update];
    try reflexivity.
  - now rewrite H.
  - f_equal. apply map_ext. intros e. now rewrite IH.
Qed.

Lemma update_update (f g : list (text * node) -> list (text * node))
    (path : list text) :
  forall n, update (update n path f) path g = update n path (fun es => g (f es)).
Proof.
  induction path as [|p1 path IH]; intros [a d|a es]; cbn [update]; try reflexivity.
  f_equal. rewrite map_map. apply map_ext. intros [n0 c0]. cbn [fst snd].
  destruct (text_eqb p1 n0) eqn:E; cbn [fst snd]; rewrite E; [|reflexivity].
  now rewrite IH.
Qed.

(** X13: saving a record a second time changes nothing: [SaveToFile] on the
    file system that a first [SaveToFile] of the same record into the same
    directory left returns the same file name and leaves the same file
    system. *)
Theorem SaveToFile_idempotent (self : RunData) (fs fs' : filesystem)
    (directory filename : text) :
  SaveToFile self fs directory = Ok (fs', filename) ->
  SaveToFile self fs' directory = Ok (fs', filename).
Proof.
  intros H. apply SaveToFile_inv in H as [name0 [Hs [Hf Hw]]].
  apply write_file_inv in Hw
    as [parent [name [es [Hg [Hn [Hfs [_ [Hnul [Hne [Hsp [Hwk [Hd Hdd]]]]]]]]]]]].
  unfold SaveToFile. rewrite Hs. cbv zeta. rewrite <- Hf.
  unfold write_file. rewrite Hnul.
  destruct filename as [|c0 p0]; [contradiction|].
  remember (c0 :: p0) as p eqn:Ep. cbv zeta.
  assert (Hlast : last (split p) [] = name).
  { rewrite Hsp. apply last_last. }
  rewrite Hlast.
  assert (Hst : start fs' p = start fs p) by (subst fs'; reflexivity).
  rewrite Hst.
  assert (Hw' : walk (root fs') (start fs p) (removelast (split p)) = Ok parent).
  { subst fs'. cbn [root].
    now apply (walk_update_put name (AsJson self) (root fs) parent true es). }
  rewrite Hw'. cbn [bind].
  assert (Hg' : get (root fs') parent
                = Some (Dir true (put name (AsJson self) es))).
  { subst fs'. cbn [root]. now apply get_update_self. }
  rewrite Hg', Hd, Hdd, lookup_put, text_eqb_refl. cbn [orb bind].
  do 2 f_equal. subst fs'. cbn [root cwd]. f_equal.
  rewrite update_update. apply update_ext. intros es0. apply put_put.
Qed.

Lemma SaveToFile_idempotent_witness :
  exists fs',
    SaveToFile example_record stale_fs (lit "/run") = Ok (fs', lit "/run/st")
    /\ SaveToFile example_record fs' (lit "/run") = Ok (fs', lit "/run/st").
Proof.
  destruct (SaveToFile example_record stale_fs (lit "/run"))
    as [[fs' filename]|e] eqn:E; [|vm_compute in E; discriminate].
  assert (Hf : filename = lit "/run/st").
  { vm_compute in E. injection E as _ <-. reflexivity. }
  subst filename. exists fs'. split; [reflexivity|].
  exact (SaveToFile_idempotent example_record stale_fs fs' (lit "/run")
           (lit "/run/st") E).
Defined.

(** ** Files without a value *)

(** X14: a file that is empty or holds white space only is no record:
    [FromFile] raises the [ValueError] of [json.loads]. *)
Theorem FromFile_blank (fs : filesystem) (filename data : text) :
  read_file fs filename = Ok data -> skip_ws data = [] ->
  FromFile fs filename = Raise JSONDecodeError.
Proof.
  intros Hr Hb. rewrite (FromFile_decode fs filename data Hr).
  unfold decode, loads, loads_with. now rewrite Hb.
Qed.

Lemma FromFile_blank_witness :
  read_file (mkFS (Dir true [(lit "st", File true [SPACE; NEWLINE])]) [])
    (lit "/st") = Ok [SPACE; NEWLINE]
  /\ skip_ws [SPACE; NEWLINE] = []
  /\ FromFile (mkFS (Dir true [(lit "st", File true [SPACE; NEWLINE])]) [])
       (lit "/st") = Raise JSONDecodeError.
Proof.
  split; [reflexivity|]. split; [reflexivity|].
  apply (FromFile_blank _ (lit "/st") [SPACE; NEWLINE]); reflexivity.
Defined.

